(** * Florodoro: the procedural plant engine

    A shallow embedding of the plant hierarchy of [florodoro/__init__.py]
    ([smoothen_curve], [Plant], [Flower], [CircularFlower], [Tree],
    [OrangeTree], [GreenTree], [DoubleGreenTree]) and the properties of its
    generation and drawing steps, followed by [Drawable.save], the [Canvas]
    and the part of the [Florodoro] widget that drives the plant: the timer,
    its label, the saved files and the choice of the sounds.

    Python floats are idealised as real numbers, the [random] module as an
    oracle read through a cursor, the [QPainter] as the log of the calls it
    receives, and the clock as an input of the handlers. *)

From Stdlib Require Import Reals Lra Lia ZArith List Bool.
From Stdlib Require String DecimalString.
Import ListNotations.
Open Scope R_scope.

(** ** The smoothing curve *)

(** [def smoothen_curve(x): return (sin((x - 1 / 2) * pi) + 1) / 2], over
    the reals: the doubles of the source agree with it up to rounding only,
    so an exact identity of the curve is a fact of this idealisation. *)
Definition smoothen_curve (x : R) : R := (sin ((x - 1 / 2) * PI) + 1) / 2.

Lemma smoothen_curve_0 : smoothen_curve 0 = 0.
Proof.
  unfold smoothen_curve.
  replace ((0 - 1 / 2) * PI) with (- (PI / 2)) by lra.
  rewrite sin_neg, sin_PI2. lra.
Qed.

Lemma smoothen_curve_1 : smoothen_curve 1 = 1.
Proof.
  unfold smoothen_curve.
  replace ((1 - 1 / 2) * PI) with (PI / 2) by lra.
  rewrite sin_PI2. lra.
Qed.

Lemma smoothen_curve_le x y :
  0 <= x -> x <= y -> y <= 1 -> smoothen_curve x <= smoothen_curve y.
Proof.
  intros Hx Hxy Hy. unfold smoothen_curve.
  pose proof PI_RGT_0 as Hpi.
  destruct (Req_dec x y) as [->|Hne]; [lra|].
  assert (sin ((x - 1 / 2) * PI) < sin ((y - 1 / 2) * PI)); [|lra].
  apply sin_increasing_1; nra.
Qed.

(** ** Python and Qt values *)

(** The exceptions the modelled code can raise. *)
Inductive exn : Type :=
| ZeroDivisionError
| AttributeError
| TypeError
| IndexError
| NameError
| ValueError.

Inductive result (A : Type) : Type :=
| Ok (a : A)
| Raise (e : exn).
Arguments Ok {A} a.
Arguments Raise {A} e.

(** [QColor(r, g, b)] *)
Record QColor : Type := mkQColor { red : Z; green : Z; blue : Z }.

(** [Qt.NoPen], the pen style of value 0. *)
Definition Qt_NoPen : Z := 0%Z.

(** The calls a [QPainter] receives, over a type [A] of scalars: [A] is [R]
    for what the code does, and a symbolic scalar in the growth analysis. *)
Section Calls.
Variable A : Type.

(** [path.setFillRule(Qt.WindingFill)], [path.quadTo(cx, cy, x, y)],
    [path.cubicTo(c1x, c1y, c2x, c2y, x, y)] on a [QPainterPath()]. *)
Inductive path_call : Type :=
| setFillRule_WindingFill
| quadTo (cx cy x y : A)
| cubicTo (c1x c1y c2x c2y x y : A).

Definition QPainterPath : Type := list path_call.

(** [QPen(color, width)] and [QPen(style)]. *)
Inductive QPen : Type :=
| QPen_color (c : QColor) (width : A)
| QPen_style (style : Z).

Inductive call : Type :=
| Translate (dx dy : A)
| TranslateTo (path : QPainterPath) (percent : A)
    (* translate(path.pointAtPercent(percent)) *)
| Scale (sx sy : A)
| Rotate (angle : A)
| Save
| Restore
| SetPen (pen : QPen)
| SetBrush (c : QColor)
| DrawPath (path : QPainterPath)
| DrawPolygon (points : list (A * A))
| DrawEllipseRect (x y w h : A)       (* drawEllipse(QRectF(x, y, w, h)) *)
| DrawEllipseAt (cx cy rx ry : A).    (* drawEllipse(QPointF(cx, cy), rx, ry) *)
End Calls.

Arguments setFillRule_WindingFill {A}.
Arguments quadTo {A}.
Arguments cubicTo {A}.
Arguments QPen_color {A}.
Arguments QPen_style {A}.
Arguments Translate {A}.
Arguments TranslateTo {A}.
Arguments Scale {A}.
Arguments Rotate {A}.
Arguments Save {A}.
Arguments Restore {A}.
Arguments SetPen {A}.
Arguments SetBrush {A}.
Arguments DrawPath {A}.
Arguments DrawPolygon {A}.
Arguments DrawEllipseRect {A}.
Arguments DrawEllipseAt {A}.

(** The classes that can be instantiated. *)
Inductive cls : Type :=
| Flower
| CircularFlower
| Tree
| OrangeTree
| GreenTree
| DoubleGreenTree.

(** The bound pellet methods of [CircularFlower]. *)
Inductive pellet : Type :=
| circular_pellet
| triangle_pellet
| dip_pellet
| round_pellet.

Definition pellet_eqb (f g : pellet) : bool :=
  match f, g with
  | circular_pellet, circular_pellet
  | triangle_pellet, triangle_pellet
  | dip_pellet, dip_pellet
  | round_pellet, round_pellet => true
  | _, _ => false
  end.

(** The lambdas stored on a plant by [generate].
    [Lx_position c] is [lambda width: width / 9 * x_coefficient], closed over
    the local [x_coefficient = c];
    [Lscaled d] is
    [lambda v: v / d * self.deficit_coefficient * self.age_coefficient],
    which reads [self] when it is called. *)
Inductive lambda : Type :=
| Lx_position (x_coefficient : R)
| Lscaled (d : R).

(** [lambda height: min(height * .95,
      self.base_height(height * 0.3 * smoothen_curve(self.age)))] *)
Inductive lambda_offset : Type :=
| Loffset.

(** ** The state of a plant

    An attribute that has not been assigned yet is [None]; [maxAge] is a
    class attribute whose value is Python's [None] until [set_max_age]. *)
Record plant : Type := mkPlant {
  class : cls;
  age : R;
  maxAge : option R;
  age_coefficient : option R;
  deficit_coefficient : option R;
  (* Flower *)
  leafs : option (list (R * R * R));
  x_position : option lambda;
  y_position : option lambda;
  leaf_size : option lambda;
  stem_width : option R;
  x : option R;
  y : option R;
  (* CircularFlower *)
  color : option QColor;
  number_of_pellets : option Z;
  pellet_size : option lambda;
  center_pellet_smaller_coefficient : option R;
  pellet_drawing_function : option pellet;
  (* Tree *)
  branches : option (list (R * R));
  base_width : option lambda;
  base_height : option lambda;
  branch_width : option lambda;
  branch_height : option lambda;
  (* OrangeTree *)
  branch_circles : option (list (R * R));
  (* GreenTree *)
  green_width : option lambda;
  green_height : option lambda;
  offset : option lambda_offset;
  (* DoubleGreenTree *)
  second_green_width : option lambda;
  second_green_height : option lambda
}.

(** Attribute assignment, [self.f = v]. *)
Definition assign_age v (p : plant) : plant :=
  mkPlant (class p) v (maxAge p) (age_coefficient p) (deficit_coefficient p)
    (leafs p) (x_position p) (y_position p) (leaf_size p) (stem_width p) (x p)
    (y p) (color p) (number_of_pellets p) (pellet_size p)
    (center_pellet_smaller_coefficient p) (pellet_drawing_function p)
    (branches p) (base_width p) (base_height p) (branch_width p)
    (branch_height p) (branch_circles p) (green_width p) (green_height p)
    (offset p) (second_green_width p) (second_green_height p).
Definition assign_maxAge v (p : plant) : plant :=
  mkPlant (class p) (age p) (Some v) (age_coefficient p)
    (deficit_coefficient p) (leafs p) (x_position p) (y_position p)
    (leaf_size p) (stem_width p) (x p) (y p) (color p) (number_of_pellets p)
    (pellet_size p) (center_pellet_smaller_coefficient p)
    (pellet_drawing_function p) (branches p) (base_width p) (base_height p)
    (branch_width p) (branch_height p) (branch_circles p) (green_width p)
    (green_height p) (offset p) (second_green_width p)
    (second_green_height p).
Definition assign_age_coefficient v (p : plant) : plant :=
  mkPlant (class p) (age p) (maxAge p) (Some v) (deficit_coefficient p)
    (leafs p) (x_position p) (y_position p) (leaf_size p) (stem_width p) (x p)
    (y p) (color p) (number_of_pellets p) (pellet_size p)
    (center_pellet_smaller_coefficient p) (pellet_drawing_function p)
    (branches p) (base_width p) (base_height p) (branch_width p)
    (branch_height p) (branch_circles p) (green_width p) (green_height p)
    (offset p) (second_green_width p) (second_green_height p).
Definition assign_deficit_coefficient v (p : plant) : plant :=
  mkPlant (class p) (age p) (maxAge p) (age_coefficient p) (Some v) (leafs p)
    (x_position p) (y_position p) (leaf_size p) (stem_width p) (x p) (y p)
    (color p) (number_of_pellets p) (pellet_size p)
    (center_pellet_smaller_coefficient p) (pellet_drawing_function p)
    (branches p) (base_width p) (base_height p) (branch_width p)
    (branch_height p) (branch_circles p) (green_width p) (green_height p)
    (offset p) (second_green_width p) (second_green_height p).
Definition assign_leafs v (p : plant) : plant :=
  mkPlant (class p) (age p) (maxAge p) (age_coefficient p)
    (deficit_coefficient p) (Some v) (x_position p) (y_position p)
    (leaf_size p) (stem_width p) (x p) (y p) (color p) (number_of_pellets p)
    (pellet_size p) (center_pellet_smaller_coefficient p)
    (pellet_drawing_function p) (branches p) (base_width p) (base_height p)
    (branch_width p) (branch_height p) (branch_circles p) (green_width p)
    (green_height p) (offset p) (second_green_width p)
    (second_green_height p).
Definition assign_x_position v (p : plant) : plant :=
  mkPlant (class p) (age p) (maxAge p) (age_coefficient p)
    (deficit_coefficient p) (leafs p) (Some v) (y_position p) (leaf_size p)
    (stem_width p) (x p) (y p) (color p) (number_of_pellets p) (pellet_size p)
    (center_pellet_smaller_coefficient p) (pellet_drawing_function p)
    (branches p) (base_width p) (base_height p) (branch_width p)
    (branch_height p) (branch_circles p) (green_width p) (green_height p)
    (offset p) (second_green_width p) (second_green_height p).
Definition assign_y_position v (p : plant) : plant :=
  mkPlant (class p) (age p) (maxAge p) (age_coefficient p)
    (deficit_coefficient p) (leafs p) (x_position p) (Some v) (leaf_size p)
    (stem_width p) (x p) (y p) (color p) (number_of_pellets p) (pellet_size p)
    (center_pellet_smaller_coefficient p) (pellet_drawing_function p)
    (branches p) (base_width p) (base_height p) (branch_width p)
    (branch_height p) (branch_circles p) (green_width p) (green_height p)
    (offset p) (second_green_width p) (second_green_height p).
Definition assign_leaf_size v (p : plant) : plant :=
  mkPlant (class p) (age p) (maxAge p) (age_coefficient p)
    (deficit_coefficient p) (leafs p) (x_position p) (y_position p) (Some v)
    (stem_width p) (x p) (y p) (color p) (number_of_pellets p) (pellet_size p)
    (center_pellet_smaller_coefficient p) (pellet_drawing_function p)
    (branches p) (base_width p) (base_height p) (branch_width p)
    (branch_height p) (branch_circles p) (green_width p) (green_height p)
    (offset p) (second_green_width p) (second_green_height p).
Definition assign_stem_width v (p : plant) : plant :=
  mkPlant (class p) (age p) (maxAge p) (age_coefficient p)
    (deficit_coefficient p) (leafs p) (x_position p) (y_position p)
    (leaf_size p) (Some v) (x p) (y p) (color p) (number_of_pellets p)
    (pellet_size p) (center_pellet_smaller_coefficient p)
    (pellet_drawing_function p) (branches p) (base_width p) (base_height p)
    (branch_width p) (branch_height p) (branch_circles p) (green_width p)
    (green_height p) (offset p) (second_green_width p)
    (second_green_height p).
Definition assign_x v (p : plant) : plant :=
  mkPlant (class p) (age p) (maxAge p) (age_coefficient p)
    (deficit_coefficient p) (leafs p) (x_position p) (y_position p)
    (leaf_size p) (stem_width p) (Some v) (y p) (color p)
    (number_of_pellets p) (pellet_size p)
    (center_pellet_smaller_coefficient p) (pellet_drawing_function p)
    (branches p) (base_width p) (base_height p) (branch_width p)
    (branch_height p) (branch_circles p) (green_width p) (green_height p)
    (offset p) (second_green_width p) (second_green_height p).
Definition assign_y v (p : plant) : plant :=
  mkPlant (class p) (age p) (maxAge p) (age_coefficient p)
    (deficit_coefficient p) (leafs p) (x_position p) (y_position p)
    (leaf_size p) (stem_width p) (x p) (Some v) (color p)
    (number_of_pellets p) (pellet_size p)
    (center_pellet_smaller_coefficient p) (pellet_drawing_function p)
    (branches p) (base_width p) (base_height p) (branch_width p)
    (branch_height p) (branch_circles p) (green_width p) (green_height p)
    (offset p) (second_green_width p) (second_green_height p).
Definition assign_color v (p : plant) : plant :=
  mkPlant (class p) (age p) (maxAge p) (age_coefficient p)
    (deficit_coefficient p) (leafs p) (x_position p) (y_position p)
    (leaf_size p) (stem_width p) (x p) (y p) (Some v) (number_of_pellets p)
    (pellet_size p) (center_pellet_smaller_coefficient p)
    (pellet_drawing_function p) (branches p) (base_width p) (base_height p)
    (branch_width p) (branch_height p) (branch_circles p) (green_width p)
    (green_height p) (offset p) (second_green_width p)
    (second_green_height p).
Definition assign_number_of_pellets v (p : plant) : plant :=
  mkPlant (class p) (age p) (maxAge p) (age_coefficient p)
    (deficit_coefficient p) (leafs p) (x_position p) (y_position p)
    (leaf_size p) (stem_width p) (x p) (y p) (color p) (Some v)
    (pellet_size p) (center_pellet_smaller_coefficient p)
    (pellet_drawing_function p) (branches p) (base_width p) (base_height p)
    (branch_width p) (branch_height p) (branch_circles p) (green_width p)
    (green_height p) (offset p) (second_green_width p)
    (second_green_height p).
Definition assign_pellet_size v (p : plant) : plant :=
  mkPlant (class p) (age p) (maxAge p) (age_coefficient p)
    (deficit_coefficient p) (leafs p) (x_position p) (y_position p)
    (leaf_size p) (stem_width p) (x p) (y p) (color p) (number_of_pellets p)
    (Some v) (center_pellet_smaller_coefficient p) (pellet_drawing_function p)
    (branches p) (base_width p) (base_height p) (branch_width p)
    (branch_height p) (branch_circles p) (green_width p) (green_height p)
    (offset p) (second_green_width p) (second_green_height p).
Definition assign_center_pellet_smaller_coefficient v (p : plant) : plant :=
  mkPlant (class p) (age p) (maxAge p) (age_coefficient p)
    (deficit_coefficient p) (leafs p) (x_position p) (y_position p)
    (leaf_size p) (stem_width p) (x p) (y p) (color p) (number_of_pellets p)
    (pellet_size p) (Some v) (pellet_drawing_function p) (branches p)
    (base_width p) (base_height p) (branch_width p) (branch_height p)
    (branch_circles p) (green_width p) (green_height p) (offset p)
    (second_green_width p) (second_green_height p).
Definition assign_pellet_drawing_function v (p : plant) : plant :=
  mkPlant (class p) (age p) (maxAge p) (age_coefficient p)
    (deficit_coefficient p) (leafs p) (x_position p) (y_position p)
    (leaf_size p) (stem_width p) (x p) (y p) (color p) (number_of_pellets p)
    (pellet_size p) (center_pellet_smaller_coefficient p) (Some v)
    (branches p) (base_width p) (base_height p) (branch_width p)
    (branch_height p) (branch_circles p) (green_width p) (green_height p)
    (offset p) (second_green_width p) (second_green_height p).
Definition assign_branches v (p : plant) : plant :=
  mkPlant (class p) (age p) (maxAge p) (age_coefficient p)
    (deficit_coefficient p) (leafs p) (x_position p) (y_position p)
    (leaf_size p) (stem_width p) (x p) (y p) (color p) (number_of_pellets p)
    (pellet_size p) (center_pellet_smaller_coefficient p)
    (pellet_drawing_function p) (Some v) (base_width p) (base_height p)
    (branch_width p) (branch_height p) (branch_circles p) (green_width p)
    (green_height p) (offset p) (second_green_width p)
    (second_green_height p).
Definition assign_base_width v (p : plant) : plant :=
  mkPlant (class p) (age p) (maxAge p) (age_coefficient p)
    (deficit_coefficient p) (leafs p) (x_position p) (y_position p)
    (leaf_size p) (stem_width p) (x p) (y p) (color p) (number_of_pellets p)
    (pellet_size p) (center_pellet_smaller_coefficient p)
    (pellet_drawing_function p) (branches p) (Some v) (base_height p)
    (branch_width p) (branch_height p) (branch_circles p) (green_width p)
    (green_height p) (offset p) (second_green_width p)
    (second_green_height p).
Definition assign_base_height v (p : plant) : plant :=
  mkPlant (class p) (age p) (maxAge p) (age_coefficient p)
    (deficit_coefficient p) (leafs p) (x_position p) (y_position p)
    (leaf_size p) (stem_width p) (x p) (y p) (color p) (number_of_pellets p)
    (pellet_size p) (center_pellet_smaller_coefficient p)
    (pellet_drawing_function p) (branches p) (base_width p) (Some v)
    (branch_width p) (branch_height p) (branch_circles p) (green_width p)
    (green_height p) (offset p) (second_green_width p)
    (second_green_height p).
Definition assign_branch_width v (p : plant) : plant :=
  mkPlant (class p) (age p) (maxAge p) (age_coefficient p)
    (deficit_coefficient p) (leafs p) (x_position p) (y_position p)
    (leaf_size p) (stem_width p) (x p) (y p) (color p) (number_of_pellets p)
    (pellet_size p) (center_pellet_smaller_coefficient p)
    (pellet_drawing_function p) (branches p) (base_width p) (base_height p)
    (Some v) (branch_height p) (branch_circles p) (green_width p)
    (green_height p) (offset p) (second_green_width p)
    (second_green_height p).
Definition assign_branch_height v (p : plant) : plant :=
  mkPlant (class p) (age p) (maxAge p) (age_coefficient p)
    (deficit_coefficient p) (leafs p) (x_position p) (y_position p)
    (leaf_size p) (stem_width p) (x p) (y p) (color p) (number_of_pellets p)
    (pellet_size p) (center_pellet_smaller_coefficient p)
    (pellet_drawing_function p) (branches p) (base_width p) (base_height p)
    (branch_width p) (Some v) (branch_circles p) (green_width p)
    (green_height p) (offset p) (second_green_width p)
    (second_green_height p).
Definition assign_branch_circles v (p : plant) : plant :=
  mkPlant (class p) (age p) (maxAge p) (age_coefficient p)
    (deficit_coefficient p) (leafs p) (x_position p) (y_position p)
    (leaf_size p) (stem_width p) (x p) (y p) (color p) (number_of_pellets p)
    (pellet_size p) (center_pellet_smaller_coefficient p)
    (pellet_drawing_function p) (branches p) (base_width p) (base_height p)
    (branch_width p) (branch_height p) (Some v) (green_width p)
    (green_height p) (offset p) (second_green_width p)
    (second_green_height p).
Definition assign_green_width v (p : plant) : plant :=
  mkPlant (class p) (age p) (maxAge p) (age_coefficient p)
    (deficit_coefficient p) (leafs p) (x_position p) (y_position p)
    (leaf_size p) (stem_width p) (x p) (y p) (color p) (number_of_pellets p)
    (pellet_size p) (center_pellet_smaller_coefficient p)
    (pellet_drawing_function p) (branches p) (base_width p) (base_height p)
    (branch_width p) (branch_height p) (branch_circles p) (Some v)
    (green_height p) (offset p) (second_green_width p)
    (second_green_height p).
Definition assign_green_height v (p : plant) : plant :=
  mkPlant (class p) (age p) (maxAge p) (age_coefficient p)
    (deficit_coefficient p) (leafs p) (x_position p) (y_position p)
    (leaf_size p) (stem_width p) (x p) (y p) (color p) (number_of_pellets p)
    (pellet_size p) (center_pellet_smaller_coefficient p)
    (pellet_drawing_function p) (branches p) (base_width p) (base_height p)
    (branch_width p) (branch_height p) (branch_circles p) (green_width p)
    (Some v) (offset p) (second_green_width p) (second_green_height p).
Definition assign_offset v (p : plant) : plant :=
  mkPlant (class p) (age p) (maxAge p) (age_coefficient p)
    (deficit_coefficient p) (leafs p) (x_position p) (y_position p)
    (leaf_size p) (stem_width p) (x p) (y p) (color p) (number_of_pellets p)
    (pellet_size p) (center_pellet_smaller_coefficient p)
    (pellet_drawing_function p) (branches p) (base_width p) (base_height p)
    (branch_width p) (branch_height p) (branch_circles p) (green_width p)
    (green_height p) (Some v) (second_green_width p) (second_green_height p).
Definition assign_second_green_width v (p : plant) : plant :=
  mkPlant (class p) (age p) (maxAge p) (age_coefficient p)
    (deficit_coefficient p) (leafs p) (x_position p) (y_position p)
    (leaf_size p) (stem_width p) (x p) (y p) (color p) (number_of_pellets p)
    (pellet_size p) (center_pellet_smaller_coefficient p)
    (pellet_drawing_function p) (branches p) (base_width p) (base_height p)
    (branch_width p) (branch_height p) (branch_circles p) (green_width p)
    (green_height p) (offset p) (Some v) (second_green_height p).
Definition assign_second_green_height v (p : plant) : plant :=
  mkPlant (class p) (age p) (maxAge p) (age_coefficient p)
    (deficit_coefficient p) (leafs p) (x_position p) (y_position p)
    (leaf_size p) (stem_width p) (x p) (y p) (color p) (number_of_pellets p)
    (pellet_size p) (center_pellet_smaller_coefficient p)
    (pellet_drawing_function p) (branches p) (base_width p) (base_height p)
    (branch_width p) (branch_height p) (branch_circles p) (green_width p)
    (green_height p) (offset p) (second_green_width p) (Some v).

(** A freshly constructed instance: only the class attributes [age = 0] and
    [maxAge = None] are visible. *)
Definition new_plant (c : cls) : plant :=
  mkPlant c 0 None None None None None None None None None None None None
    None None None None None None None None None None None None None None.

(** ** The random source

    The generator behind Python's [random] module is an oracle: the [n]-th
    draw yields [unit_floats n] when it is read by [random()] and
    [naturals n] (reduced below the bound) when it is read by [_randbelow].
    [cursor] counts the draws made so far. *)
Record rng : Type := mkRng {
  cursor : nat;
  unit_floats : nat -> R;
  naturals : nat -> nat
}.

(** [random()] returns a float in the half-open interval [0, 1). *)
Definition rng_ok (g : rng) : Prop := forall n, 0 <= unit_floats g n < 1.

Definition advance (g : rng) : rng :=
  mkRng (S (cursor g)) (unit_floats g) (naturals g).

(** ** The interpreter state and its monad

    [self] is the plant a method runs on, [random_state] the generator of the
    [random] module and [painter] the calls received so far by the [QPainter]
    handed to [draw]. *)
Record world : Type := mkWorld {
  self : plant;
  random_state : rng;
  painter : list (call R)
}.

Definition M (A : Type) : Type := world -> result (A * world).

Definition ret {A} (a : A) : M A := fun w => Ok (a, w).

Definition bind {A B} (m : M A) (k : A -> M B) : M B :=
  fun w => match m w with
           | Ok (a, w') => k a w'
           | Raise e => Raise e
           end.

Definition raise {A} (e : exn) : M A := fun _ => Raise e.

Declare Scope py_scope.
Delimit Scope py_scope with py.
Notation "x <- m ;; k" := (bind m (fun x => k))
  (at level 61, m at next level, right associativity) : py_scope.
Notation "m ;; k" := (bind m (fun _ => k))
  (at level 61, right associativity) : py_scope.
Open Scope py_scope.

(** [self.f], for an attribute that [generate] or [_draw] assigns. *)
Definition attr {A} (f : plant -> option A) : M A :=
  fun w => match f (self w) with
           | Some v => Ok (v, w)
           | None => Raise AttributeError
           end.

(** [self.age] *)
Definition self_age : M R := fun w => Ok (age (self w), w).

(** [self.f = v] *)
Definition assign {V} (set : V -> plant -> plant) (v : V) : M unit :=
  fun w => Ok (tt, mkWorld (set v (self w)) (random_state w) (painter w)).

(** A method call on the painter. *)
Definition paint (c : call R) : M unit :=
  fun w => Ok (tt, mkWorld (self w) (random_state w) (painter w ++ [c])).

(** [for v in l: body(v)] *)
Fixpoint for_ {A} (l : list A) (body : A -> M unit) : M unit :=
  match l with
  | [] => ret tt
  | v :: l' => body v ;; for_ l' body
  end.

(** [[body(v) for v in l]] *)
Fixpoint comprehension {A B} (l : list A) (body : A -> M B) : M (list B) :=
  match l with
  | [] => ret []
  | v :: l' => b <- body v ;; bs <- comprehension l' body ;; ret (b :: bs)
  end.

(** [range(n)] *)
Definition range (n : Z) : list Z := map Z.of_nat (seq 0 (Z.to_nat n)).

(** [enumerate(l)] *)
Definition enumerate {A} (l : list A) : list (nat * A) :=
  combine (seq 0 (length l)) l.

(** *** The [random] module *)

(** [random()] *)
Definition random : M R :=
  fun w => let g := random_state w in
           Ok (unit_floats g (cursor g), mkWorld (self w) (advance g) (painter w)).

(** [uniform(a, b)], which is [a + (b - a) * random()]. *)
Definition uniform (a b : R) : M R :=
  r <- random ;; ret (a + (b - a) * r).

(** [_randbelow(n)] for [n > 0]. *)
Definition randbelow (n : nat) : M nat :=
  fun w => let g := random_state w in
           Ok (Nat.modulo (naturals g (cursor g)) n,
               mkWorld (self w) (advance g) (painter w)).

(** [randint(a, b)] *)
Definition randint (a b : Z) : M Z :=
  if (b <? a)%Z then raise ValueError
  else k <- randbelow (Z.to_nat (b - a + 1)) ;; ret (a + Z.of_nat k)%Z.

(** [choice(seq)] *)
Definition choice {A} (l : list A) : M A :=
  match l with
  | [] => raise IndexError
  | _ :: _ =>
      k <- randbelow (length l) ;;
      match nth_error l k with
      | Some v => ret v
      | None => raise IndexError
      end
  end.

(** *** Arithmetic and the [math] module *)

(** [a / b] with a divisor that is not a literal. *)
Definition py_div (a b : R) : M R :=
  if Req_dec_T b 0 then raise ZeroDivisionError else ret (a / b).

(** [degrees(x)] *)
Definition degrees (r : R) : R := r * 180 / PI.

(** [acos(x)], a domain error outside [-1, 1]. *)
Definition py_acos (v : R) : M R :=
  if Rle_dec (-1) v then
    if Rle_dec v 1 then ret (acos v) else raise ValueError
  else raise ValueError.

(** [round(x)] on a float: to the nearest integer, a tie to the even one. *)
Definition py_round (v : R) : Z :=
  let f := Int_part v in
  if Rlt_dec (frac_part v) (1 / 2) then f
  else if Rlt_dec (1 / 2) (frac_part v) then (f + 1)%Z
  else if Z.even f then f else (f + 1)%Z.

(** [-1 if random() < 0.5 else 1] *)
Definition random_sign : M R :=
  r <- random ;; ret (if Rlt_dec r 0.5 then -1 else 1).

(** [self.f(v)] for a stored lambda. *)
Definition call_lambda (l : lambda) (v : R) : M R :=
  match l with
  | Lx_position x_coefficient => ret (v / 9 * x_coefficient)
  | Lscaled d =>
      dc <- attr deficit_coefficient ;;
      ac <- attr age_coefficient ;;
      ret (v / d * dc * ac)
  end.

Definition invoke (f : plant -> option lambda) (v : R) : M R :=
  l <- attr f ;; call_lambda l v.

(** [self.offset(height)] *)
Definition invoke_offset (height : R) : M R :=
  l <- attr offset ;;
  match l with
  | Loffset =>
      a <- self_age ;;
      b <- invoke base_height (height * 0.3 * smoothen_curve a) ;;
      ret (Rmin (height * 0.95) b)
  end.

(** ** class Plant *)

Definition green_color : QColor := mkQColor 0 119 0.
Definition white_color : QColor := mkQColor 255 255 255.

(** [Plant.set_current_age] *)
Definition set_current_age (a : R) : M unit :=
  assign assign_age a.

(** [Plant.get_adjusted_age] *)
Definition get_adjusted_age : M R :=
  a <- self_age ;; ret (a ^ 2).

(** [self.maxAge] where a number is needed: [None + 1] is a [TypeError]. *)
Definition maxAge_number : M R :=
  fun w => match maxAge (self w) with
           | Some m => Ok (m, w)
           | None => Raise TypeError
           end.

(** [Plant.generate] *)
Definition Plant_generate : M unit :=
  m <- maxAge_number ;;
  assign assign_age_coefficient ((m + 1) / 2) ;;
  d <- uniform 0.9 1 ;;
  assign assign_deficit_coefficient d.

(** ** class Flower *)

(** [Flower.generateLeafs] *)
Definition Flower_generateLeafs (count : Z) : M unit :=
  l <- comprehension (range count) (fun i =>
         dc <- attr deficit_coefficient ;;
         dc' <- attr deficit_coefficient ;;
         position <- uniform (dc * 0.25) (dc' * 0.40) ;;
         coefficient <- uniform 0.9 1.1 ;;
         rotation <- (if (count =? 2)%Z then ret ((IZR i - 1 / 2) * 2)
                      else random_sign) ;;
         ret (position, coefficient, rotation)) ;;
  assign assign_leafs l.

(** [Flower.generate] *)
Definition Flower_generate : M unit :=
  Plant_generate ;;
  u <- uniform 0.4 1 ;;
  s <- random_sign ;;
  let x_coefficient := u * s in
  assign assign_x_position (Lx_position x_coefficient) ;;
  assign assign_y_position (Lscaled 2.5) ;;
  assign assign_leaf_size (Lscaled 7) ;;
  Flower_generateLeafs 2 ;;
  u' <- uniform 3.5 4 ;;
  ac <- attr age_coefficient ;;
  assign assign_stem_width (u' * ac).

(** The size of one leaf,
    [self.leaf_size(width) * smoothen_curve(self.age) ** 2 * coefficient]. *)
Definition Flower_leaf_ls (width : Z) (coefficient : R) : M R :=
  l <- invoke leaf_size (IZR width) ;;
  a <- self_age ;;
  ret (l * smoothen_curve a ^ 2 * coefficient).

(** The body of the loop over [self.leafs] in [Flower._draw]; [path] is the
    stem. *)
Definition Flower_draw_leaf (width : Z) (path : QPainterPath R)
    (leaf : R * R * R) : M unit :=
  let '(position, coefficient, rotation) := leaf in
  paint Save ;;
  paint (TranslateTo path position) ;;
  paint (Rotate (degrees rotation)) ;;
  sy <- attr y ;;
  (if Req_dec_T sy 0 then ret tt
   else sx <- attr x ;;
        sy' <- attr y ;;
        q <- py_div sx sy' ;;
        paint (Rotate (- degrees (sin q)))) ;;
  (if Rlt_dec rotation 0 then paint (Scale (-1) 1) else ret tt) ;;
  paint (SetBrush green_color) ;;
  paint (SetPen (QPen_style 0)) ;;
  ls <- Flower_leaf_ls width coefficient ;;
  paint (DrawPath [setFillRule_WindingFill;
                   quadTo (0.4 * ls) (0.5 * ls) 0 ls;
                   cubicTo 0 (0.5 * ls) (-0.4 * ls) (0.4 * ls) 0 0]) ;;
  paint Restore.

(** [Flower._draw] *)
Definition Flower__draw (width height : Z) : M unit :=
  xp <- invoke x_position (IZR width) ;;
  a <- self_age ;;
  assign assign_x (xp * smoothen_curve a) ;;
  yp <- invoke y_position (IZR height) ;;
  a <- self_age ;;
  assign assign_y (yp * smoothen_curve a) ;;
  sw <- attr stem_width ;;
  a <- self_age ;;
  paint (SetPen (QPen_color green_color (sw * smoothen_curve a))) ;;
  sy <- attr y ;;
  sx <- attr x ;;
  sy' <- attr y ;;
  let path := [quadTo 0 (sy * 0.6) sx sy'] in
  paint (DrawPath path) ;;
  ls <- attr leafs ;;
  for_ ls (Flower_draw_leaf width path).

(** ** class CircularFlower *)

(** [CircularFlower.colors], the colors of the Florodoro logo. *)
Definition colors : list QColor :=
  [mkQColor 139 139 255; mkQColor 72 178 173; mkQColor 255 85 85;
   mkQColor 238 168 43; mkQColor 226 104 155].

(** [CircularFlower.triangle_pellet] *)
Definition CircularFlower_triangle_pellet (pellet_size : R) : M unit :=
  let pellet_size := pellet_size * 1.5 in
  paint (DrawPath [setFillRule_WindingFill;
                   quadTo (0.9 * pellet_size) (0.5 * pellet_size) 0 pellet_size;
                   quadTo (-0.5 * pellet_size) (0.4 * pellet_size) 0 0]).

(** [CircularFlower.circular_pellet] *)
Definition CircularFlower_circular_pellet (pellet_size : R) : M unit :=
  paint (DrawEllipseRect 0 0 pellet_size pellet_size).

(** [CircularFlower.round_pellet] *)
Definition CircularFlower_round_pellet (pellet_size : R) : M unit :=
  let pellet_size := pellet_size * 1.3 in
  paint (DrawPath (setFillRule_WindingFill ::
    map (fun c : Z =>
           quadTo (IZR c * pellet_size * 0.8) (pellet_size * 0.9) 0
                  (if negb (c =? -1)%Z then pellet_size else 0))
        [1; -1]%Z)).

(** [CircularFlower.dip_pellet] *)
Definition CircularFlower_dip_pellet (pellet_size : R) : M unit :=
  let pellet_size := pellet_size * 1.2 in
  paint (DrawPath (setFillRule_WindingFill ::
    map (fun c : Z =>
           quadTo (IZR c * pellet_size) (pellet_size * 1.4) 0
                  (if negb (c =? -1)%Z then pellet_size else 0))
        [1; -1]%Z)).

(** A call through [self.pellet_drawing_function]. *)
Definition call_pellet (f : pellet) (pellet_size : R) : M unit :=
  match f with
  | circular_pellet => CircularFlower_circular_pellet pellet_size
  | triangle_pellet => CircularFlower_triangle_pellet pellet_size
  | dip_pellet => CircularFlower_dip_pellet pellet_size
  | round_pellet => CircularFlower_round_pellet pellet_size
  end.

(** [CircularFlower.generate] *)
Definition CircularFlower_generate : M unit :=
  Flower_generate ;;
  c <- choice colors ;;
  assign assign_color c ;;
  n <- randint 5 7 ;;
  assign assign_number_of_pellets n ;;
  assign assign_pellet_size (Lscaled 9) ;;
  u <- uniform 0.75 0.85 ;;
  assign assign_center_pellet_smaller_coefficient u ;;
  f <- choice [circular_pellet; triangle_pellet; dip_pellet; round_pellet] ;;
  assign assign_pellet_drawing_function f ;;
  f' <- attr pellet_drawing_function ;;
  if existsb (pellet_eqb f') [dip_pellet; round_pellet]
  then assign assign_number_of_pellets 5%Z
  else ret tt.

(** [CircularFlower._draw] *)
Definition CircularFlower__draw (width height : Z) : M unit :=
  Flower__draw width height ;;
  paint Save ;;
  sx <- attr x ;;
  sy <- attr y ;;
  paint (Translate sx sy) ;;
  paint (SetPen (QPen_style Qt_NoPen)) ;;
  c <- attr color ;;
  paint (SetBrush c) ;;
  ps <- invoke pellet_size (IZR width) ;;
  a <- self_age ;;
  let pellet_size := ps * smoothen_curve a in
  n <- attr number_of_pellets ;;
  for_ (range n) (fun _ =>
    f <- attr pellet_drawing_function ;;
    call_pellet f pellet_size ;;
    n' <- attr number_of_pellets ;;
    q <- py_div 360 (IZR n') ;;
    paint (Rotate q)) ;;
  paint (SetBrush white_color) ;;
  k <- attr center_pellet_smaller_coefficient ;;
  let pellet_size := pellet_size * k in
  paint (DrawEllipseRect (- pellet_size / 2) (- pellet_size / 2)
                         pellet_size pellet_size) ;;
  paint Restore.

(** ** class Tree *)

Definition brown_color : QColor := mkQColor 77 51 0.

(** [Tree.generateBranches] *)
Definition Tree_generateBranches (count : Z) : M unit :=
  l <- comprehension (range count) (fun i =>
         dc <- attr deficit_coefficient ;;
         dc' <- attr deficit_coefficient ;;
         position <- uniform (dc * 0.45) (dc' * 0.55) ;;
         s <- (if (count =? 2)%Z then ret ((IZR i - 1 / 2) * 2)
               else random_sign) ;;
         u <- uniform 0.4 0.6 ;;
         t <- py_acos u ;;
         ret (position, s * t)) ;;
  assign assign_branches l.

(** [Tree.generate] *)
Definition Tree_generate : M unit :=
  Plant_generate ;;
  ac <- attr age_coefficient ;;
  u <- uniform 1 (2 * ac) ;;
  Tree_generateBranches (py_round u) ;;
  assign assign_base_width (Lscaled 15) ;;
  assign assign_base_height (Lscaled 1.7) ;;
  assign assign_branch_width (Lscaled 18) ;;
  assign assign_branch_height (Lscaled 2.7).

(** The body of the loop over [self.branches] in [Tree._draw]. *)
Definition Tree_draw_branch (width height : Z) (branch : R * R) : M unit :=
  let '(h, rotation) := branch in
  paint Save ;;
  a <- self_age ;;
  t <- invoke base_height (IZR height * h * smoothen_curve a) ;;
  paint (Translate 0 t) ;;
  paint (Rotate (degrees rotation)) ;;
  w1 <- invoke branch_width (IZR width) ;;
  a1 <- get_adjusted_age ;;
  w2 <- invoke branch_width (IZR width) ;;
  a2 <- get_adjusted_age ;;
  h3 <- invoke branch_height (IZR height) ;;
  a3 <- get_adjusted_age ;;
  paint (DrawPolygon [(- w1 * smoothen_curve a1 * (1 - h), 0);
                      (w2 * smoothen_curve a2 * (1 - h), 0);
                      (0, h3 * smoothen_curve a3 * (1 - h))]) ;;
  paint Restore.

(** [Tree._draw] *)
Definition Tree__draw (width height : Z) : M unit :=
  paint (SetBrush brown_color) ;;
  w1 <- invoke base_width (IZR width) ;;
  a1 <- self_age ;;
  w2 <- invoke base_width (IZR width) ;;
  a2 <- self_age ;;
  h3 <- invoke base_height (IZR height) ;;
  a3 <- self_age ;;
  paint (DrawPolygon [(- w1 * smoothen_curve a1, 0);
                      (w2 * smoothen_curve a2, 0);
                      (0, h3 * smoothen_curve a3)]) ;;
  bs <- attr branches ;;
  for_ bs (Tree_draw_branch width height).

(** ** class OrangeTree *)

Definition orange_color : QColor := mkQColor 243 148 30.

(** [OrangeTree.generate] *)
Definition OrangeTree_generate : M unit :=
  Tree_generate ;;
  Tree_generateBranches 2 ;;
  bs <- attr branches ;;
  l <- comprehension (range (Z.of_nat (length bs) + 1)) (fun _ =>
         dc <- attr deficit_coefficient ;;
         dc' <- attr deficit_coefficient ;;
         size <- uniform (dc * 0.30) (dc' * 0.37) ;;
         dc <- attr deficit_coefficient ;;
         dc' <- attr deficit_coefficient ;;
         position <- uniform (dc * 0.9) dc' ;;
         ret (size, position)) ;;
  assign assign_branch_circles l.

(** [l[i]] for a list and an index that is not negative. *)
Definition subscript {A} (l : list A) (i : nat) : M A :=
  match nth_error l i with
  | Some v => ret v
  | None => raise IndexError
  end.

(** [l[-1]] *)
Definition subscript_last {A} (l : list A) : M A :=
  match rev l with
  | v :: _ => ret v
  | [] => raise IndexError
  end.

(** A read of a local variable that is bound only inside a loop. *)
Definition local {A} (v : option A) : M A :=
  match v with
  | Some a => ret a
  | None => raise NameError
  end.

(** The body of the loop over [enumerate(self.branches)] in
    [OrangeTree._draw]. *)
Definition OrangeTree_draw_fruit (width height : Z) (ib : nat * (R * R))
    : M unit :=
  let '(i, (h, rotation)) := ib in
  paint Save ;;
  a <- self_age ;;
  t <- invoke base_height (IZR height * h * smoothen_curve a) ;;
  paint (Translate 0 t) ;;
  paint (Rotate (degrees rotation)) ;;
  bh <- invoke branch_height (IZR height) ;;
  a2 <- get_adjusted_age ;;
  let top_of_branch := bh * smoothen_curve a2 * (1 - h) in
  bc <- attr branch_circles ;;
  c <- subscript bc i ;;
  let circle_on_branch_position := top_of_branch * snd c in
  bc <- attr branch_circles ;;
  c <- subscript bc i ;;
  a2 <- get_adjusted_age ;;
  ac <- attr age_coefficient ;;
  let r := (IZR (width + height) / 2) * fst c * smoothen_curve a2 * (1 - h)
           * ac in
  paint (SetBrush orange_color) ;;
  paint (DrawEllipseAt 0 circle_on_branch_position r r) ;;
  paint Restore.

(** [OrangeTree._draw] without its last statement, the call of
    [super()._draw]. The local [h] keeps the value of the last iteration. *)
Definition OrangeTree_draw_fruits (width height : Z) : M unit :=
  paint (SetPen (QPen_style Qt_NoPen)) ;;
  paint (SetBrush orange_color) ;;
  bs <- attr branches ;;
  for_ (enumerate bs) (OrangeTree_draw_fruit width height) ;;
  let h := option_map fst (last (map Some bs) None) in
  bh <- invoke base_height (IZR height) ;;
  a <- self_age ;;
  let top_of_branch := bh * smoothen_curve a in
  bc <- attr branch_circles ;;
  c <- subscript_last bc ;;
  let circle_on_branch_position := top_of_branch * snd c in
  let increase_size := 1.3 in
  bc <- attr branch_circles ;;
  c <- subscript_last bc ;;
  a2 <- get_adjusted_age ;;
  h <- local h ;;
  ac <- attr age_coefficient ;;
  let r := (IZR (width + height) / 2) * fst c * smoothen_curve a2 * (1 - h)
           * ac * increase_size in
  paint (DrawEllipseAt 0 circle_on_branch_position r r).

(** [OrangeTree._draw] *)
Definition OrangeTree__draw (width height : Z) : M unit :=
  OrangeTree_draw_fruits width height ;;
  Tree__draw width height.

(** ** class GreenTree *)

(** [GreenTree.generate] *)
Definition GreenTree_generate : M unit :=
  Tree_generate ;;
  assign assign_green_width (Lscaled 3.2) ;;
  assign assign_green_height (Lscaled 1.5) ;;
  assign assign_offset Loffset.

(** The triangle of [GreenTree._draw]. *)
Definition GreenTree_draw_canopy (width height : Z) : M unit :=
  paint (SetPen (QPen_style Qt_NoPen)) ;;
  paint (SetBrush green_color) ;;
  w1 <- invoke green_width (IZR width) ;;
  a1 <- self_age ;;
  o1 <- invoke_offset (IZR height) ;;
  w2 <- invoke green_width (IZR width) ;;
  a2 <- self_age ;;
  o2 <- invoke_offset (IZR height) ;;
  h3 <- invoke green_height (IZR height) ;;
  a3 <- self_age ;;
  o3 <- invoke_offset (IZR height) ;;
  paint (DrawPolygon [(- w1 * smoothen_curve a1, o1);
                      (w2 * smoothen_curve a2, o2);
                      (0, h3 * smoothen_curve a3 + o3)]).

(** [GreenTree._draw] *)
Definition GreenTree__draw (width height : Z) : M unit :=
  GreenTree_draw_canopy width height ;;
  Tree__draw width height.

(** ** class DoubleGreenTree *)

(** [DoubleGreenTree.generate] *)
Definition DoubleGreenTree_generate : M unit :=
  GreenTree_generate ;;
  assign assign_second_green_width (Lscaled 3.5) ;;
  assign assign_second_green_height (Lscaled 2.4).

(** The triangle of [DoubleGreenTree._draw]. *)
Definition DoubleGreenTree_draw_canopy (width height : Z) : M unit :=
  paint (SetPen (QPen_style Qt_NoPen)) ;;
  paint (SetBrush green_color) ;;
  a <- self_age ;;
  offset <- invoke base_height (IZR height * 0.3 * smoothen_curve a) ;;
  gh <- invoke green_height (IZR height) ;;
  sgh <- invoke second_green_height (IZR height) ;;
  a <- self_age ;;
  let second_offset := (gh - sgh) * smoothen_curve a in
  w1 <- invoke second_green_width (IZR width) ;;
  a1 <- self_age ;;
  w2 <- invoke second_green_width (IZR width) ;;
  a2 <- self_age ;;
  h3 <- invoke second_green_height (IZR height) ;;
  a3 <- self_age ;;
  paint (DrawPolygon
           [(- w1 * smoothen_curve a1 ^ 2, offset + second_offset);
            (w2 * smoothen_curve a2 ^ 2, offset + second_offset);
            (0, Rmin (h3 * smoothen_curve a3 + offset + second_offset)
                     (IZR height * 0.95))]).

(** [DoubleGreenTree._draw] *)
Definition DoubleGreenTree__draw (width height : Z) : M unit :=
  DoubleGreenTree_draw_canopy width height ;;
  GreenTree__draw width height.

(** ** Dynamic dispatch and the public methods *)

(** [self.generate()] *)
Definition generate : M unit :=
  fun w => match class (self w) with
           | Flower => Flower_generate w
           | CircularFlower => CircularFlower_generate w
           | Tree => Tree_generate w
           | OrangeTree => OrangeTree_generate w
           | GreenTree => GreenTree_generate w
           | DoubleGreenTree => DoubleGreenTree_generate w
           end.

(** [self._draw(painter, width, height)] *)
Definition _draw (width height : Z) : M unit :=
  fun w => match class (self w) with
           | Flower => Flower__draw width height w
           | CircularFlower => CircularFlower__draw width height w
           | Tree => Tree__draw width height w
           | OrangeTree => OrangeTree__draw width height w
           | GreenTree => GreenTree__draw width height w
           | DoubleGreenTree => DoubleGreenTree__draw width height w
           end.

(** [Plant.set_max_age] *)
Definition set_max_age (m : R) : M unit :=
  assign assign_maxAge m ;;
  generate.

(** [Plant.draw] *)
Definition draw (width height : Z) : M unit :=
  fun w0 =>
    match maxAge (self w0) with
    | None => ret tt w0
    | Some _ =>
        (let w := Z.min width height in
         let h := Z.min width height in
         paint (Translate (IZR width / 2) (IZR height)) ;;
         paint (Scale 1 (-1)) ;;
         _draw w h) w0
    end.

(** ** Reasoning about runs *)

(** [wp m Q w]: run from [w], [m] returns, with a value and a final state
    that satisfy [Q]. *)
Definition wp {A} (m : M A) (Q : A -> world -> Prop) (w : world) : Prop :=
  match m w with
  | Ok (a, w') => Q a w'
  | Raise _ => False
  end.

Lemma wp_run {A} (m : M A) Q w :
  wp m Q w <-> exists a w', m w = Ok (a, w') /\ Q a w'.
Proof.
  unfold wp. destruct (m w) as [[a w']|e].
  - split; [eauto|]. intros (a0 & w0 & E & H). now inversion E; subst.
  - split; [tauto|]. now intros (a0 & w0 & E & _).
Qed.

Lemma wp_mono {A} (m : M A) (Q Q' : A -> world -> Prop) w :
  (forall a w', Q a w' -> Q' a w') -> wp m Q w -> wp m Q' w.
Proof. unfold wp. destruct (m w) as [[a w']|e]; auto. Qed.

Lemma wp_ret {A} (a : A) Q w : Q a w -> wp (ret a) Q w.
Proof. exact (fun H => H). Qed.

Lemma wp_bind {A B} (m : M A) (k : A -> M B) Q w :
  wp m (fun a w' => wp (k a) Q w') w -> wp (bind m k) Q w.
Proof. unfold wp, bind. destruct (m w) as [[a w']|e]; auto. Qed.

Lemma wp_attr {A} (f : plant -> option A) v Q w :
  f (self w) = Some v -> Q v w -> wp (attr f) Q w.
Proof. unfold wp, attr. now intros ->. Qed.

Lemma wp_assign {V} (set : V -> plant -> plant) v Q w :
  Q tt (mkWorld (set v (self w)) (random_state w) (painter w)) ->
  wp (assign set v) Q w.
Proof. exact (fun H => H). Qed.

Lemma wp_paint c Q w :
  Q tt (mkWorld (self w) (random_state w) (painter w ++ [c])) ->
  wp (paint c) Q w.
Proof. exact (fun H => H). Qed.

(** One draw leaves the oracle in place and moves the cursor. *)
Definition drawn (w : world) : world :=
  mkWorld (self w) (advance (random_state w)) (painter w).

Lemma wp_random Q w :
  rng_ok (random_state w) ->
  (forall r, 0 <= r < 1 -> Q r (drawn w)) ->
  wp random Q w.
Proof. intros Hg H. apply H, Hg. Qed.

Lemma wp_uniform a b Q w :
  rng_ok (random_state w) ->
  (forall r, 0 <= r < 1 -> Q (a + (b - a) * r) (drawn w)) ->
  wp (uniform a b) Q w.
Proof. intros Hg H. apply H, Hg. Qed.

Lemma uniform_range a b r :
  a <= b -> 0 <= r < 1 -> a <= a + (b - a) * r <= b.
Proof. intros. nra. Qed.

Lemma wp_random_sign Q w :
  rng_ok (random_state w) ->
  (forall s, s = -1 \/ s = 1 -> Q s (drawn w)) ->
  wp random_sign Q w.
Proof.
  intros Hg H. unfold random_sign. apply wp_bind, wp_random; [exact Hg|].
  intros r _. apply wp_ret, H. destruct (Rlt_dec r 0.5); auto.
Qed.

Lemma wp_randbelow n Q w :
  n <> 0%nat ->
  (forall k, (k < n)%nat -> Q k (drawn w)) ->
  wp (randbelow n) Q w.
Proof. intros Hn H. apply H, Nat.mod_upper_bound, Hn. Qed.

Lemma wp_randint a b Q w :
  (a <= b)%Z ->
  (forall n, (a <= n <= b)%Z -> Q n (drawn w)) ->
  wp (randint a b) Q w.
Proof.
  intros Hab H. unfold randint.
  destruct (Z.ltb_spec b a); [lia|].
  apply wp_bind, wp_randbelow; [lia|].
  intros k Hk. apply wp_ret, H. lia.
Qed.

Lemma wp_choice {A} (l : list A) Q w :
  l <> [] ->
  (forall v, In v l -> Q v (drawn w)) ->
  wp (choice l) Q w.
Proof.
  intros Hl H. unfold choice. destruct l as [|v0 l0]; [easy|].
  apply wp_bind, wp_randbelow; [easy|].
  intros k Hk. destruct (nth_error (v0 :: l0) k) as [v|] eqn:E.
  - apply wp_ret, H. eapply nth_error_In, E.
  - apply nth_error_None in E. lia.
Qed.

Lemma wp_py_acos v Q w :
  -1 <= v <= 1 -> Q (acos v) w -> wp (py_acos v) Q w.
Proof.
  intros [H1 H2] H. unfold py_acos.
  destruct (Rle_dec (-1) v); [|tauto]. destruct (Rle_dec v 1); tauto.
Qed.

(** A comprehension whose body keeps an invariant [I] of the state builds a
    list related elementwise to its input. *)
Lemma wp_comprehension {A B} (I : world -> Prop) (E : A -> B -> Prop)
    (l : list A) (body : A -> M B) :
  (forall v w, In v l -> I w -> wp (body v) (fun b w' => I w' /\ E v b) w) ->
  forall w, I w ->
    wp (comprehension l body) (fun bs w' => I w' /\ Forall2 E l bs) w.
Proof.
  induction l as [|v l IH]; intros Hbody w Hw.
  - apply wp_ret. split; [exact Hw | constructor].
  - cbn [comprehension]. apply wp_bind.
    eapply wp_mono; [|apply Hbody; [now left | exact Hw]].
    intros b w1 [Hw1 Hb]. cbv beta. apply wp_bind.
    eapply wp_mono; [|apply IH; [|exact Hw1]].
    + intros bs w2 [Hw2 Hbs]. apply wp_ret. split; [exact Hw2|].
      now constructor.
    + intros v' w' Hin. apply Hbody. now right.
Qed.

(** A loop whose body keeps an invariant of the state keeps it. *)
Lemma wp_for_ {A} (I : world -> Prop) (l : list A) (body : A -> M unit) :
  (forall v w, In v l -> I w -> wp (body v) (fun _ w' => I w') w) ->
  forall w, I w -> wp (for_ l body) (fun _ w' => I w') w.
Proof.
  induction l as [|v l IH]; intros Hbody w Hw.
  - exact Hw.
  - cbn [for_]. apply wp_bind.
    eapply wp_mono; [|apply Hbody; [now left | exact Hw]].
    intros u w1 Hw1. apply IH; [|exact Hw1].
    intros v' w' Hin. apply Hbody. now right.
Qed.

Lemma range_length n : length (range n) = Z.to_nat n.
Proof. unfold range. now rewrite length_map, length_seq. Qed.

Lemma range_2 : range 2 = [0%Z; 1%Z].
Proof. reflexivity. Qed.

(** ** Generation *)

Ltac clean_world := cbn [self random_state painter drawn].

Ltac reduce_world :=
  lazy [self random_state painter drawn
       class age maxAge age_coefficient deficit_coefficient leafs x_position
       y_position leaf_size stem_width x y color number_of_pellets pellet_size
       center_pellet_smaller_coefficient pellet_drawing_function branches
       base_width base_height branch_width branch_height branch_circles
       green_width green_height offset second_green_width second_green_height
       assign_age assign_maxAge assign_age_coefficient
       assign_deficit_coefficient assign_leafs assign_x_position
       assign_y_position assign_leaf_size assign_stem_width assign_x assign_y
       assign_color assign_number_of_pellets assign_pellet_size
       assign_center_pellet_smaller_coefficient
       assign_pellet_drawing_function assign_branches assign_base_width
       assign_base_height assign_branch_width assign_branch_height
       assign_branch_circles assign_green_width assign_green_height
       assign_offset assign_second_green_width assign_second_green_height].

(** One step of a run whose next statement reads or writes the state. *)
Ltac wp_step :=
  lazymatch goal with
  | |- wp (bind _ _) _ _ => apply wp_bind
  | |- wp (ret _) _ _ => apply wp_ret
  | |- wp (assign _ _) _ _ => apply wp_assign
  | |- wp (paint _) _ _ => apply wp_paint
  | |- wp (attr _) _ _ =>
      eapply wp_attr; [reduce_world; first [reflexivity | eassumption]|]
  | |- wp (uniform _ _) _ _ =>
      apply wp_uniform; [assumption|]; let r := fresh "r" in
      let Hr := fresh "Hr" in intros r Hr
  | |- wp random_sign _ _ =>
      apply wp_random_sign; [assumption|]; let s := fresh "s" in
      let Hs := fresh "Hs" in intros s Hs
  end; cbv beta; clean_world.

Ltac wp_steps := repeat wp_step.

Lemma Plant_generate_wp w m Q :
  rng_ok (random_state w) ->
  maxAge (self w) = Some m ->
  (forall dc, 0.9 <= dc <= 1 ->
     Q tt (mkWorld
             (assign_deficit_coefficient dc
                (assign_age_coefficient ((m + 1) / 2) (self w)))
             (advance (random_state w)) (painter w))) ->
  wp Plant_generate Q w.
Proof.
  intros Hg Hm H. unfold Plant_generate. apply wp_bind.
  unfold wp at 1, maxAge_number. rewrite Hm.
  wp_steps. apply H. apply uniform_range; lra.
Qed.

(** What [Plant.generate] and the [generate] of each class assign. *)
Definition Plant_generated (m dc : R) (p : plant) : plant :=
  assign_deficit_coefficient dc (assign_age_coefficient ((m + 1) / 2) p).

Definition Flower_generated (xc : R) (ls : list (R * R * R)) (sw : R)
    (p : plant) : plant :=
  assign_stem_width sw
    (assign_leafs ls
       (assign_leaf_size (Lscaled 7)
          (assign_y_position (Lscaled 2.5)
             (assign_x_position (Lx_position xc) p)))).

Definition CircularFlower_generated (c : QColor) (n : Z) (k : R) (f : pellet)
    (p : plant) : plant :=
  let p' :=
    assign_pellet_drawing_function f
      (assign_center_pellet_smaller_coefficient k
         (assign_pellet_size (Lscaled 9)
            (assign_number_of_pellets n (assign_color c p)))) in
  if existsb (pellet_eqb f) [dip_pellet; round_pellet]
  then assign_number_of_pellets 5%Z p'
  else p'.

Definition Tree_generated (bs : list (R * R)) (p : plant) : plant :=
  assign_branch_height (Lscaled 2.7)
    (assign_branch_width (Lscaled 18)
       (assign_base_height (Lscaled 1.7)
          (assign_base_width (Lscaled 15) (assign_branches bs p)))).

Definition GreenTree_generated (p : plant) : plant :=
  assign_offset Loffset
    (assign_green_height (Lscaled 1.5)
       (assign_green_width (Lscaled 3.2) p)).

Definition DoubleGreenTree_generated (p : plant) : plant :=
  assign_second_green_height (Lscaled 2.4)
    (assign_second_green_width (Lscaled 3.5) p).

(** A branch as [Tree.generateBranches] makes it. *)
Definition branch_ok (dc : R) (b : R * R) : Prop :=
  dc * 0.45 <= fst b <= dc * 0.55 /\
  exists s u, (s = -1 \/ s = 1) /\ 0.4 <= u <= 0.6 /\ snd b = s * acos u.

Lemma Flower_generate_wp w m Q :
  rng_ok (random_state w) ->
  maxAge (self w) = Some m ->
  (forall g' dc xc l1 l2 sw,
     rng_ok g' -> 0.9 <= dc <= 1 ->
     Q tt (mkWorld
             (Flower_generated xc [l1; l2] sw (Plant_generated m dc (self w)))
             g' (painter w))) ->
  wp Flower_generate Q w.
Proof.
  intros Hg Hm H. unfold Flower_generate. apply wp_bind.
  eapply Plant_generate_wp; [exact Hg | exact Hm |]. intros dc Hdc.
  wp_steps. unfold Flower_generateLeafs. rewrite range_2.
  cbn [comprehension]. change (2 =? 2)%Z with true. cbv iota.
  wp_steps. eapply H; [exact Hg | exact Hdc].
Qed.

Lemma CircularFlower_generate_wp w m Q :
  rng_ok (random_state w) ->
  maxAge (self w) = Some m ->
  (forall g' dc xc l1 l2 sw c n k f,
     rng_ok g' -> 0.9 <= dc <= 1 -> (5 <= n <= 7)%Z ->
     Q tt (mkWorld
             (CircularFlower_generated c n k f
                (Flower_generated xc [l1; l2] sw
                   (Plant_generated m dc (self w))))
             g' (painter w))) ->
  wp CircularFlower_generate Q w.
Proof.
  intros Hg Hm H. unfold CircularFlower_generate. apply wp_bind.
  eapply Flower_generate_wp; [exact Hg | exact Hm |].
  intros g1 dc xc l1 l2 sw Hg1 Hdc.
  apply wp_bind, wp_choice; [easy|]. intros c _.
  wp_steps. apply wp_randint; [lia|]. intros n Hn.
  wp_steps. apply wp_choice; [easy|]. intros f Hf.
  wp_steps.
  destruct f; cbn [existsb pellet_eqb orb]; wp_steps;
    lazymatch goal with
    | |- context [assign_pellet_drawing_function ?F] =>
        eapply (H _ dc xc l1 l2 sw c n _ F); [exact Hg1 | exact Hdc | exact Hn]
    end.
Qed.

Lemma py_round_1_2 u : 1 <= u <= 2 -> py_round u = 1%Z \/ py_round u = 2%Z.
Proof.
  intros Hu. unfold py_round.
  destruct (base_Int_part u) as [Hlo Hhi].
  pose proof (base_fp u) as [Hf0 Hf1].
  pose proof (Rplus_Int_part_frac_part u) as Hsplit.
  assert (H1 : (1 <= Int_part u)%Z).
  { apply Z.lt_pred_le, lt_IZR. cbn. lra. }
  assert (H2 : (Int_part u <= 2)%Z) by (apply le_IZR; lra).
  assert (Hc : Int_part u = 1%Z \/ Int_part u = 2%Z) by lia.
  destruct Hc as [E|E]; rewrite E in *; cbn [Z.even Z.add Pos.add].
  - destruct (Rlt_dec (frac_part u) (1 / 2)); [now left|].
    destruct (Rlt_dec (1 / 2) (frac_part u)); now right.
  - destruct (Rlt_dec (frac_part u) (1 / 2)); [now right|]. exfalso. lra.
Qed.

Lemma In_range_2 i : In i (range 2) -> i = 0%Z \/ i = 1%Z.
Proof. rewrite range_2. cbn. intuition. Qed.

Lemma Tree_generateBranches_wp count w dc Q :
  rng_ok (random_state w) ->
  deficit_coefficient (self w) = Some dc ->
  0 <= dc ->
  (forall g' bs,
     rng_ok g' -> length bs = Z.to_nat count -> Forall (branch_ok dc) bs ->
     Q tt (mkWorld (assign_branches bs (self w)) g' (painter w))) ->
  wp (Tree_generateBranches count) Q w.
Proof.
  intros Hg Hdc Hdc0 H. unfold Tree_generateBranches. apply wp_bind.
  eapply wp_mono;
    [|apply (wp_comprehension
               (fun w' => rng_ok (random_state w') /\ self w' = self w /\
                          painter w' = painter w)
               (fun (i : Z) b => branch_ok dc b));
      [|split; [exact Hg | split; reflexivity]]].
  - intros bs w' [(Hg' & Hs & Hp) Hbs]. cbv beta. apply wp_assign.
    rewrite Hs, Hp. apply H; [exact Hg'| |].
    + rewrite <- (Forall2_length Hbs). apply range_length.
    + clear -Hbs. induction Hbs; constructor; assumption.
  - intros i w1 Hi (Hg1 & Hs1 & Hp1).
    assert (Hd1 : deficit_coefficient (self w1) = Some dc) by now rewrite Hs1.
    wp_steps.
    assert (Hsign : forall s, s = -1 \/ s = 1 -> forall w2,
              rng_ok (random_state w2) -> self w2 = self w ->
              painter w2 = painter w ->
              dc * 0.45 <= dc * 0.45 + (dc * 0.55 - dc * 0.45) * r
                <= dc * 0.55 ->
              wp (u <- uniform 0.4 0.6;;
                  t <- py_acos u;;
                  ret (dc * 0.45 + (dc * 0.55 - dc * 0.45) * r, s * t))
                 (fun b w' =>
                    (rng_ok (random_state w') /\ self w' = self w /\
                     painter w' = painter w) /\ branch_ok dc b) w2).
    { intros s Hs w2 Hg2 Hs2 Hp2 Hpos. wp_steps.
      pose proof (uniform_range 0.4 0.6 r0 ltac:(lra) Hr0) as Hu.
      apply wp_py_acos; [lra|]. wp_steps.
      split; [split; [exact Hg2 | split; assumption]|].
      split; [exact Hpos|].
      exists s, (0.4 + (0.6 - 0.4) * r0). cbn [snd]. auto. }
    pose proof (uniform_range (dc * 0.45) (dc * 0.55) r ltac:(lra) Hr).
    destruct (Z.eqb_spec count 2) as [->|Hne].
    + wp_step. apply Hsign; try assumption.
      destruct (In_range_2 _ Hi) as [-> | ->]; [left|right]; lra.
    + wp_step. apply Hsign; assumption.
Qed.

Lemma Tree_generate_wp w m Q :
  rng_ok (random_state w) ->
  maxAge (self w) = Some m ->
  (forall g' dc bs,
     rng_ok g' -> 0.9 <= dc <= 1 -> Forall (branch_ok dc) bs ->
     (0 <= m <= 1 -> length bs = 1%nat \/ length bs = 2%nat) ->
     Q tt (mkWorld (Tree_generated bs (Plant_generated m dc (self w)))
             g' (painter w))) ->
  wp Tree_generate Q w.
Proof.
  intros Hg Hm H. unfold Tree_generate. apply wp_bind.
  eapply Plant_generate_wp; [exact Hg | exact Hm |]. intros dc Hdc.
  wp_steps.
  eapply Tree_generateBranches_wp;
    [exact Hg | reduce_world; reflexivity | lra |].
  intros g1 bs Hg1 Hlen Hbs. wp_steps.
  apply (H g1 dc bs Hg1 Hdc Hbs). intros Hm01. rewrite Hlen.
  destruct (py_round_1_2 (1 + (2 * ((m + 1) / 2) - 1) * r)) as [-> | ->];
    [nra | now left | now right].
Qed.

Lemma OrangeTree_generate_wp w m Q :
  rng_ok (random_state w) ->
  maxAge (self w) = Some m ->
  (forall g' dc bs0 b1 b2 c1 c2 c3,
     rng_ok g' -> 0.9 <= dc <= 1 -> Forall (branch_ok dc) [b1; b2] ->
     Q tt (mkWorld
             (assign_branch_circles [c1; c2; c3]
                (assign_branches [b1; b2]
                   (Tree_generated bs0 (Plant_generated m dc (self w)))))
             g' (painter w))) ->
  wp OrangeTree_generate Q w.
Proof.
  intros Hg Hm H. unfold OrangeTree_generate. apply wp_bind.
  eapply Tree_generate_wp; [exact Hg | exact Hm |].
  intros g1 dc bs0 Hg1 Hdc _ _. apply wp_bind.
  eapply Tree_generateBranches_wp;
    [exact Hg1 | reduce_world; reflexivity | lra |].
  intros g2 bs Hg2 Hlen Hbs.
  destruct bs as [|b1 [|b2 [|b3 bs]]]; try discriminate Hlen.
  wp_steps.
  change (range (Z.of_nat (length [b1; b2]) + 1)) with [0%Z; 1%Z; 2%Z].
  cbn [comprehension]. wp_steps.
  eapply H; [exact Hg2 | exact Hdc | exact Hbs].
Qed.

Lemma GreenTree_generate_wp w m Q :
  rng_ok (random_state w) ->
  maxAge (self w) = Some m ->
  (forall g' dc bs,
     rng_ok g' -> 0.9 <= dc <= 1 -> Forall (branch_ok dc) bs ->
     Q tt (mkWorld
             (GreenTree_generated
                (Tree_generated bs (Plant_generated m dc (self w))))
             g' (painter w))) ->
  wp GreenTree_generate Q w.
Proof.
  intros Hg Hm H. unfold GreenTree_generate. apply wp_bind.
  eapply Tree_generate_wp; [exact Hg | exact Hm |].
  intros g1 dc bs Hg1 Hdc Hbs _. wp_steps.
  apply (H g1 dc bs Hg1 Hdc Hbs).
Qed.

Lemma DoubleGreenTree_generate_wp w m Q :
  rng_ok (random_state w) ->
  maxAge (self w) = Some m ->
  (forall g' dc bs,
     rng_ok g' -> 0.9 <= dc <= 1 -> Forall (branch_ok dc) bs ->
     Q tt (mkWorld
             (DoubleGreenTree_generated
                (GreenTree_generated
                   (Tree_generated bs (Plant_generated m dc (self w)))))
             g' (painter w))) ->
  wp DoubleGreenTree_generate Q w.
Proof.
  intros Hg Hm H. unfold DoubleGreenTree_generate. apply wp_bind.
  eapply GreenTree_generate_wp; [exact Hg | exact Hm |].
  intros g1 dc bs Hg1 Hdc Hbs. wp_steps.
  apply (H g1 dc bs Hg1 Hdc Hbs).
Qed.

(** ** What the drawing routines paint *)

Lemma wp_self_age Q w : Q (age (self w)) w -> wp self_age Q w.
Proof. exact (fun H => H). Qed.

Lemma wp_py_div a b Q w : b <> 0 -> Q (a / b) w -> wp (py_div a b) Q w.
Proof. intros Hb H. unfold py_div. now destruct (Req_dec_T b 0). Qed.

Lemma wp_call_lambda_x c v Q w :
  Q (v / 9 * c) w -> wp (call_lambda (Lx_position c) v) Q w.
Proof. exact (fun H => H). Qed.

Lemma wp_call_lambda_scaled d v dc ac Q w :
  deficit_coefficient (self w) = Some dc ->
  age_coefficient (self w) = Some ac ->
  Q (v / d * dc * ac) w -> wp (call_lambda (Lscaled d) v) Q w.
Proof.
  intros Hdc Hac H. cbn [call_lambda]. apply wp_bind.
  eapply wp_attr; [exact Hdc|]. apply wp_bind.
  eapply wp_attr; [exact Hac|]. exact H.
Qed.

(** A loop whose body only paints. *)
Lemma wp_for_paint {A} (l : list A) (body : A -> M unit)
    (calls : A -> list (call R)) p g :
  (forall v tr, In v l ->
     wp (body v) (fun _ w' => w' = mkWorld p g (tr ++ calls v))
        (mkWorld p g tr)) ->
  forall tr (Q : unit -> world -> Prop),
    Q tt (mkWorld p g (tr ++ flat_map calls l)) ->
    wp (for_ l body) Q (mkWorld p g tr).
Proof.
  induction l as [|v l IH]; intros Hbody tr Q HQ.
  - cbn [flat_map] in HQ. rewrite app_nil_r in HQ. exact HQ.
  - cbn [for_]. apply wp_bind.
    eapply wp_mono; [|apply Hbody; now left].
    intros u w1 ->. apply IH; [intros v' tr' Hin; apply Hbody; now right|].
    cbn [flat_map] in HQ. rewrite app_assoc in HQ. exact HQ.
Qed.

(** Steps of a drawing routine: attributes are read through the hypotheses
    on the plant, lambdas are called, the painter is called. *)
Ltac attr_read :=
  first [ eassumption
        | reduce_world; first [reflexivity | eassumption] ].

Ltac draw_step :=
  lazymatch goal with
  | |- wp (bind _ _) _ _ => apply wp_bind
  | |- wp (ret _) _ _ => apply wp_ret
  | |- wp (assign _ _) _ _ => apply wp_assign
  | |- wp (paint _) _ _ => apply wp_paint
  | |- wp self_age _ _ => apply wp_self_age
  | |- wp get_adjusted_age _ _ => unfold get_adjusted_age
  | |- wp (invoke _ _) _ _ => unfold invoke
  | |- wp (attr _) _ _ => eapply wp_attr; [attr_read|]
  | |- wp (call_lambda (Lx_position _) _) _ _ => apply wp_call_lambda_x
  | |- wp (call_lambda (Lscaled _) _) _ _ =>
      eapply wp_call_lambda_scaled; [attr_read | attr_read |]
  end; cbv beta; clean_world.

Ltac draw_steps := repeat draw_step.

(** The calls of one leaf; [sx], [sy] are [self.x], [self.y] and [ls] the
    size of the leaf. *)
Definition leaf_calls (path : QPainterPath R) (sx sy ls : R)
    (position rotation : R) : list (call R) :=
  [Save; TranslateTo path position; Rotate (degrees rotation)]
  ++ (if Req_dec_T sy 0 then [] else [Rotate (- degrees (sin (sx / sy)))])
  ++ (if Rlt_dec rotation 0 then [Scale (-1) 1] else [])
  ++ [SetBrush green_color; SetPen (QPen_style 0);
      DrawPath [setFillRule_WindingFill;
                quadTo (0.4 * ls) (0.5 * ls) 0 ls;
                cubicTo 0 (0.5 * ls) (-0.4 * ls) (0.4 * ls) 0 0];
      Restore].

(** The calls of [Flower._draw] on a plant of age [a] whose generated
    parameters are [xc], [dc], [ac], [sw] and [ls]. *)
Definition Flower_x (xc a : R) (width : Z) : R :=
  IZR width / 9 * xc * smoothen_curve a.

Definition Flower_y (dc ac a : R) (height : Z) : R :=
  IZR height / 2.5 * dc * ac * smoothen_curve a.

Definition Flower_stem (xc dc ac a : R) (width height : Z)
    : QPainterPath R :=
  [quadTo 0 (Flower_y dc ac a height * 0.6)
          (Flower_x xc a width) (Flower_y dc ac a height)].

Definition Flower_calls (xc dc ac sw a : R) (ls : list (R * R * R))
    (width height : Z) : list (call R) :=
  [SetPen (QPen_color green_color (sw * smoothen_curve a));
   DrawPath (Flower_stem xc dc ac a width height)]
  ++ flat_map (fun leaf : R * R * R =>
       let '(position, coefficient, rotation) := leaf in
       leaf_calls (Flower_stem xc dc ac a width height)
         (Flower_x xc a width) (Flower_y dc ac a height)
         (IZR width / 7 * dc * ac * smoothen_curve a ^ 2 * coefficient)
         position rotation) ls.

Lemma Flower_draw_leaf_wp p g tr width path sx sy dc ac leaf :
  x p = Some sx -> y p = Some sy ->
  leaf_size p = Some (Lscaled 7) ->
  deficit_coefficient p = Some dc -> age_coefficient p = Some ac ->
  wp (Flower_draw_leaf width path leaf)
     (fun _ w' =>
        w' = mkWorld p g
               (tr ++ leaf_calls path sx sy
                        (IZR width / 7 * dc * ac * smoothen_curve (age p) ^ 2
                         * snd (fst leaf))
                        (fst (fst leaf)) (snd leaf)))
     (mkWorld p g tr).
Proof.
  intros Hx Hy Hl Hdc Hac. destruct leaf as [[position coefficient] rotation].
  unfold Flower_draw_leaf, leaf_calls. cbn [fst snd]. draw_steps.
  destruct (Req_dec_T sy 0) as [E|E].
  - draw_steps. destruct (Rlt_dec rotation 0); unfold Flower_leaf_ls;
      draw_steps; rewrite <- !app_assoc; reflexivity.
  - draw_steps. apply wp_py_div; [exact E|].
    draw_steps. destruct (Rlt_dec rotation 0); unfold Flower_leaf_ls;
      draw_steps; rewrite <- !app_assoc; reflexivity.
Qed.

Lemma Flower__draw_wp p g tr width height xc dc ac sw ls Q :
  x_position p = Some (Lx_position xc) ->
  y_position p = Some (Lscaled 2.5) ->
  leaf_size p = Some (Lscaled 7) ->
  deficit_coefficient p = Some dc -> age_coefficient p = Some ac ->
  stem_width p = Some sw -> leafs p = Some ls ->
  Q tt (mkWorld
          (assign_y (Flower_y dc ac (age p) height)
             (assign_x (Flower_x xc (age p) width) p))
          g (tr ++ Flower_calls xc dc ac sw (age p) ls width height)) ->
  wp (Flower__draw width height) Q (mkWorld p g tr).
Proof.
  intros Hxp Hyp Hl Hdc Hac Hsw Hls HQ. unfold Flower__draw. draw_steps.
  eapply wp_for_paint.
  - intros leaf tr' _. eapply wp_mono;
      [|eapply (Flower_draw_leaf_wp _ _ _ _ _ _ _ dc ac); reflexivity
         || eassumption].
    intros u w' ->. reflexivity.
  - revert HQ. unfold Flower_calls, Flower_stem, Flower_x, Flower_y.
    rewrite <- !app_assoc. cbn [app].
    match goal with
    | |- Q tt (mkWorld _ _ (tr ++ _ :: _ :: ?l1)) ->
         Q tt (mkWorld _ _ (tr ++ _ :: _ :: ?l2)) =>
        replace l1 with l2; [exact (fun H => H)|]
    end.
    apply flat_map_ext. intros [[position coefficient] rotation].
    reflexivity.
Qed.

(** The call made by one of the pellet methods. *)
Definition pellet_call (f : pellet) (pellet_size : R) : call R :=
  match f with
  | circular_pellet => DrawEllipseRect 0 0 pellet_size pellet_size
  | triangle_pellet =>
      let pellet_size := pellet_size * 1.5 in
      DrawPath [setFillRule_WindingFill;
                quadTo (0.9 * pellet_size) (0.5 * pellet_size) 0 pellet_size;
                quadTo (-0.5 * pellet_size) (0.4 * pellet_size) 0 0]
  | dip_pellet =>
      let pellet_size := pellet_size * 1.2 in
      DrawPath [setFillRule_WindingFill;
                quadTo (1 * pellet_size) (pellet_size * 1.4) 0 pellet_size;
                quadTo (-1 * pellet_size) (pellet_size * 1.4) 0 0]
  | round_pellet =>
      let pellet_size := pellet_size * 1.3 in
      DrawPath [setFillRule_WindingFill;
                quadTo (1 * pellet_size * 0.8) (pellet_size * 0.9) 0
                       pellet_size;
                quadTo (-1 * pellet_size * 0.8) (pellet_size * 0.9) 0 0]
  end.

Lemma call_pellet_paint f pellet_size :
  call_pellet f pellet_size = paint (pellet_call f pellet_size).
Proof. destruct f; reflexivity. Qed.

(** The calls that [CircularFlower._draw] adds to those of [Flower._draw]. *)
Definition CircularFlower_head_calls (c : QColor) (n : Z) (k : R) (f : pellet)
    (sx sy pellet_size : R) : list (call R) :=
  [Save; Translate sx sy; SetPen (QPen_style Qt_NoPen); SetBrush c]
  ++ flat_map (fun _ : Z =>
                 [pellet_call f pellet_size; Rotate (360 / IZR n)])
              (range n)
  ++ [SetBrush white_color;
      DrawEllipseRect (- (pellet_size * k) / 2) (- (pellet_size * k) / 2)
                      (pellet_size * k) (pellet_size * k);
      Restore].

Definition CircularFlower_calls (xc dc ac sw a : R) (ls : list (R * R * R))
    (c : QColor) (n : Z) (k : R) (f : pellet) (width height : Z)
    : list (call R) :=
  Flower_calls xc dc ac sw a ls width height
  ++ CircularFlower_head_calls c n k f
       (Flower_x xc a width) (Flower_y dc ac a height)
       (IZR width / 9 * dc * ac * smoothen_curve a).

Lemma In_range i n : In i (range n) -> (0 <= i < n)%Z.
Proof.
  unfold range. rewrite in_map_iff. intros (k & <- & Hk).
  apply in_seq in Hk. lia.
Qed.

Lemma CircularFlower__draw_wp p g tr width height xc dc ac sw ls c n k f Q :
  x_position p = Some (Lx_position xc) ->
  y_position p = Some (Lscaled 2.5) ->
  leaf_size p = Some (Lscaled 7) ->
  deficit_coefficient p = Some dc -> age_coefficient p = Some ac ->
  stem_width p = Some sw -> leafs p = Some ls ->
  color p = Some c -> number_of_pellets p = Some n ->
  pellet_size p = Some (Lscaled 9) ->
  center_pellet_smaller_coefficient p = Some k ->
  pellet_drawing_function p = Some f ->
  Q tt (mkWorld
          (assign_y (Flower_y dc ac (age p) height)
             (assign_x (Flower_x xc (age p) width) p))
          g (tr ++ CircularFlower_calls xc dc ac sw (age p) ls c n k f
                     width height)) ->
  wp (CircularFlower__draw width height) Q (mkWorld p g tr).
Proof.
  intros Hxp Hyp Hl Hdc Hac Hsw Hls Hc Hn Hps Hk Hf HQ.
  unfold CircularFlower__draw. apply wp_bind.
  eapply Flower__draw_wp; try eassumption.
  draw_steps. reduce_world.
  eapply wp_for_paint.
  - intros i tr' Hi. draw_steps. rewrite call_pellet_paint. draw_steps.
    apply wp_py_div.
    + apply In_range in Hi. apply not_0_IZR. lia.
    + draw_steps. rewrite <- app_assoc. reflexivity.
  - draw_steps. revert HQ.
    unfold CircularFlower_calls, CircularFlower_head_calls.
    rewrite <- !app_assoc. exact (fun H => H).
Qed.

(** The calls of one branch of a tree; [s] and [s2] are the smoothed age and
    the smoothed adjusted age. *)
Definition branch_calls (dc ac s s2 : R) (width height : Z) (branch : R * R)
    : list (call R) :=
  let '(h, rotation) := branch in
  [Save;
   Translate 0 (IZR height * h * s / 1.7 * dc * ac);
   Rotate (degrees rotation);
   DrawPolygon [(- (IZR width / 18 * dc * ac) * s2 * (1 - h), 0);
                (IZR width / 18 * dc * ac * s2 * (1 - h), 0);
                (0, IZR height / 2.7 * dc * ac * s2 * (1 - h))];
   Restore].

(** The calls of [Tree._draw]. *)
Definition Tree_calls (dc ac a : R) (bs : list (R * R)) (width height : Z)
    : list (call R) :=
  [SetBrush brown_color;
   DrawPolygon [(- (IZR width / 15 * dc * ac) * smoothen_curve a, 0);
                (IZR width / 15 * dc * ac * smoothen_curve a, 0);
                (0, IZR height / 1.7 * dc * ac * smoothen_curve a)]]
  ++ flat_map (branch_calls dc ac (smoothen_curve a) (smoothen_curve (a ^ 2))
                 width height) bs.

Lemma Tree__draw_wp p g tr width height dc ac bs Q :
  deficit_coefficient p = Some dc -> age_coefficient p = Some ac ->
  branches p = Some bs ->
  base_width p = Some (Lscaled 15) -> base_height p = Some (Lscaled 1.7) ->
  branch_width p = Some (Lscaled 18) ->
  branch_height p = Some (Lscaled 2.7) ->
  Q tt (mkWorld p g (tr ++ Tree_calls dc ac (age p) bs width height)) ->
  wp (Tree__draw width height) Q (mkWorld p g tr).
Proof.
  intros Hdc Hac Hbs Hbw Hbh Hrw Hrh HQ. unfold Tree__draw. draw_steps.
  eapply (wp_for_paint _ _
            (branch_calls dc ac (smoothen_curve (age p))
               (smoothen_curve (age p ^ 2)) width height)).
  - intros [h rotation] tr' _. unfold Tree_draw_branch. draw_steps.
    rewrite <- !app_assoc. reflexivity.
  - revert HQ. unfold Tree_calls. rewrite <- !app_assoc.
    exact (fun H => H).
Qed.

(** The calls of one fruit of an orange tree, on the branch [branch] with
    the circle [c]. *)
Definition fruit_calls (dc ac s s2 : R) (width height : Z) (branch c : R * R)
    : list (call R) :=
  let '(h, rotation) := branch in
  [Save;
   Translate 0 (IZR height * h * s / 1.7 * dc * ac);
   Rotate (degrees rotation);
   SetBrush orange_color;
   DrawEllipseAt 0 (IZR height / 2.7 * dc * ac * s2 * (1 - h) * snd c)
     (IZR (width + height) / 2 * fst c * s2 * (1 - h) * ac)
     (IZR (width + height) / 2 * fst c * s2 * (1 - h) * ac);
   Restore].

(** The calls of [OrangeTree._draw] before [Tree._draw]. *)
Definition OrangeTree_head_calls (dc ac a : R) (b1 b2 c1 c2 c3 : R * R)
    (width height : Z) : list (call R) :=
  [SetPen (QPen_style Qt_NoPen); SetBrush orange_color]
  ++ fruit_calls dc ac (smoothen_curve a) (smoothen_curve (a ^ 2))
       width height b1 c1
  ++ fruit_calls dc ac (smoothen_curve a) (smoothen_curve (a ^ 2))
       width height b2 c2
  ++ [DrawEllipseAt 0
        (IZR height / 1.7 * dc * ac * smoothen_curve a * snd c3)
        (IZR (width + height) / 2 * fst c3 * smoothen_curve (a ^ 2)
         * (1 - fst b2) * ac * 1.3)
        (IZR (width + height) / 2 * fst c3 * smoothen_curve (a ^ 2)
         * (1 - fst b2) * ac * 1.3)].

Definition OrangeTree_calls (dc ac a : R) (b1 b2 c1 c2 c3 : R * R)
    (width height : Z) : list (call R) :=
  OrangeTree_head_calls dc ac a b1 b2 c1 c2 c3 width height
  ++ Tree_calls dc ac a [b1; b2] width height.

Lemma OrangeTree__draw_wp p g tr width height dc ac b1 b2 c1 c2 c3 Q :
  deficit_coefficient p = Some dc -> age_coefficient p = Some ac ->
  branches p = Some [b1; b2] ->
  branch_circles p = Some [c1; c2; c3] ->
  base_width p = Some (Lscaled 15) -> base_height p = Some (Lscaled 1.7) ->
  branch_width p = Some (Lscaled 18) ->
  branch_height p = Some (Lscaled 2.7) ->
  Q tt (mkWorld p g
          (tr ++ OrangeTree_calls dc ac (age p) b1 b2 c1 c2 c3
                   width height)) ->
  wp (OrangeTree__draw width height) Q (mkWorld p g tr).
Proof.
  intros Hdc Hac Hbs Hbc Hbw Hbh Hrw Hrh HQ.
  unfold OrangeTree__draw, OrangeTree_draw_fruits.
  destruct b1 as [h1 r1], b2 as [h2 r2]. draw_steps.
  cbn [enumerate combine seq length for_]. unfold OrangeTree_draw_fruit.
  draw_steps. cbn [subscript nth_error]. draw_steps.
  cbn [subscript nth_error]. draw_steps.
  cbn [subscript nth_error]. draw_steps.
  cbn [subscript nth_error]. draw_steps.
  cbn [subscript_last rev app]. draw_steps.
  cbn [subscript_last rev app]. draw_steps.
  cbn [map last option_map fst local]. draw_steps.
  eapply Tree__draw_wp; try eassumption.
  revert HQ. unfold OrangeTree_calls, OrangeTree_head_calls, fruit_calls.
  cbn [fst snd]. rewrite <- !app_assoc. exact (fun H => H).
Qed.

(** The offset of the canopy of a green tree, [self.offset(height)]. *)
Definition GreenTree_offset (dc ac a : R) (height : Z) : R :=
  Rmin (IZR height * 0.95)
       (IZR height * 0.3 * smoothen_curve a / 1.7 * dc * ac).

(** The calls of [GreenTree._draw] before [Tree._draw]. *)
Definition GreenTree_head_calls (dc ac a : R) (width height : Z)
    : list (call R) :=
  [SetPen (QPen_style Qt_NoPen); SetBrush green_color;
   DrawPolygon
     [(- (IZR width / 3.2 * dc * ac) * smoothen_curve a,
       GreenTree_offset dc ac a height);
      (IZR width / 3.2 * dc * ac * smoothen_curve a,
       GreenTree_offset dc ac a height);
      (0, IZR height / 1.5 * dc * ac * smoothen_curve a
          + GreenTree_offset dc ac a height)]].

Definition GreenTree_calls (dc ac a : R) (bs : list (R * R))
    (width height : Z) : list (call R) :=
  GreenTree_head_calls dc ac a width height
  ++ Tree_calls dc ac a bs width height.

Lemma wp_invoke_offset p g tr height dc ac Q :
  offset p = Some Loffset ->
  base_height p = Some (Lscaled 1.7) ->
  deficit_coefficient p = Some dc -> age_coefficient p = Some ac ->
  Q (GreenTree_offset dc ac (age p) height) (mkWorld p g tr) ->
  wp (invoke_offset (IZR height)) Q (mkWorld p g tr).
Proof.
  intros Ho Hbh Hdc Hac HQ. unfold invoke_offset. draw_step.
  eapply wp_attr; [exact Ho|]. cbv beta iota. draw_steps. exact HQ.
Qed.

Lemma GreenTree__draw_wp p g tr width height dc ac bs Q :
  deficit_coefficient p = Some dc -> age_coefficient p = Some ac ->
  branches p = Some bs ->
  base_width p = Some (Lscaled 15) -> base_height p = Some (Lscaled 1.7) ->
  branch_width p = Some (Lscaled 18) ->
  branch_height p = Some (Lscaled 2.7) ->
  green_width p = Some (Lscaled 3.2) ->
  green_height p = Some (Lscaled 1.5) ->
  offset p = Some Loffset ->
  Q tt (mkWorld p g (tr ++ GreenTree_calls dc ac (age p) bs width height)) ->
  wp (GreenTree__draw width height) Q (mkWorld p g tr).
Proof.
  intros Hdc Hac Hbs Hbw Hbh Hrw Hrh Hgw Hgh Ho HQ.
  unfold GreenTree__draw, GreenTree_draw_canopy. draw_steps.
  eapply wp_invoke_offset; try eassumption. draw_steps.
  eapply wp_invoke_offset; try eassumption. draw_steps.
  eapply wp_invoke_offset; try eassumption. draw_steps.
  eapply Tree__draw_wp; try eassumption.
  revert HQ. unfold GreenTree_calls, GreenTree_head_calls.
  rewrite <- !app_assoc. exact (fun H => H).
Qed.

(** The calls of [DoubleGreenTree._draw] before [GreenTree._draw]. *)
Definition DoubleGreenTree_head_calls (dc ac a : R) (width height : Z)
    : list (call R) :=
  let s := smoothen_curve a in
  let offset := IZR height * 0.3 * s / 1.7 * dc * ac in
  let second_offset :=
    (IZR height / 1.5 * dc * ac - IZR height / 2.4 * dc * ac) * s in
  [SetPen (QPen_style Qt_NoPen); SetBrush green_color;
   DrawPolygon
     [(- (IZR width / 3.5 * dc * ac) * s ^ 2, offset + second_offset);
      (IZR width / 3.5 * dc * ac * s ^ 2, offset + second_offset);
      (0, Rmin (IZR height / 2.4 * dc * ac * s + offset + second_offset)
               (IZR height * 0.95))]].

Definition DoubleGreenTree_calls (dc ac a : R) (bs : list (R * R))
    (width height : Z) : list (call R) :=
  DoubleGreenTree_head_calls dc ac a width height
  ++ GreenTree_calls dc ac a bs width height.

Lemma DoubleGreenTree__draw_wp p g tr width height dc ac bs Q :
  deficit_coefficient p = Some dc -> age_coefficient p = Some ac ->
  branches p = Some bs ->
  base_width p = Some (Lscaled 15) -> base_height p = Some (Lscaled 1.7) ->
  branch_width p = Some (Lscaled 18) ->
  branch_height p = Some (Lscaled 2.7) ->
  green_width p = Some (Lscaled 3.2) ->
  green_height p = Some (Lscaled 1.5) ->
  offset p = Some Loffset ->
  second_green_width p = Some (Lscaled 3.5) ->
  second_green_height p = Some (Lscaled 2.4) ->
  Q tt (mkWorld p g
          (tr ++ DoubleGreenTree_calls dc ac (age p) bs width height)) ->
  wp (DoubleGreenTree__draw width height) Q (mkWorld p g tr).
Proof.
  intros Hdc Hac Hbs Hbw Hbh Hrw Hrh Hgw Hgh Ho Hsw Hsh HQ.
  unfold DoubleGreenTree__draw, DoubleGreenTree_draw_canopy. draw_steps.
  eapply GreenTree__draw_wp; try eassumption.
  revert HQ. unfold DoubleGreenTree_calls, DoubleGreenTree_head_calls.
  cbv zeta. rewrite <- !app_assoc. exact (fun H => H).
Qed.

(** ** Generated states *)

(** The parameters frozen by [generate], per class. [m] is [maxAge] and [dc]
    the deficit coefficient; the age coefficient is [(m + 1) / 2]. *)
Inductive params : Type :=
| Flower_params (m dc xc sw : R) (l1 l2 : R * R * R)
| CircularFlower_params (m dc xc sw : R) (l1 l2 : R * R * R)
    (c : QColor) (n : Z) (k : R) (f : pellet)
| Tree_params (m dc : R) (bs : list (R * R))
| OrangeTree_params (m dc : R) (b1 b2 c1 c2 c3 : R * R)
| GreenTree_params (m dc : R) (bs : list (R * R))
| DoubleGreenTree_params (m dc : R) (bs : list (R * R)).

Definition has_Plant (p : plant) (m dc : R) : Prop :=
  maxAge p = Some m /\ age_coefficient p = Some ((m + 1) / 2) /\
  deficit_coefficient p = Some dc /\ 0.9 <= dc <= 1.

Definition has_Flower (p : plant) (xc sw : R) (ls : list (R * R * R))
    : Prop :=
  x_position p = Some (Lx_position xc) /\
  y_position p = Some (Lscaled 2.5) /\
  leaf_size p = Some (Lscaled 7) /\
  leafs p = Some ls /\ stem_width p = Some sw.

Definition has_CircularFlower (p : plant) (c : QColor) (n : Z) (k : R)
    (f : pellet) : Prop :=
  color p = Some c /\ number_of_pellets p = Some n /\
  pellet_size p = Some (Lscaled 9) /\
  center_pellet_smaller_coefficient p = Some k /\
  pellet_drawing_function p = Some f /\
  (5 <= n <= 7)%Z /\ (f = dip_pellet \/ f = round_pellet -> n = 5%Z).

Definition has_Tree (p : plant) (dc : R) (bs : list (R * R)) : Prop :=
  branches p = Some bs /\
  base_width p = Some (Lscaled 15) /\ base_height p = Some (Lscaled 1.7) /\
  branch_width p = Some (Lscaled 18) /\
  branch_height p = Some (Lscaled 2.7) /\
  Forall (branch_ok dc) bs.

Definition has_GreenTree (p : plant) : Prop :=
  green_width p = Some (Lscaled 3.2) /\
  green_height p = Some (Lscaled 1.5) /\
  offset p = Some Loffset.

Definition has_DoubleGreenTree (p : plant) : Prop :=
  second_green_width p = Some (Lscaled 3.5) /\
  second_green_height p = Some (Lscaled 2.4).

(** [has_params p P]: the plant [p] holds the generated parameters [P] of its
    class. The attributes [age], [x] and [y] are not constrained. *)
Definition has_params (p : plant) (P : params) : Prop :=
  match P with
  | Flower_params m dc xc sw l1 l2 =>
      class p = Flower /\ has_Plant p m dc /\ has_Flower p xc sw [l1; l2]
  | CircularFlower_params m dc xc sw l1 l2 c n k f =>
      class p = CircularFlower /\ has_Plant p m dc /\
      has_Flower p xc sw [l1; l2] /\ has_CircularFlower p c n k f
  | Tree_params m dc bs =>
      class p = Tree /\ has_Plant p m dc /\ has_Tree p dc bs
  | OrangeTree_params m dc b1 b2 c1 c2 c3 =>
      class p = OrangeTree /\ has_Plant p m dc /\ has_Tree p dc [b1; b2] /\
      branch_circles p = Some [c1; c2; c3]
  | GreenTree_params m dc bs =>
      class p = GreenTree /\ has_Plant p m dc /\ has_Tree p dc bs /\
      has_GreenTree p
  | DoubleGreenTree_params m dc bs =>
      class p = DoubleGreenTree /\ has_Plant p m dc /\ has_Tree p dc bs /\
      has_GreenTree p /\ has_DoubleGreenTree p
  end.

(** The calls of [self._draw(painter, width, height)] at age [a]. *)
Definition calls_of (P : params) (a : R) (width height : Z)
    : list (call R) :=
  match P with
  | Flower_params m dc xc sw l1 l2 =>
      Flower_calls xc dc ((m + 1) / 2) sw a [l1; l2] width height
  | CircularFlower_params m dc xc sw l1 l2 c n k f =>
      CircularFlower_calls xc dc ((m + 1) / 2) sw a [l1; l2] c n k f
        width height
  | Tree_params m dc bs => Tree_calls dc ((m + 1) / 2) a bs width height
  | OrangeTree_params m dc b1 b2 c1 c2 c3 =>
      OrangeTree_calls dc ((m + 1) / 2) a b1 b2 c1 c2 c3 width height
  | GreenTree_params m dc bs =>
      GreenTree_calls dc ((m + 1) / 2) a bs width height
  | DoubleGreenTree_params m dc bs =>
      DoubleGreenTree_calls dc ((m + 1) / 2) a bs width height
  end.

(** The plant after [self._draw(painter, width, height)]: the flowers keep
    the end of their stem in [self.x] and [self.y]. *)
Definition after__draw (P : params) (p : plant) (width height : Z) : plant :=
  match P with
  | Flower_params m dc xc _ _ _
  | CircularFlower_params m dc xc _ _ _ _ _ _ _ =>
      assign_y (Flower_y dc ((m + 1) / 2) (age p) height)
        (assign_x (Flower_x xc (age p) width) p)
  | _ => p
  end.

Lemma wp_same {A} (m m' : M A) Q w : m w = m' w -> wp m' Q w -> wp m Q w.
Proof. unfold wp. now intros ->. Qed.

Ltac split_params HP :=
  cbn [has_params] in HP;
  let Hc := fresh "Hc" in destruct HP as [Hc HP];
  unfold has_Plant, has_Flower, has_CircularFlower, has_Tree,
    has_GreenTree, has_DoubleGreenTree in HP;
  repeat match goal with
         | H : _ /\ _ |- _ => destruct H
         end.

Lemma _draw_wp p g tr width height P Q :
  has_params p P ->
  Q tt (mkWorld (after__draw P p width height) g
          (tr ++ calls_of P (age p) width height)) ->
  wp (_draw width height) Q (mkWorld p g tr).
Proof.
  intros HP HQ.
  destruct P; split_params HP; cbn [after__draw calls_of] in HQ.
  - apply (wp_same _ (Flower__draw width height));
      [unfold _draw; cbn [self]; now rewrite Hc|].
    eapply Flower__draw_wp; eassumption.
  - apply (wp_same _ (CircularFlower__draw width height));
      [unfold _draw; cbn [self]; now rewrite Hc|].
    eapply CircularFlower__draw_wp; eassumption.
  - apply (wp_same _ (Tree__draw width height));
      [unfold _draw; cbn [self]; now rewrite Hc|].
    eapply Tree__draw_wp; eassumption.
  - apply (wp_same _ (OrangeTree__draw width height));
      [unfold _draw; cbn [self]; now rewrite Hc|].
    eapply OrangeTree__draw_wp; eassumption.
  - apply (wp_same _ (GreenTree__draw width height));
      [unfold _draw; cbn [self]; now rewrite Hc|].
    eapply GreenTree__draw_wp; eassumption.
  - apply (wp_same _ (DoubleGreenTree__draw width height));
      [unfold _draw; cbn [self]; now rewrite Hc|].
    eapply DoubleGreenTree__draw_wp; eassumption.
Qed.

(** [draw] on a generated plant: the origin is moved, then [_draw] runs on
    the smaller side of the canvas. *)
Lemma draw_generated p g tr width height P :
  has_params p P ->
  draw width height (mkWorld p g tr) =
  Ok (tt,
      mkWorld
        (after__draw P p (Z.min width height) (Z.min width height)) g
        (tr ++ [Translate (IZR width / 2) (IZR height); Scale 1 (-1)]
            ++ calls_of P (age p) (Z.min width height)
                 (Z.min width height))).
Proof.
  intros HP.
  assert (Hm : exists m, maxAge p = Some m).
  { destruct P; cbn [has_params] in HP; unfold has_Plant in HP;
      eexists; apply HP. }
  destruct Hm as [m Hm].
  assert (W : wp (draw width height)
                (fun u w' =>
                   u = tt /\
                   w' = mkWorld
                     (after__draw P p (Z.min width height)
                        (Z.min width height)) g
                     (tr ++ [Translate (IZR width / 2) (IZR height);
                             Scale 1 (-1)]
                         ++ calls_of P (age p) (Z.min width height)
                              (Z.min width height)))
                (mkWorld p g tr)).
  { unfold wp at 1, draw. cbn [self]. rewrite Hm. cbv zeta.
    change (wp (paint (Translate (IZR width / 2) (IZR height));;
                paint (Scale 1 (-1));;
                _draw (Z.min width height) (Z.min width height))
              (fun u w' =>
                 u = tt /\
                 w' = mkWorld
                   (after__draw P p (Z.min width height)
                      (Z.min width height)) g
                   (tr ++ [Translate (IZR width / 2) (IZR height);
                           Scale 1 (-1)]
                       ++ calls_of P (age p) (Z.min width height)
                            (Z.min width height)))
              (mkWorld p g tr)).
    draw_steps. eapply _draw_wp; [exact HP|].
    split; [reflexivity|]. rewrite <- !app_assoc. reflexivity. }
  unfold wp in W. destruct (draw width height (mkWorld p g tr))
    as [[u w']|e]; [|contradiction].
  destruct W as [-> ->]. reflexivity.
Qed.

(** [draw] before any [set_max_age] returns at once. *)
Lemma draw_unset w width height :
  maxAge (self w) = None -> draw width height w = Ok (tt, w).
Proof. intros H. unfold draw. now rewrite H. Qed.

(** [generate] freezes a set of parameters, whatever the oracle yields, and
    touches neither the painter nor [age], [x] and [y]. *)
Definition generate_post (w : world) : unit -> world -> Prop :=
  fun _ w' =>
    rng_ok (random_state w') /\ painter w' = painter w /\
    age (self w') = age (self w) /\ class (self w') = class (self w) /\
    x (self w') = x (self w) /\ y (self w') = y (self w) /\
    maxAge (self w') = maxAge (self w) /\
    exists P, has_params (self w') P.

Ltac params_fields :=
  unfold Plant_generated, Flower_generated, CircularFlower_generated,
    Tree_generated, GreenTree_generated, DoubleGreenTree_generated;
  cbn [has_params];
  unfold has_Plant, has_Flower, has_CircularFlower, has_Tree,
    has_GreenTree, has_DoubleGreenTree;
  repeat match goal with
         | |- _ /\ _ => split
         end;
  try (reduce_world; first [reflexivity | eassumption | lra | lia]).

Lemma generate_wp w m :
  rng_ok (random_state w) ->
  maxAge (self w) = Some m ->
  wp generate (generate_post w) w.
Proof.
  intros Hg Hm. unfold generate_post.
  destruct (class (self w)) eqn:Hc.
  - apply (wp_same _ Flower_generate);
      [unfold generate; now rewrite Hc|].
    eapply Flower_generate_wp; [exact Hg | exact Hm |].
    intros g' dc xc l1 l2 sw Hg' Hdc. cbn [self random_state painter].
    repeat (split; [first [exact Hg' | reflexivity | exact Hm | exact Hc]|]).
    exists (Flower_params m dc xc sw l1 l2). params_fields.
  - apply (wp_same _ CircularFlower_generate);
      [unfold generate; now rewrite Hc|].
    eapply CircularFlower_generate_wp; [exact Hg | exact Hm |].
    intros g' dc xc l1 l2 sw c n k f Hg' Hdc Hn.
    cbn [self random_state painter].
    split; [exact Hg'|]. split; [reflexivity|].
    split; [now destruct f|]. split; [destruct f; exact Hc|].
    split; [now destruct f|]. split; [now destruct f|].
    split; [now destruct f|].
    exists (CircularFlower_params m dc xc sw l1 l2 c
              (if existsb (pellet_eqb f) [dip_pellet; round_pellet]
               then 5%Z else n) k f).
    destruct f; cbn [existsb pellet_eqb orb]; params_fields;
      intros [E|E]; first [discriminate E | reflexivity].
  - apply (wp_same _ Tree_generate);
      [unfold generate; now rewrite Hc|].
    eapply Tree_generate_wp; [exact Hg | exact Hm |].
    intros g' dc bs Hg' Hdc Hbs _. cbn [self random_state painter].
    repeat (split; [first [exact Hg' | reflexivity | exact Hm | exact Hc]|]).
    exists (Tree_params m dc bs). params_fields.
  - apply (wp_same _ OrangeTree_generate);
      [unfold generate; now rewrite Hc|].
    eapply OrangeTree_generate_wp; [exact Hg | exact Hm |].
    intros g' dc bs0 b1 b2 c1 c2 c3 Hg' Hdc Hbs.
    cbn [self random_state painter].
    repeat (split; [first [exact Hg' | reflexivity | exact Hm | exact Hc]|]).
    exists (OrangeTree_params m dc b1 b2 c1 c2 c3). params_fields.
  - apply (wp_same _ GreenTree_generate);
      [unfold generate; now rewrite Hc|].
    eapply GreenTree_generate_wp; [exact Hg | exact Hm |].
    intros g' dc bs Hg' Hdc Hbs. cbn [self random_state painter].
    repeat (split; [first [exact Hg' | reflexivity | exact Hm | exact Hc]|]).
    exists (GreenTree_params m dc bs). params_fields.
  - apply (wp_same _ DoubleGreenTree_generate);
      [unfold generate; now rewrite Hc|].
    eapply DoubleGreenTree_generate_wp; [exact Hg | exact Hm |].
    intros g' dc bs Hg' Hdc Hbs. cbn [self random_state painter].
    repeat (split; [first [exact Hg' | reflexivity | exact Hm | exact Hc]|]).
    exists (DoubleGreenTree_params m dc bs). params_fields.
Qed.

(** [has_params] does not look at [age], [x] and [y]. *)
Lemma has_params_assign_age a p P :
  has_params p P -> has_params (assign_age a p) P.
Proof. destruct P; exact (fun H => H). Qed.

Lemma has_params_assign_xy vx vy p P :
  has_params p P -> has_params (assign_y vy (assign_x vx p)) P.
Proof. destruct P; exact (fun H => H). Qed.

Lemma has_params_after__draw P p width height :
  has_params p P -> has_params (after__draw P p width height) P.
Proof. destruct P; exact (fun H => H). Qed.

Lemma has_params_maxAge p P : has_params p P -> maxAge p <> None.
Proof.
  intros HP. destruct P; cbn [has_params] in HP; unfold has_Plant in HP;
    destruct HP as (_ & (E & _) & _); now rewrite E.
Qed.

(** ** The states a host can reach

    A host constructs a plant, then calls [set_current_age], [set_max_age]
    and [draw] in any order and with any arguments; it may hand [draw]
    another painter. *)
Inductive method : Type :=
| Set_current_age (a : R)
| Set_max_age (m : R)
| Draw (width height : Z).

Definition call_method (c : method) : M unit :=
  match c with
  | Set_current_age a => set_current_age a
  | Set_max_age m => set_max_age m
  | Draw width height => draw width height
  end.

Inductive reachable : world -> Prop :=
| reachable_new c g tr :
    rng_ok g -> reachable (mkWorld (new_plant c) g tr)
| reachable_call w c w' :
    reachable w -> call_method c w = Ok (tt, w') -> reachable w'
| reachable_painter w tr :
    reachable w -> reachable (mkWorld (self w) (random_state w) tr).

(** A plant is generated once [set_max_age] has been called on it. *)
Definition generated (w : world) : Prop :=
  reachable w /\ maxAge (self w) <> None.

Definition invariant (w : world) : Prop :=
  rng_ok (random_state w) /\
  (maxAge (self w) = None \/ exists P, has_params (self w) P).

Lemma set_max_age_wp w m :
  rng_ok (random_state w) ->
  wp (set_max_age m)
     (fun _ w' =>
        rng_ok (random_state w') /\ painter w' = painter w /\
        age (self w') = age (self w) /\ class (self w') = class (self w) /\
        x (self w') = x (self w) /\ y (self w') = y (self w) /\
        maxAge (self w') = Some m /\
        exists P, has_params (self w') P) w.
Proof.
  intros Hg. unfold set_max_age. apply wp_bind, wp_assign.
  eapply wp_mono; [|apply (generate_wp _ m); [exact Hg | reflexivity]].
  intros u w' H. exact H.
Qed.

Lemma call_method_invariant c w :
  invariant w -> wp (call_method c) (fun _ w' => invariant w') w.
Proof.
  intros [Hg Hp]. destruct c as [a|m|width height]; cbn [call_method].
  - apply wp_assign. split; [exact Hg|]. cbn [self].
    destruct Hp as [Hp|[P HP]]; [now left | right].
    exists P. now apply has_params_assign_age.
  - eapply wp_mono; [|apply set_max_age_wp, Hg].
    intros u w' (Hg' & _ & _ & _ & _ & _ & _ & HP).
    split; [exact Hg' | now right].
  - destruct Hp as [Hp|[P HP]].
    + unfold wp. rewrite (draw_unset _ _ _ Hp). split; [exact Hg | now left].
    + unfold wp. destruct w as [p g tr]. cbn [self random_state] in *.
      rewrite (draw_generated _ _ _ _ _ _ HP).
      split; [exact Hg | right]. exists P.
      now apply has_params_after__draw.
Qed.

Lemma reachable_invariant w : reachable w -> invariant w.
Proof.
  induction 1 as [c g tr Hg|w c w' _ IH E|w tr _ IH].
  - split; [exact Hg | now left].
  - pose proof (call_method_invariant c w IH) as W. unfold wp in W.
    now rewrite E in W.
  - exact IH.
Qed.

Lemma generated_params w : generated w -> exists P, has_params (self w) P.
Proof.
  intros [Hr Hm]. destruct (reachable_invariant w Hr) as [_ [E|HP]];
    [contradiction | exact HP].
Qed.

(** Every public method returns from every reachable state. *)
Lemma call_method_total c w :
  reachable w -> exists w', call_method c w = Ok (tt, w').
Proof.
  intros Hr. pose proof (call_method_invariant c w (reachable_invariant w Hr))
    as W. unfold wp in W.
  destruct (call_method c w) as [[[] w']|e]; [now exists w' | contradiction].
Qed.

(** ** Example states *)

(** An oracle whose every draw is 0. *)
Definition zero_rng : rng := mkRng 0 (fun _ => 0) (fun _ => 0%nat).

Lemma zero_rng_ok : rng_ok zero_rng.
Proof. intros n. cbn. lra. Defined.

(** A plant of class [c] as its constructor leaves it, with an empty
    painter. *)
Definition fresh_world (c : cls) : world := mkWorld (new_plant c) zero_rng [].

(** The state after [m], or the state before when [m] raises. *)
Definition after (m : M unit) (w : world) : world :=
  match m w with
  | Ok (_, w') => w'
  | Raise _ => w
  end.

(** A plant of class [c] after [set_max_age(1)]. *)
Definition grown_world (c : cls) : world :=
  after (set_max_age 1) (fresh_world c).

Lemma fresh_world_reachable c : reachable (fresh_world c).
Proof. apply reachable_new, zero_rng_ok. Defined.

Lemma after_call_reachable c w :
  reachable w -> reachable (after (call_method c) w).
Proof.
  intros Hr. unfold after.
  destruct (call_method c w) as [[[] w']|e] eqn:E; [|exact Hr].
  exact (reachable_call w c w' Hr E).
Defined.

Lemma grown_world_generated c : generated (grown_world c).
Proof.
  split.
  - exact (after_call_reachable (Set_max_age 1) _ (fresh_world_reachable c)).
  - unfold grown_world, after.
    pose proof (set_max_age_wp (fresh_world c) 1 zero_rng_ok) as W.
    unfold wp in W.
    destruct (set_max_age 1 (fresh_world c)) as [[u w']|e]; [|contradiction].
    destruct W as (_ & _ & _ & _ & _ & _ & E & _). now rewrite E.
Defined.

Lemma wp_unit_run (m : M unit) Q w :
  wp m Q w -> exists w', m w = Ok (tt, w') /\ Q tt w'.
Proof.
  unfold wp. destruct (m w) as [[[] w']|e]; [|contradiction].
  intros H. now exists w'.
Qed.

(** ** The claims *)

(** C2. While [maxAge] is unset, [draw] returns without an error and leaves
    the plant, the random source and the painter as they were, for every
    class, age, width and height. *)
Theorem draw_before_set_max_age (w : world) (width height : Z) :
  maxAge (self w) = None ->
  draw width height w = Ok (tt, w).
Proof. apply draw_unset. Qed.

Lemma draw_before_set_max_age_witness :
  draw 300 200 (fresh_world GreenTree) = Ok (tt, fresh_world GreenTree).
Proof. apply draw_before_set_max_age. reflexivity. Defined.

(** C7. [CircularFlower.generate] returns with [number_of_pellets] equal to
    5, 6 or 7, and equal to 5 when the pellet drawing function is the round
    or the dip pellet. *)
Theorem CircularFlower_generate_pellets (w : world) :
  rng_ok (random_state w) ->
  maxAge (self w) <> None ->
  exists w' n f,
    CircularFlower_generate w = Ok (tt, w') /\
    number_of_pellets (self w') = Some n /\
    pellet_drawing_function (self w') = Some f /\
    (n = 5 \/ n = 6 \/ n = 7)%Z /\
    (f = round_pellet \/ f = dip_pellet -> n = 5%Z).
Proof.
  intros Hg Hm. destruct (maxAge (self w)) as [m|] eqn:E; [|contradiction].
  destruct (wp_unit_run CircularFlower_generate
              (fun _ w' =>
                 exists n f,
                   number_of_pellets (self w') = Some n /\
                   pellet_drawing_function (self w') = Some f /\
                   (n = 5 \/ n = 6 \/ n = 7)%Z /\
                   (f = round_pellet \/ f = dip_pellet -> n = 5%Z)) w)
    as (w' & Hrun & n & f & H).
  - eapply CircularFlower_generate_wp; [exact Hg | exact E |].
    intros g' dc xc l1 l2 sw c n k f _ _ Hn. cbn [self].
    exists (if existsb (pellet_eqb f) [dip_pellet; round_pellet]
            then 5%Z else n), f.
    destruct f; cbn [existsb pellet_eqb orb];
      (split; [reflexivity|]); (split; [reflexivity|]);
      (split; [lia|]); intros [F|F]; first [discriminate F | reflexivity].
  - now exists w', n, f.
Qed.

Lemma CircularFlower_generate_pellets_witness :
  exists w' n f,
    CircularFlower_generate
      (mkWorld (assign_maxAge 1 (new_plant CircularFlower)) zero_rng [])
    = Ok (tt, w') /\
    number_of_pellets (self w') = Some n /\
    pellet_drawing_function (self w') = Some f /\
    (n = 5 \/ n = 6 \/ n = 7)%Z /\
    (f = round_pellet \/ f = dip_pellet -> n = 5%Z).
Proof.
  apply CircularFlower_generate_pellets.
  - exact zero_rng_ok.
  - discriminate.
Defined.



(** The plant without what [_draw] keeps in [self.x] and [self.y]: what is
    left is [age], [maxAge] and the generated parameters. *)
Definition forget_xy (p : plant) : plant :=
  mkPlant (class p) (age p) (maxAge p) (age_coefficient p)
    (deficit_coefficient p) (leafs p) (x_position p) (y_position p)
    (leaf_size p) (stem_width p) None None (color p) (number_of_pellets p)
    (pellet_size p) (center_pellet_smaller_coefficient p)
    (pellet_drawing_function p) (branches p) (base_width p) (base_height p)
    (branch_width p) (branch_height p) (branch_circles p) (green_width p)
    (green_height p) (offset p) (second_green_width p)
    (second_green_height p).

Lemma has_params_forget_xy p P : has_params (forget_xy p) P <-> has_params p P.
Proof. destruct P; split; exact (fun H => H). Qed.

Lemma forget_xy_after__draw P p width height :
  forget_xy (after__draw P p width height) = forget_xy p.
Proof. destruct P; reflexivity. Qed.

Lemma grown_world_facts c :
  class (self (grown_world c)) = c /\
  age (self (grown_world c)) = 0 /\
  x (self (grown_world c)) = None /\
  y (self (grown_world c)) = None /\
  maxAge (self (grown_world c)) = Some 1.
Proof.
  unfold grown_world, after.
  pose proof (set_max_age_wp (fresh_world c) 1 zero_rng_ok) as W.
  unfold wp in W.
  destruct (set_max_age 1 (fresh_world c)) as [[u w']|e]; [|contradiction].
  destruct W as (_ & _ & Ha & Hc & Hx & Hy & Hm & _). auto.
Qed.

(** C4, as the specification states it, fails on a flower: [_draw] assigns
    [self.x] and [self.y]. After [set_max_age(1)] on a new [Flower] the
    attribute [x] is unset, and [draw] sets it. *)
Lemma draw_writes_flower_state :
  generated (grown_world Flower) /\
  exists w',
    draw 200 200 (grown_world Flower) = Ok (tt, w') /\
    self w' <> self (grown_world Flower).
Proof.
  split; [apply grown_world_generated|].
  destruct (generated_params _ (grown_world_generated Flower)) as [P HP].
  destruct (grown_world_facts Flower) as (Hc & _ & Hx & _).
  destruct (grown_world Flower) as [p g tr]. cbn [self] in *.
  rewrite (draw_generated _ _ _ _ _ _ HP). eexists. split; [reflexivity|].
  cbn [self]. intros E. apply (f_equal x) in E. rewrite Hx in E.
  destruct P; cbn [has_params] in HP; destruct HP as [Hc' _];
    rewrite Hc in Hc'; try discriminate Hc'.
  discriminate E.
Qed.

(** What [draw] leaves in place on a generated plant. *)
Lemma draw_generated_frame (w : world) (width height : Z) :
  generated w ->
  exists w',
    draw width height w = Ok (tt, w') /\
    random_state w' = random_state w /\
    forget_xy (self w') = forget_xy (self w) /\
    (class (self w) <> Flower -> class (self w) <> CircularFlower ->
     self w' = self w).
Proof.
  intros Hgen. destruct (generated_params w Hgen) as [P HP].
  destruct w as [p g tr]. cbn [self random_state] in *.
  rewrite (draw_generated _ _ _ _ _ _ HP). eexists. split; [reflexivity|].
  cbn [self random_state]. split; [reflexivity|].
  split; [apply forget_xy_after__draw|].
  intros Hf Hcf.
  destruct P; cbn [has_params] in HP; destruct HP as [Hc _];
    first [contradiction | reflexivity].
Qed.

(** C4, amended. On a generated plant [draw] returns, consumes no randomness
    and leaves [age], [maxAge] and every generated parameter as they were;
    only [self.x] and [self.y] of a [Flower] or [CircularFlower] are
    assigned, and a tree is left unchanged altogether. *)
Theorem draw_frame (w : world) (width height : Z) :
  generated w ->
  exists w',
    draw width height w = Ok (tt, w') /\
    random_state w' = random_state w /\
    forget_xy (self w') = forget_xy (self w) /\
    (class (self w) <> Flower -> class (self w) <> CircularFlower ->
     self w' = self w).
Proof. apply draw_generated_frame. Qed.

Lemma draw_frame_witness :
  exists w',
    draw 200 800 (grown_world OrangeTree) = Ok (tt, w') /\
    random_state w' = random_state (grown_world OrangeTree) /\
    forget_xy (self w') = forget_xy (self (grown_world OrangeTree)) /\
    (class (self (grown_world OrangeTree)) <> Flower ->
     class (self (grown_world OrangeTree)) <> CircularFlower ->
     self w' = self (grown_world OrangeTree)).
Proof. apply draw_frame. apply grown_world_generated. Defined.




(** C6. On generated plants that agree on [age], [maxAge] and the generated
    parameters, [draw] with the same width and height sends the same calls
    to the painter, whatever [self.x], [self.y], the painter and the random
    source were before; and it leaves the random source as it was. *)
Theorem draw_deterministic (w1 w2 : world) (width height : Z) :
  generated w1 -> generated w2 ->
  forget_xy (self w1) = forget_xy (self w2) ->
  exists calls w1' w2',
    draw width height w1 = Ok (tt, w1') /\
    draw width height w2 = Ok (tt, w2') /\
    painter w1' = painter w1 ++ calls /\
    painter w2' = painter w2 ++ calls /\
    random_state w1' = random_state w1 /\
    random_state w2' = random_state w2.
Proof.
  intros H1 H2 E. destruct (generated_params w1 H1) as [P HP1].
  assert (HP2 : has_params (self w2) P).
  { apply (proj1 (has_params_forget_xy (self w2) P)). rewrite <- E.
    apply (proj2 (has_params_forget_xy (self w1) P)), HP1. }
  assert (Ea : age (self w1) = age (self w2)) by exact (f_equal age E).
  destruct w1 as [p1 g1 tr1], w2 as [p2 g2 tr2].
  cbn [self random_state painter] in *.
  rewrite (draw_generated _ _ _ _ _ _ HP1), (draw_generated _ _ _ _ _ _ HP2).
  rewrite Ea. do 3 eexists. cbn [painter random_state].
  repeat split; reflexivity.
Qed.

Lemma draw_deterministic_witness :
  exists calls w1' w2',
    draw 640 480 (grown_world CircularFlower) = Ok (tt, w1') /\
    draw 640 480 (after (draw 100 100) (grown_world CircularFlower))
      = Ok (tt, w2') /\
    painter w1' = painter (grown_world CircularFlower) ++ calls /\
    painter w2'
      = painter (after (draw 100 100) (grown_world CircularFlower)) ++ calls /\
    random_state w1' = random_state (grown_world CircularFlower) /\
    random_state w2'
      = random_state (after (draw 100 100) (grown_world CircularFlower)).
Proof.
  pose proof (grown_world_generated CircularFlower) as G.
  apply draw_deterministic.
  - exact G.
  - split.
    + exact (after_call_reachable (Draw 100 100) _ (proj1 G)).
    + destruct (draw_generated_frame _ 100 100 G) as (w' & E & _ & F & _).
      unfold after. rewrite E. intros N. apply (proj2 G).
      change (maxAge (forget_xy (self (grown_world CircularFlower))) = None).
      rewrite <- F. exact N.
  - destruct (draw_generated_frame _ 100 100 G) as (w' & E & _ & F & _).
    unfold after. rewrite E. symmetry. exact F.
Defined.

(** The canvas point of a point given in the coordinate system that a list
    of [translate] and [scale] calls sets up: each call acts in the system
    left by the calls before it. The canvas has its origin in the top left
    corner and its y-axis pointing down. *)
Fixpoint on_canvas (cs : list (call R)) (pt : R * R) : R * R :=
  match cs with
  | [] => pt
  | Translate dx dy :: cs' =>
      let '(px, py) := on_canvas cs' pt in (px + dx, py + dy)
  | Scale sx sy :: cs' =>
      let '(px, py) := on_canvas cs' pt in (sx * px, sy * py)
  | _ :: cs' => on_canvas cs' pt
  end.

(** C9. On a generated plant and a canvas of positive width and height,
    [draw] first moves the origin to the bottom center of the canvas and
    turns the y-axis upwards, then runs the [_draw] of the class with
    [min(width, height)] as both its width and its height; the calls of
    [_draw] are the same on every canvas with the same smaller side. *)
Theorem draw_origin_and_unit (w : world) (width height : Z) :
  generated w ->
  (0 < width)%Z -> (0 < height)%Z ->
  let origin := [Translate (IZR width / 2) (IZR height); Scale 1 (-1)] in
  draw width height w =
    (paint (Translate (IZR width / 2) (IZR height)) ;;
     paint (Scale 1 (-1)) ;;
     _draw (Z.min width height) (Z.min width height)) w /\
  (forall px py,
     on_canvas origin (px, py) = (IZR width / 2 + px, IZR height - py)) /\
  exists shape w',
    draw width height w = Ok (tt, w') /\
    painter w' = painter w ++ origin ++ shape /\
    forall width' height',
      Z.min width' height' = Z.min width height ->
      exists w'',
        draw width' height' w = Ok (tt, w'') /\
        painter w'' =
          painter w
          ++ [Translate (IZR width' / 2) (IZR height'); Scale 1 (-1)]
          ++ shape.
Proof.
  intros Hgen _ _ origin. destruct (generated_params w Hgen) as [P HP].
  split; [|split].
  - unfold draw. destruct Hgen as [_ Hm].
    destruct (maxAge (self w)); [reflexivity | contradiction].
  - intros px py. cbn [on_canvas origin]. f_equal; lra.
  - destruct w as [p g tr]. cbn [self painter] in *.
    exists (calls_of P (age p) (Z.min width height) (Z.min width height)).
    eexists. split; [apply (draw_generated _ _ _ _ _ _ HP)|].
    split; [reflexivity|]. intros width' height' E. eexists.
    split; [apply (draw_generated _ _ _ _ _ _ HP)|].
    cbn [painter]. now rewrite E.
Qed.

Lemma draw_origin_and_unit_witness :
  let w := grown_world DoubleGreenTree in
  let origin := [Translate (IZR 200 / 2) (IZR 800); Scale 1 (-1)] in
  draw 200 800 w =
    (paint (Translate (IZR 200 / 2) (IZR 800)) ;;
     paint (Scale 1 (-1)) ;;
     _draw (Z.min 200 800) (Z.min 200 800)) w /\
  (forall px py,
     on_canvas origin (px, py) = (IZR 200 / 2 + px, IZR 800 - py)) /\
  exists shape w',
    draw 200 800 w = Ok (tt, w') /\
    painter w' = painter w ++ origin ++ shape /\
    forall width' height',
      Z.min width' height' = Z.min 200 800 ->
      exists w'',
        draw width' height' w = Ok (tt, w'') /\
        painter w'' =
          painter w
          ++ [Translate (IZR width' / 2) (IZR height'); Scale 1 (-1)]
          ++ shape.
Proof.
  apply (draw_origin_and_unit (grown_world DoubleGreenTree) 200 800).
  - apply grown_world_generated.
  - reflexivity.
  - reflexivity.
Defined.

(** A division by zero does raise in this model. *)
Lemma py_div_by_zero a w : py_div a 0 w = Raise ZeroDivisionError.
Proof. unfold py_div. destruct (Req_dec_T 0 0); [reflexivity | easy]. Qed.

(** The calls of one leaf when the lean rotation is skipped. *)
Definition upright_leaf_calls (path : QPainterPath R) (ls : R)
    (position rotation : R) : list (call R) :=
  [Save; TranslateTo path position; Rotate (degrees rotation)]
  ++ (if Rlt_dec rotation 0 then [Scale (-1) 1] else [])
  ++ [SetBrush green_color; SetPen (QPen_style 0);
      DrawPath [setFillRule_WindingFill;
                quadTo (0.4 * ls) (0.5 * ls) 0 ls;
                cubicTo 0 (0.5 * ls) (-0.4 * ls) (0.4 * ls) 0 0];
      Restore].

Lemma generated_flower_params w :
  generated w ->
  class (self w) = Flower \/ class (self w) = CircularFlower ->
  exists m dc xc sw ls,
    has_Plant (self w) m dc /\ has_Flower (self w) xc sw ls.
Proof.
  intros Hgen Hc. destruct (generated_params w Hgen) as [P HP].
  destruct P; cbn [has_params] in HP; destruct HP as (Hc' & HP);
    rewrite Hc' in Hc; destruct Hc as [Hc|Hc]; try discriminate Hc;
    exists m, dc, xc, sw, [l1; l2]; split; apply HP.
Qed.

(** C10. On a generated [Flower] or [CircularFlower], [Flower._draw] and
    [draw] return for every age, width and height: the quotient
    [self.x / self.y] is computed only when [self.y != 0]. At age 0 the end
    of the stem is the origin, and each leaf is drawn without the lean
    rotation. *)
Theorem Flower__draw_never_divides_by_zero (w : world) (width height : Z) :
  generated w ->
  class (self w) = Flower \/ class (self w) = CircularFlower ->
  (exists w', Flower__draw width height w = Ok (tt, w')) /\
  (exists w', draw width height w = Ok (tt, w')) /\
  (age (self w) = 0 ->
   exists w' ls,
     Flower__draw width height w = Ok (tt, w') /\
     x (self w') = Some 0 /\ y (self w') = Some 0 /\
     leafs (self w) = Some ls /\
     painter w' =
       painter w
       ++ [SetPen (QPen_color green_color 0); DrawPath [quadTo 0 0 0 0]]
       ++ flat_map (fun leaf : R * R * R =>
                      upright_leaf_calls [quadTo 0 0 0 0] 0
                        (fst (fst leaf)) (snd leaf)) ls).
Proof.
  intros Hgen Hc.
  destruct (generated_flower_params w Hgen Hc)
    as (m & dc & xc & sw & ls & (Hm & Hac & Hdc & _) & Hf).
  destruct Hf as (Hxp & Hyp & Hl & Hls & Hsw).
  destruct w as [p g tr]. cbn [self painter] in *.
  pose proof (fun Q => Flower__draw_wp p g tr width height xc dc
                         ((m + 1) / 2) sw ls Q Hxp Hyp Hl Hdc Hac Hsw Hls)
    as W.
  split; [|split].
  - destruct (wp_unit_run _ (fun _ _ => True) _ (W _ I)) as (w' & E & _).
    now exists w'.
  - destruct (call_method_total (Draw width height) (mkWorld p g tr)
                (proj1 Hgen)) as [w' E].
    exists w'. exact E.
  - intros Ha.
    set (W' := mkWorld
                 (assign_y (Flower_y dc ((m + 1) / 2) (age p) height)
                    (assign_x (Flower_x xc (age p) width) p)) g
                 (tr ++ Flower_calls xc dc ((m + 1) / 2) sw (age p) ls
                          width height)).
    destruct (wp_unit_run _ (fun _ w' => w' = W') _ (W _ eq_refl))
      as (w' & E & Hw').
    subst w'. exists W', ls. unfold W'.
    split; [exact E|]. cbn [self painter x y assign_x assign_y].
    unfold Flower_calls, Flower_stem, Flower_x, Flower_y.
    rewrite Ha, smoothen_curve_0.
    replace (IZR width / 9 * xc * 0) with 0 by lra.
    replace (IZR height / 2.5 * dc * ((m + 1) / 2) * 0) with 0 by lra.
    replace (0 * 0.6) with 0 by lra.
    replace (sw * 0) with 0 by lra.
    split; [reflexivity|]. split; [reflexivity|]. split; [exact Hls|].
    do 2 f_equal. apply flat_map_ext.
    intros [[position coefficient] rotation]. cbn [fst snd].
    unfold leaf_calls, upright_leaf_calls.
    destruct (Req_dec_T 0 0) as [_|N]; [|now contradiction N].
    replace (IZR width / 7 * dc * ((m + 1) / 2) * 0 ^ 2 * coefficient)
      with 0 by lra.
    reflexivity.
Qed.

Lemma Flower__draw_never_divides_by_zero_witness :
  let w := grown_world Flower in
  (exists w', Flower__draw 300 300 w = Ok (tt, w')) /\
  (exists w', draw 300 300 w = Ok (tt, w')) /\
  (age (self w) = 0 ->
   exists w' ls,
     Flower__draw 300 300 w = Ok (tt, w') /\
     x (self w') = Some 0 /\ y (self w') = Some 0 /\
     leafs (self w) = Some ls /\
     painter w' =
       painter w
       ++ [SetPen (QPen_color green_color 0); DrawPath [quadTo 0 0 0 0]]
       ++ flat_map (fun leaf : R * R * R =>
                      upright_leaf_calls [quadTo 0 0 0 0] 0
                        (fst (fst leaf)) (snd leaf)) ls).
Proof.
  apply (Flower__draw_never_divides_by_zero (grown_world Flower) 300 300).
  - apply grown_world_generated.
  - left. apply grown_world_facts.
Defined.

(** ** How the painted scalars depend on the age *)

Lemma smoothen_curve_range a : 0 <= smoothen_curve a <= 1.
Proof.
  unfold smoothen_curve. pose proof (SIN_bound ((a - 1 / 2) * PI)). lra.
Qed.


(** The ways a painted scalar may follow the age [a]: not at all, or in
    proportion to [smoothen_curve a], to its square, or to [smoothen_curve]
    of the adjusted age [a ** 2]. *)
Inductive growth : Type :=
| Fixed
| Smooth
| SmoothSquared
| SmoothAdjusted.

Definition factor (g : growth) (a : R) : R :=
  match g with
  | Fixed => 1
  | Smooth => smoothen_curve a
  | SmoothSquared => smoothen_curve a ^ 2
  | SmoothAdjusted => smoothen_curve (a ^ 2)
  end.

(** A scalar [k * factor g a] whose coefficient [k] does not depend on the
    age. *)
Definition scalar : Type := (R * growth)%type.

Definition at_age (a : R) (v : scalar) : R := fst v * factor (snd v) a.

Definition fixed (k : R) : scalar := (k, Fixed).
Definition smooth (k : R) : scalar := (k, Smooth).
Definition squared (k : R) : scalar := (k, SmoothSquared).
Definition adjusted (k : R) : scalar := (k, SmoothAdjusted).

(** The same calls over other scalars. *)
Definition path_call_map {A B} (f : A -> B) (c : path_call A) : path_call B :=
  match c with
  | setFillRule_WindingFill => setFillRule_WindingFill
  | quadTo cx cy x y => quadTo (f cx) (f cy) (f x) (f y)
  | cubicTo c1x c1y c2x c2y x y =>
      cubicTo (f c1x) (f c1y) (f c2x) (f c2y) (f x) (f y)
  end.

Definition QPen_map {A B} (f : A -> B) (p : QPen A) : QPen B :=
  match p with
  | QPen_color c width => QPen_color c (f width)
  | QPen_style s => QPen_style s
  end.

Definition call_map {A B} (f : A -> B) (c : call A) : call B :=
  match c with
  | Translate dx dy => Translate (f dx) (f dy)
  | TranslateTo path percent =>
      TranslateTo (map (path_call_map f) path) (f percent)
  | Scale sx sy => Scale (f sx) (f sy)
  | Rotate angle => Rotate (f angle)
  | Save => Save
  | Restore => Restore
  | SetPen pen => SetPen (QPen_map f pen)
  | SetBrush c => SetBrush c
  | DrawPath path => DrawPath (map (path_call_map f) path)
  | DrawPolygon points =>
      DrawPolygon (map (fun pt => (f (fst pt), f (snd pt))) points)
  | DrawEllipseRect x y w h => DrawEllipseRect (f x) (f y) (f w) (f h)
  | DrawEllipseAt cx cy rx ry => DrawEllipseAt (f cx) (f cy) (f rx) (f ry)
  end.

(** A list of calls over [scalar], read at the age [a]. *)
Definition render (a : R) (t : list (call scalar)) : list (call R) :=
  map (call_map (at_age a)) t.

Lemma render_app a t1 t2 : render a (t1 ++ t2) = render a t1 ++ render a t2.
Proof. apply map_app. Qed.

Lemma render_flat_map {A} a (f : A -> list (call scalar)) l :
  render a (flat_map f l) = flat_map (fun v => render a (f v)) l.
Proof.
  induction l as [|v l IH]; [reflexivity|].
  cbn [flat_map]. now rewrite render_app, IH.
Qed.

(** Equalities of calls are split down to equalities of scalars. *)
Ltac split_calls :=
  repeat lazymatch goal with
         | |- ?u = ?u => reflexivity
         | |- @eq R _ _ => fail
         | |- _ :: _ = _ :: _ => f_equal
         | |- @eq (call R) _ _ => f_equal
         | |- @eq (path_call R) _ _ => f_equal
         | |- @eq (QPen R) _ _ => f_equal
         | |- @eq (R * R) (_, _) (_, _) => f_equal
         end.

Ltac render_eq :=
  unfold render;
  cbn [map call_map path_call_map QPen_map app fst snd];
  split_calls;
  unfold at_age, fixed, smooth, squared, adjusted, factor; cbn [fst snd];
  try lra.

Section Templates.
Variables (dc ac : R) (width height : Z).


(** [Flower._draw]; [lean] tells whether the age is positive, that is,
    whether the lean rotation is made. *)
Definition Flower_stem_template (xc : R) : QPainterPath scalar :=
  [quadTo (fixed 0) (smooth (IZR height / 2.5 * dc * ac * 0.6))
          (smooth (IZR width / 9 * xc)) (smooth (IZR height / 2.5 * dc * ac))].

Definition leaf_template (lean : bool) (xc : R) (leaf : R * R * R)
    : list (call scalar) :=
  let '(position, coefficient, rotation) := leaf in
  let ls := IZR width / 7 * dc * ac * coefficient in
  ([Save; TranslateTo (Flower_stem_template xc) (fixed position);
    Rotate (fixed (degrees rotation))] : list (call scalar))
  ++ (if lean then
        if Req_dec_T (IZR height / 2.5 * dc * ac) 0 then []
        else [Rotate (fixed (- degrees (sin (IZR width / 9 * xc
                                             / (IZR height / 2.5 * dc * ac)))))]
      else [])
  ++ (if Rlt_dec rotation 0 then [Scale (fixed (-1)) (fixed 1)] else [])
  ++ [SetBrush green_color; SetPen (QPen_style 0);
      DrawPath [setFillRule_WindingFill;
                quadTo (squared (0.4 * ls)) (squared (0.5 * ls)) (fixed 0)
                       (squared ls);
                cubicTo (fixed 0) (squared (0.5 * ls)) (squared (-0.4 * ls))
                        (squared (0.4 * ls)) (fixed 0) (fixed 0)];
      Restore].

Definition Flower_template (lean : bool) (xc sw : R)
    (ls : list (R * R * R)) : list (call scalar) :=
  [SetPen (QPen_color green_color (smooth sw));
   DrawPath (Flower_stem_template xc)]
  ++ flat_map (leaf_template lean xc) ls.

Lemma Flower_template_render (lean : bool) xc sw ls a :
  (if lean then smoothen_curve a <> 0 else smoothen_curve a = 0) ->
  render a (Flower_template lean xc sw ls)
  = Flower_calls xc dc ac sw a ls width height.
Proof.
  intros Hlean. unfold Flower_template, Flower_calls.
  rewrite render_app, render_flat_map.
  apply (f_equal2 (@app (call R))).
  - unfold Flower_stem, Flower_stem_template, Flower_x, Flower_y. render_eq.
  - apply flat_map_ext. intros [[position coefficient] rotation].
    unfold leaf_template, leaf_calls. rewrite !render_app.
    apply (f_equal2 (@app (call R)));
      [|apply (f_equal2 (@app (call R)));
        [|apply (f_equal2 (@app (call R)))]].
    + unfold Flower_stem, Flower_stem_template, Flower_x, Flower_y.
      render_eq.
    + unfold Flower_x, Flower_y.
      destruct (Req_dec_T (IZR height / 2.5 * dc * ac * smoothen_curve a) 0)
        as [E|E].
      * destruct lean; [|reflexivity].
        destruct (Req_dec_T (IZR height / 2.5 * dc * ac) 0) as [E0|E0];
          [reflexivity|].
        exfalso. apply Rmult_integral in E. tauto.
      * destruct lean; [|exfalso; apply E; rewrite Hlean; lra].
        destruct (Req_dec_T (IZR height / 2.5 * dc * ac) 0) as [E0|E0];
          [exfalso; apply E; rewrite E0; lra|].
        replace (IZR width / 9 * xc * smoothen_curve a
                 / (IZR height / 2.5 * dc * ac * smoothen_curve a))
          with (IZR width / 9 * xc / (IZR height / 2.5 * dc * ac))
          by (symmetry; apply Rdiv_mult_r_r; exact Hlean).
        render_eq.
    + destruct (Rlt_dec rotation 0); render_eq.
    + render_eq.
Qed.
End Templates.

Section MoreTemplates.
Variables (dc ac : R) (width height : Z).

(** The pellet methods. *)
Definition pellet_template (f : pellet) : call scalar :=
  let pellet_size := IZR width / 9 * dc * ac in
  match f with
  | circular_pellet =>
      DrawEllipseRect (fixed 0) (fixed 0) (smooth pellet_size)
        (smooth pellet_size)
  | triangle_pellet =>
      let pellet_size := pellet_size * 1.5 in
      DrawPath [setFillRule_WindingFill;
                quadTo (smooth (0.9 * pellet_size))
                       (smooth (0.5 * pellet_size)) (fixed 0)
                       (smooth pellet_size);
                quadTo (smooth (-0.5 * pellet_size))
                       (smooth (0.4 * pellet_size)) (fixed 0) (fixed 0)]
  | dip_pellet =>
      let pellet_size := pellet_size * 1.2 in
      DrawPath [setFillRule_WindingFill;
                quadTo (smooth pellet_size) (smooth (pellet_size * 1.4))
                       (fixed 0) (smooth pellet_size);
                quadTo (smooth (- pellet_size)) (smooth (pellet_size * 1.4))
                       (fixed 0) (fixed 0)]
  | round_pellet =>
      let pellet_size := pellet_size * 1.3 in
      DrawPath [setFillRule_WindingFill;
                quadTo (smooth (pellet_size * 0.8))
                       (smooth (pellet_size * 0.9)) (fixed 0)
                       (smooth pellet_size);
                quadTo (smooth (- pellet_size * 0.8))
                       (smooth (pellet_size * 0.9)) (fixed 0) (fixed 0)]
  end.

Lemma pellet_template_render f a :
  call_map (at_age a) (pellet_template f)
  = pellet_call f (IZR width / 9 * dc * ac * smoothen_curve a).
Proof.
  destruct f; unfold pellet_template, pellet_call; cbv zeta;
    cbn [call_map map path_call_map]; split_calls;
    unfold at_age, fixed, smooth, factor; cbn [fst snd]; lra.
Qed.

(** [CircularFlower._draw] *)
Definition CircularFlower_template (lean : bool) (xc sw : R)
    (ls : list (R * R * R)) (c : QColor) (n : Z) (k : R) (f : pellet)
    : list (call scalar) :=
  Flower_template dc ac width height lean xc sw ls
  ++ [Save;
      Translate (smooth (IZR width / 9 * xc))
                (smooth (IZR height / 2.5 * dc * ac));
      SetPen (QPen_style Qt_NoPen); SetBrush c]
  ++ flat_map (fun _ : Z =>
                 [pellet_template f; Rotate (fixed (360 / IZR n))])
              (range n)
  ++ [SetBrush white_color;
      DrawEllipseRect (smooth (- (IZR width / 9 * dc * ac * k) / 2))
                      (smooth (- (IZR width / 9 * dc * ac * k) / 2))
                      (smooth (IZR width / 9 * dc * ac * k))
                      (smooth (IZR width / 9 * dc * ac * k));
      Restore].

Lemma CircularFlower_template_render (lean : bool) xc sw ls c n k f a :
  (if lean then smoothen_curve a <> 0 else smoothen_curve a = 0) ->
  render a (CircularFlower_template lean xc sw ls c n k f)
  = CircularFlower_calls xc dc ac sw a ls c n k f width height.
Proof.
  intros Hlean. unfold CircularFlower_template, CircularFlower_calls,
    CircularFlower_head_calls.
  rewrite !render_app, render_flat_map.
  rewrite (Flower_template_render _ _ _ _ _ _ _ _ _ Hlean).
  apply (f_equal2 (@app (call R))); [reflexivity|].
  apply (f_equal2 (@app (call R))); [|apply (f_equal2 (@app (call R)))].
  - unfold Flower_x, Flower_y. render_eq.
  - apply flat_map_ext. intros _. unfold render. cbn [map].
    rewrite pellet_template_render. cbn [call_map]. split_calls.
    unfold at_age, fixed, factor; cbn [fst snd]. lra.
  - render_eq.
Qed.

(** [Tree._draw] *)
Definition branch_template (branch : R * R) : list (call scalar) :=
  let '(h, rotation) := branch in
  [Save;
   Translate (fixed 0) (smooth (IZR height * h / 1.7 * dc * ac));
   Rotate (fixed (degrees rotation));
   DrawPolygon
     [(adjusted (- (IZR width / 18 * dc * ac) * (1 - h)), fixed 0);
      (adjusted (IZR width / 18 * dc * ac * (1 - h)), fixed 0);
      (fixed 0, adjusted (IZR height / 2.7 * dc * ac * (1 - h)))];
   Restore].

Definition Tree_template (bs : list (R * R)) : list (call scalar) :=
  [SetBrush brown_color;
   DrawPolygon [(smooth (- (IZR width / 15 * dc * ac)), fixed 0);
                (smooth (IZR width / 15 * dc * ac), fixed 0);
                (fixed 0, smooth (IZR height / 1.7 * dc * ac))]]
  ++ flat_map branch_template bs.

Lemma Tree_template_render bs a :
  render a (Tree_template bs) = Tree_calls dc ac a bs width height.
Proof.
  unfold Tree_template, Tree_calls. rewrite render_app, render_flat_map.
  apply (f_equal2 (@app (call R))); [render_eq|].
  apply flat_map_ext. intros [h rotation].
  unfold branch_template, branch_calls. render_eq.
Qed.

(** [OrangeTree._draw] *)
Definition fruit_template (branch c : R * R) : list (call scalar) :=
  let '(h, rotation) := branch in
  [Save;
   Translate (fixed 0) (smooth (IZR height * h / 1.7 * dc * ac));
   Rotate (fixed (degrees rotation));
   SetBrush orange_color;
   DrawEllipseAt (fixed 0)
     (adjusted (IZR height / 2.7 * dc * ac * (1 - h) * snd c))
     (adjusted (IZR (width + height) / 2 * fst c * (1 - h) * ac))
     (adjusted (IZR (width + height) / 2 * fst c * (1 - h) * ac));
   Restore].

(** The scalars of the last fruit follow two curves at once: its center
    follows the trunk, its radius the branches. *)
Definition OrangeTree_template (b1 b2 c1 c2 c3 : R * R)
    : list (call scalar) :=
  [SetPen (QPen_style Qt_NoPen); SetBrush orange_color]
  ++ fruit_template b1 c1
  ++ fruit_template b2 c2
  ++ [DrawEllipseAt (fixed 0)
        (smooth (IZR height / 1.7 * dc * ac * snd c3))
        (adjusted (IZR (width + height) / 2 * fst c3 * (1 - fst b2) * ac
                   * 1.3))
        (adjusted (IZR (width + height) / 2 * fst c3 * (1 - fst b2) * ac
                   * 1.3))]
  ++ Tree_template [b1; b2].

Lemma OrangeTree_template_render b1 b2 c1 c2 c3 a :
  render a (OrangeTree_template b1 b2 c1 c2 c3)
  = OrangeTree_calls dc ac a b1 b2 c1 c2 c3 width height.
Proof.
  unfold OrangeTree_template, OrangeTree_calls, OrangeTree_head_calls.
  rewrite !render_app, Tree_template_render, <- !app_assoc.
  destruct b1 as [h1 r1], b2 as [h2 r2].
  unfold fruit_template, fruit_calls.
  apply (f_equal2 (@app (call R))); [reflexivity|].
  apply (f_equal2 (@app (call R))); [render_eq|].
  apply (f_equal2 (@app (call R))); [render_eq|].
  apply (f_equal2 (@app (call R))); [render_eq | reflexivity].
Qed.
End MoreTemplates.

(** The caps at 95% of the height are never reached while the
    coefficients stay in [0, 1]. *)
Lemma product_le_1 s dc ac :
  0 <= s <= 1 -> 0 <= dc <= 1 -> 0 <= ac <= 1 -> 0 <= s * dc * ac <= 1.
Proof. intros Hs Hdc Hac. assert (0 <= s * dc <= 1) by nra. nra. Qed.

Lemma GreenTree_offset_uncapped dc ac a height :
  (0 <= height)%Z -> 0 <= dc <= 1 -> 0 <= ac <= 1 ->
  GreenTree_offset dc ac a height
  = IZR height * 0.3 * smoothen_curve a / 1.7 * dc * ac.
Proof.
  intros Hh Hdc Hac. unfold GreenTree_offset. apply Rmin_right.
  pose proof (product_le_1 _ _ _ (smoothen_curve_range a) Hdc Hac) as Hp.
  apply IZR_le in Hh.
  replace (IZR height * 0.3 * smoothen_curve a / 1.7 * dc * ac)
    with (IZR height * (0.3 / 1.7) * (smoothen_curve a * dc * ac)) by lra.
  nra.
Qed.

Lemma DoubleGreenTree_top_uncapped dc ac a height :
  (0 <= height)%Z -> 0 <= dc <= 1 -> 0 <= ac <= 1 ->
  let s := smoothen_curve a in
  Rmin (IZR height / 2.4 * dc * ac * s
        + IZR height * 0.3 * s / 1.7 * dc * ac
        + (IZR height / 1.5 * dc * ac - IZR height / 2.4 * dc * ac) * s)
       (IZR height * 0.95)
  = (IZR height * 0.3 / 1.7 * dc * ac + IZR height / 1.5 * dc * ac) * s.
Proof.
  intros Hh Hdc Hac s. rewrite Rmin_left; [lra|].
  pose proof (product_le_1 _ _ _ (smoothen_curve_range a) Hdc Hac) as Hp.
  fold s in Hp. apply IZR_le in Hh.
  replace (IZR height / 2.4 * dc * ac * s
           + IZR height * 0.3 * s / 1.7 * dc * ac
           + (IZR height / 1.5 * dc * ac - IZR height / 2.4 * dc * ac) * s)
    with (IZR height * (0.3 / 1.7 + 1 / 1.5) * (s * dc * ac)) by lra.
  nra.
Qed.

Section TreeTemplates.
Variables (dc ac : R) (width height : Z).
Hypothesis Hheight : (0 <= height)%Z.
Hypothesis Hdc : 0 <= dc <= 1.
Hypothesis Hac : 0 <= ac <= 1.

(** [GreenTree._draw] *)
Definition GreenTree_template (bs : list (R * R)) : list (call scalar) :=
  [SetPen (QPen_style Qt_NoPen); SetBrush green_color;
   DrawPolygon
     [(smooth (- (IZR width / 3.2 * dc * ac)),
       smooth (IZR height * 0.3 / 1.7 * dc * ac));
      (smooth (IZR width / 3.2 * dc * ac),
       smooth (IZR height * 0.3 / 1.7 * dc * ac));
      (fixed 0,
       smooth (IZR height / 1.5 * dc * ac
               + IZR height * 0.3 / 1.7 * dc * ac))]]
  ++ Tree_template dc ac width height bs.

Lemma GreenTree_template_render bs a :
  render a (GreenTree_template bs) = GreenTree_calls dc ac a bs width height.
Proof.
  unfold GreenTree_template, GreenTree_calls, GreenTree_head_calls.
  rewrite render_app, Tree_template_render.
  rewrite (GreenTree_offset_uncapped _ _ _ _ Hheight Hdc Hac).
  apply (f_equal2 (@app (call R))); [render_eq | reflexivity].
Qed.

(** [DoubleGreenTree._draw] *)
Definition DoubleGreenTree_template (bs : list (R * R))
    : list (call scalar) :=
  [SetPen (QPen_style Qt_NoPen); SetBrush green_color;
   DrawPolygon
     [(squared (- (IZR width / 3.5 * dc * ac)),
       smooth (IZR height * 0.3 / 1.7 * dc * ac
               + (IZR height / 1.5 * dc * ac
                  - IZR height / 2.4 * dc * ac)));
      (squared (IZR width / 3.5 * dc * ac),
       smooth (IZR height * 0.3 / 1.7 * dc * ac
               + (IZR height / 1.5 * dc * ac
                  - IZR height / 2.4 * dc * ac)));
      (fixed 0,
       smooth (IZR height * 0.3 / 1.7 * dc * ac
               + IZR height / 1.5 * dc * ac))]]
  ++ GreenTree_template bs.

Lemma DoubleGreenTree_template_render bs a :
  render a (DoubleGreenTree_template bs)
  = DoubleGreenTree_calls dc ac a bs width height.
Proof.
  unfold DoubleGreenTree_template, DoubleGreenTree_calls,
    DoubleGreenTree_head_calls.
  rewrite render_app, GreenTree_template_render. cbv zeta.
  rewrite (DoubleGreenTree_top_uncapped _ _ a _ Hheight Hdc Hac).
  apply (f_equal2 (@app (call R))); [render_eq | reflexivity].
Qed.
End TreeTemplates.

(** The template of [self._draw(painter, width, height)]. *)
Definition template_of (lean : bool) (P : params) (width height : Z)
    : list (call scalar) :=
  match P with
  | Flower_params m dc xc sw l1 l2 =>
      Flower_template dc ((m + 1) / 2) width height lean xc sw [l1; l2]
  | CircularFlower_params m dc xc sw l1 l2 c n k f =>
      CircularFlower_template dc ((m + 1) / 2) width height lean xc sw
        [l1; l2] c n k f
  | Tree_params m dc bs => Tree_template dc ((m + 1) / 2) width height bs
  | OrangeTree_params m dc b1 b2 c1 c2 c3 =>
      OrangeTree_template dc ((m + 1) / 2) width height b1 b2 c1 c2 c3
  | GreenTree_params m dc bs =>
      GreenTree_template dc ((m + 1) / 2) width height bs
  | DoubleGreenTree_params m dc bs =>
      DoubleGreenTree_template dc ((m + 1) / 2) width height bs
  end.

(** The template of [draw(painter, width, height)]. *)
Definition draw_template (lean : bool) (P : params) (width height : Z)
    : list (call scalar) :=
  [Translate (fixed (IZR width / 2)) (fixed (IZR height));
   Scale (fixed 1) (fixed (-1))]
  ++ template_of lean P (Z.min width height) (Z.min width height).

Definition params_maxAge (P : params) : R :=
  match P with
  | Flower_params m _ _ _ _ _
  | CircularFlower_params m _ _ _ _ _ _ _ _ _
  | Tree_params m _ _
  | OrangeTree_params m _ _ _ _ _ _
  | GreenTree_params m _ _
  | DoubleGreenTree_params m _ _ => m
  end.

Definition params_deficit (P : params) : R :=
  match P with
  | Flower_params _ dc _ _ _ _
  | CircularFlower_params _ dc _ _ _ _ _ _ _ _
  | Tree_params _ dc _
  | OrangeTree_params _ dc _ _ _ _ _
  | GreenTree_params _ dc _
  | DoubleGreenTree_params _ dc _ => dc
  end.

Lemma has_params_Plant p P :
  has_params p P -> has_Plant p (params_maxAge P) (params_deficit P).
Proof. destruct P; cbn [has_params]; intros H; apply H. Qed.

Lemma template_of_render (lean : bool) P a width height :
  (if lean then smoothen_curve a <> 0 else smoothen_curve a = 0) ->
  (0 <= height)%Z ->
  0 <= params_deficit P <= 1 ->
  -1 <= params_maxAge P <= 1 ->
  render a (template_of lean P width height) = calls_of P a width height.
Proof.
  intros Hlean Hh Hdc Hm.
  assert (Hac : 0 <= (params_maxAge P + 1) / 2 <= 1) by lra.
  destruct P; cbn [template_of calls_of params_maxAge params_deficit] in *.
  - now apply Flower_template_render.
  - now apply CircularFlower_template_render.
  - apply Tree_template_render.
  - apply OrangeTree_template_render.
  - now apply GreenTree_template_render.
  - now apply DoubleGreenTree_template_render.
Qed.

Lemma draw_template_render (lean : bool) P a width height :
  (if lean then smoothen_curve a <> 0 else smoothen_curve a = 0) ->
  (0 <= Z.min width height)%Z ->
  0 <= params_deficit P <= 1 ->
  -1 <= params_maxAge P <= 1 ->
  render a (draw_template lean P width height)
  = [Translate (IZR width / 2) (IZR height); Scale 1 (-1)]
    ++ calls_of P a (Z.min width height) (Z.min width height).
Proof.
  intros Hlean Hh Hdc Hm. unfold draw_template.
  rewrite render_app, (template_of_render lean P a _ _ Hlean Hh Hdc Hm).
  apply (f_equal2 (@app (call R))); [render_eq | reflexivity].
Qed.



(** ** Further properties of the smoothing curve and of the growth *)

Lemma smoothen_curve_half : smoothen_curve (1 / 2) = 1 / 2.
Proof.
  unfold smoothen_curve. replace ((1 / 2 - 1 / 2) * PI) with 0 by lra.
  rewrite sin_0. lra.
Qed.

Lemma smoothen_curve_quarter : smoothen_curve (1 / 4) < 1 / 4.
Proof.
  unfold smoothen_curve. pose proof PI_RGT_0 as Hpi.
  assert (sin ((1 / 4 - 1 / 2) * PI) < sin (- (PI / 6))).
  { apply sin_increasing_1; lra. }
  rewrite sin_neg, sin_PI6 in H. lra.
Qed.

(** The plant of [w] at another age. *)
Definition at_current_age (a : R) (w : world) : world :=
  mkWorld (assign_age a (self w)) (random_state w) (painter w).

(** X2. For an age in [0, 1], [get_adjusted_age] returns [age ** 2] without
    touching the state; the result is at most the age, and below it for an
    age strictly between 0 and 1, so the smoothed adjusted age (which scales
    the branches) never exceeds the smoothed age (which scales the
    trunk). *)
Theorem adjusted_age_lags (w : world) :
  0 <= age (self w) <= 1 ->
  get_adjusted_age w = Ok (age (self w) ^ 2, w) /\
  0 <= age (self w) ^ 2 <= age (self w) /\
  (0 < age (self w) < 1 -> age (self w) ^ 2 < age (self w)) /\
  smoothen_curve (age (self w) ^ 2) <= smoothen_curve (age (self w)).
Proof.
  intros Ha. split; [reflexivity|].
  assert (0 <= age (self w) ^ 2 <= age (self w)) by nra.
  split; [assumption|]. split; [intros Hin; nra|].
  apply smoothen_curve_le; lra.
Qed.

Lemma adjusted_age_lags_witness :
  get_adjusted_age (at_current_age (1 / 2) (fresh_world Tree))
    = Ok ((1 / 2) ^ 2, at_current_age (1 / 2) (fresh_world Tree)) /\
  0 <= (1 / 2) ^ 2 <= 1 / 2 /\
  (0 < 1 / 2 < 1 -> (1 / 2) ^ 2 < 1 / 2) /\
  smoothen_curve ((1 / 2) ^ 2) <= smoothen_curve (1 / 2).
Proof.
  apply (adjusted_age_lags (at_current_age (1 / 2) (fresh_world Tree))).
  cbn. lra.
Defined.

(** A quantity [d] of the age is proportional to [f] on [0, 1]. *)
Definition proportional (f d : R -> R) : Prop :=
  exists k, forall a, 0 <= a <= 1 -> d a = k * f a.

(** The value of a computation, 0 when it raises. *)
Definition value_of (m : M R) (w : world) : R :=
  match m w with
  | Ok (v, _) => v
  | Raise _ => 0
  end.

Lemma squared_not_proportional K :
  K <> 0 ->
  ~ proportional smoothen_curve (fun a => K * smoothen_curve a ^ 2) /\
  ~ proportional (fun a => smoothen_curve (a ^ 2))
      (fun a => K * smoothen_curve a ^ 2).
Proof.
  intros HK. split; intros [k Hk].
  - pose proof (Hk 1 ltac:(lra)) as H1.
    pose proof (Hk (1 / 2) ltac:(lra)) as H2. cbv beta in H1, H2.
    rewrite smoothen_curve_1 in H1. rewrite smoothen_curve_half in H2. nra.
  - pose proof (Hk 1 ltac:(lra)) as H1.
    pose proof (Hk (1 / 2) ltac:(lra)) as H2. cbv beta in H1, H2.
    replace (1 ^ 2) with 1 in H1 by lra.
    replace ((1 / 2) ^ 2) with (1 / 4) in H2 by lra.
    rewrite smoothen_curve_1 in H1. rewrite smoothen_curve_half in H2.
    pose proof smoothen_curve_quarter as Hq.
    pose proof (smoothen_curve_range (1 / 4)) as Hr.
    assert (k = K) by lra. subst k.
    assert (K * (smoothen_curve (1 / 4) - 1 / 4) = 0) by lra.
    apply Rmult_integral in H. lra.
Qed.

(** X3. The size of a leaf of a generated flower is
    [leaf_size(width) * coefficient * smoothen_curve(age) ** 2]: proportional
    to the square of the smoothed age, and, on a canvas of positive width,
    for a leaf coefficient other than 0 and a [maxAge] above -1, proportional
    neither to the smoothed age nor to the smoothed adjusted age. *)
Theorem leaf_size_follows_the_squared_curve (w : world) (width : Z)
    (coefficient : R) :
  generated w ->
  class (self w) = Flower \/ class (self w) = CircularFlower ->
  (0 < width)%Z -> coefficient <> 0 ->
  (forall m, maxAge (self w) = Some m -> -1 < m) ->
  let ls := fun a =>
    value_of (Flower_leaf_ls width coefficient) (at_current_age a w) in
  proportional (fun a => smoothen_curve a ^ 2) ls /\
  ~ proportional smoothen_curve ls /\
  ~ proportional (fun a => smoothen_curve (a ^ 2)) ls.
Proof.
  intros Hgen Hc Hw Hco Hmax ls.
  destruct (generated_flower_params w Hgen Hc)
    as (m & dc & xc & sw & l & (Hm & Hac & Hdc & Hdc01) & Hf).
  destruct Hf as (_ & _ & Hl & _).
  specialize (Hmax m Hm).
  set (K := IZR width / 7 * dc * ((m + 1) / 2) * coefficient).
  assert (Els : forall a, ls a = K * smoothen_curve a ^ 2).
  { intros a. unfold ls, value_of, at_current_age.
    assert (W : wp (Flower_leaf_ls width coefficient)
                  (fun v _ => v = K * smoothen_curve a ^ 2)
                  (mkWorld (assign_age a (self w)) (random_state w)
                     (painter w))).
    { unfold Flower_leaf_ls. draw_steps. unfold K.
      cbn [age assign_age]. lra. }
    unfold wp in W.
    destruct (Flower_leaf_ls width coefficient _) as [[v w']|e];
      [exact W | contradiction]. }
  assert (HK : K <> 0).
  { unfold K. apply IZR_lt in Hw.
    assert (0 < IZR width / 7 * dc * ((m + 1) / 2)).
    { apply Rmult_lt_0_compat; [apply Rmult_lt_0_compat|]; lra. }
    apply Rmult_integral_contrapositive_currified; lra. }
  destruct (squared_not_proportional K HK) as [N1 N2].
  split; [|split].
  - exists K. intros a _. apply Els.
  - intros [k Hk]. apply N1. exists k. intros a Ha.
    rewrite <- Els. now apply Hk.
  - intros [k Hk]. apply N2. exists k. intros a Ha.
    rewrite <- Els. now apply Hk.
Qed.

Lemma leaf_size_follows_the_squared_curve_witness :
  let ls := fun a =>
    value_of (Flower_leaf_ls 700 1) (at_current_age a (grown_world Flower)) in
  proportional (fun a => smoothen_curve a ^ 2) ls /\
  ~ proportional smoothen_curve ls /\
  ~ proportional (fun a => smoothen_curve (a ^ 2)) ls.
Proof.
  apply (leaf_size_follows_the_squared_curve (grown_world Flower) 700 1).
  - apply grown_world_generated.
  - left. apply grown_world_facts.
  - reflexivity.
  - lra.
  - intros m Hm. destruct (grown_world_facts Flower) as (_ & _ & _ & _ & E).
    rewrite E in Hm. injection Hm as <-. lra.
Defined.








(** ** Further properties of the generation *)

(** X4. [Flower.generate] returns for every oracle, and leaves a deficit
    coefficient in [0.9, 1], the age coefficient [(maxAge + 1) / 2], an
    [x_coefficient] of absolute value in [0.4, 1] (the flower always leans to
    one side), exactly two leaves, the first turned to the left (-1) and the
    second to the right (1), at positions in [0.25 dc, 0.40 dc] of the stem
    with size coefficients in [0.9, 1.1], and a stem width that is the age
    coefficient times a number in [3.5, 4]. *)
Theorem Flower_generate_ranges (w : world) (m : R) :
  rng_ok (random_state w) ->
  maxAge (self w) = Some m ->
  exists w' dc xc u p1 c1 p2 c2,
    Flower_generate w = Ok (tt, w') /\
    deficit_coefficient (self w') = Some dc /\ 0.9 <= dc <= 1 /\
    age_coefficient (self w') = Some ((m + 1) / 2) /\
    x_position (self w') = Some (Lx_position xc) /\
    0.4 <= Rabs xc <= 1 /\
    leafs (self w') = Some [(p1, c1, -1); (p2, c2, 1)] /\
    dc * 0.25 <= p1 <= dc * 0.40 /\ dc * 0.25 <= p2 <= dc * 0.40 /\
    0.9 <= c1 <= 1.1 /\ 0.9 <= c2 <= 1.1 /\
    stem_width (self w') = Some (u * ((m + 1) / 2)) /\ 3.5 <= u <= 4.
Proof.
  intros Hg Hm.
  destruct (wp_unit_run Flower_generate
    (fun _ w' =>
       exists dc xc u p1 c1 p2 c2,
         deficit_coefficient (self w') = Some dc /\ 0.9 <= dc <= 1 /\
         age_coefficient (self w') = Some ((m + 1) / 2) /\
         x_position (self w') = Some (Lx_position xc) /\
         0.4 <= Rabs xc <= 1 /\
         leafs (self w') = Some [(p1, c1, -1); (p2, c2, 1)] /\
         dc * 0.25 <= p1 <= dc * 0.40 /\ dc * 0.25 <= p2 <= dc * 0.40 /\
         0.9 <= c1 <= 1.1 /\ 0.9 <= c2 <= 1.1 /\
         stem_width (self w') = Some (u * ((m + 1) / 2)) /\ 3.5 <= u <= 4) w)
    as (w' & E & dc & xc & u & p1 & c1 & p2 & c2 & H).
  - unfold Flower_generate. apply wp_bind.
    eapply Plant_generate_wp; [exact Hg | exact Hm |]. intros dc Hdc.
    wp_steps. unfold Flower_generateLeafs. rewrite range_2.
    cbn [comprehension]. change (2 =? 2)%Z with true. cbv iota.
    wp_steps.
    replace ((0 - 1 / 2) * 2) with (-1) by lra.
    replace ((1 - 1 / 2) * 2) with 1 by lra.
    pose proof (uniform_range 0.4 1 r ltac:(lra) Hr) as Hu.
    pose proof (uniform_range (dc * 0.25) (dc * 0.40) r0 ltac:(lra) Hr0).
    pose proof (uniform_range 0.9 1.1 r1 ltac:(lra) Hr1).
    pose proof (uniform_range (dc * 0.25) (dc * 0.40) r2 ltac:(lra) Hr2).
    pose proof (uniform_range 0.9 1.1 r3 ltac:(lra) Hr3).
    pose proof (uniform_range 3.5 4 r4 ltac:(lra) Hr4).
    exists dc, ((0.4 + (1 - 0.4) * r) * s), (3.5 + (4 - 3.5) * r4).
    do 4 eexists.
    repeat match goal with |- _ /\ _ => split end;
      try (reduce_world; reflexivity); try lra.
    + destruct Hs as [-> | ->]; unfold Rabs; destruct (Rcase_abs _); lra.
    + destruct Hs as [-> | ->]; unfold Rabs; destruct (Rcase_abs _); lra.
  - exists w', dc, xc, u, p1, c1, p2, c2. split; [exact E | exact H].
Qed.

Lemma Flower_generate_ranges_witness :
  exists w' dc xc u p1 c1 p2 c2,
    Flower_generate
      (mkWorld (assign_maxAge (1 / 2) (new_plant Flower)) zero_rng [])
    = Ok (tt, w') /\
    deficit_coefficient (self w') = Some dc /\ 0.9 <= dc <= 1 /\
    age_coefficient (self w') = Some ((1 / 2 + 1) / 2) /\
    x_position (self w') = Some (Lx_position xc) /\
    0.4 <= Rabs xc <= 1 /\
    leafs (self w') = Some [(p1, c1, -1); (p2, c2, 1)] /\
    dc * 0.25 <= p1 <= dc * 0.40 /\ dc * 0.25 <= p2 <= dc * 0.40 /\
    0.9 <= c1 <= 1.1 /\ 0.9 <= c2 <= 1.1 /\
    stem_width (self w') = Some (u * ((1 / 2 + 1) / 2)) /\ 3.5 <= u <= 4.
Proof.
  apply Flower_generate_ranges.
  - exact zero_rng_ok.
  - reflexivity.
Defined.

(** A circle of an orange tree as [OrangeTree.generate] makes it: its size
    and its position on the branch. *)
Definition circle_ok (dc : R) (c : R * R) : Prop :=
  dc * 0.30 <= fst c <= dc * 0.37 /\ dc * 0.9 <= snd c <= dc.

Lemma OrangeTree_generate_bounds_wp w m Q :
  rng_ok (random_state w) ->
  maxAge (self w) = Some m ->
  (forall g' dc bs0 h1 u1 h2 u2 c1 c2 c3,
     rng_ok g' -> 0.9 <= dc <= 1 ->
     dc * 0.45 <= h1 <= dc * 0.55 -> dc * 0.45 <= h2 <= dc * 0.55 ->
     0.4 <= u1 <= 0.6 -> 0.4 <= u2 <= 0.6 ->
     circle_ok dc c1 -> circle_ok dc c2 -> circle_ok dc c3 ->
     Q tt (mkWorld
             (assign_branch_circles [c1; c2; c3]
                (assign_branches [(h1, -1 * acos u1); (h2, 1 * acos u2)]
                   (Tree_generated bs0 (Plant_generated m dc (self w)))))
             g' (painter w))) ->
  wp OrangeTree_generate Q w.
Proof.
  intros Hg Hm H. unfold OrangeTree_generate. apply wp_bind.
  eapply Tree_generate_wp; [exact Hg | exact Hm |].
  intros g1 dc bs0 Hg1 Hdc _ _. apply wp_bind.
  unfold Tree_generateBranches. rewrite range_2. cbn [comprehension].
  change (2 =? 2)%Z with true. cbv iota. wp_steps.
  pose proof (uniform_range (dc * 0.45) (dc * 0.55) r ltac:(lra) Hr).
  pose proof (uniform_range 0.4 0.6 r0 ltac:(lra) Hr0).
  apply wp_py_acos; [lra|]. wp_steps.
  pose proof (uniform_range (dc * 0.45) (dc * 0.55) r1 ltac:(lra) Hr1).
  pose proof (uniform_range 0.4 0.6 r2 ltac:(lra) Hr2).
  apply wp_py_acos; [lra|]. wp_steps.
  change (range (Z.of_nat (length _) + 1)) with [0%Z; 1%Z; 2%Z].
  cbn [comprehension]. wp_steps.
  replace ((0 - 1 / 2) * 2) with (-1) by lra.
  replace ((1 - 1 / 2) * 2) with 1 by lra.
  eapply H; try eassumption; try exact Hg1; unfold circle_ok; cbn [fst snd];
    split; apply uniform_range; try assumption; lra.
Qed.

(** X5. [OrangeTree.generate] returns for every oracle and every [maxAge],
    with exactly two branches, the first turned to one side (a negative
    rotation) and the second to the other, both at a height in
    [0.45 dc, 0.55 dc] of the trunk, and with exactly three circles, of a
    size in [0.30 dc, 0.37 dc] and a position in [0.9 dc, dc]. *)
Theorem OrangeTree_generate_shape (w : world) (m : R) :
  rng_ok (random_state w) ->
  maxAge (self w) = Some m ->
  exists w' dc h1 r1 h2 r2 c1 c2 c3,
    OrangeTree_generate w = Ok (tt, w') /\
    deficit_coefficient (self w') = Some dc /\ 0.9 <= dc <= 1 /\
    branches (self w') = Some [(h1, r1); (h2, r2)] /\
    dc * 0.45 <= h1 <= dc * 0.55 /\ dc * 0.45 <= h2 <= dc * 0.55 /\
    r1 < 0 < r2 /\
    branch_circles (self w') = Some [c1; c2; c3] /\
    circle_ok dc c1 /\ circle_ok dc c2 /\ circle_ok dc c3.
Proof.
  intros Hg Hm.
  destruct (wp_unit_run OrangeTree_generate
    (fun _ w' =>
       exists dc h1 r1 h2 r2 c1 c2 c3,
         deficit_coefficient (self w') = Some dc /\ 0.9 <= dc <= 1 /\
         branches (self w') = Some [(h1, r1); (h2, r2)] /\
         dc * 0.45 <= h1 <= dc * 0.55 /\ dc * 0.45 <= h2 <= dc * 0.55 /\
         r1 < 0 < r2 /\
         branch_circles (self w') = Some [c1; c2; c3] /\
         circle_ok dc c1 /\ circle_ok dc c2 /\ circle_ok dc c3) w)
    as (w' & E & dc & h1 & r1 & h2 & r2 & c1 & c2 & c3 & H).
  - eapply OrangeTree_generate_bounds_wp; [exact Hg | exact Hm |].
    intros g' dc bs0 h1 u1 h2 u2 c1 c2 c3 _ Hdc Hh1 Hh2 Hu1 Hu2 Hc1 Hc2 Hc3.
    exists dc, h1, (-1 * acos u1), h2, (1 * acos u2), c1, c2, c3.
    cbn [self].
    pose proof (acos_bound_lt u1 ltac:(lra)).
    pose proof (acos_bound_lt u2 ltac:(lra)).
    repeat match goal with |- _ /\ _ => split end;
      try reflexivity; try assumption; try lra.
  - exists w', dc, h1, r1, h2, r2, c1, c2, c3. split; [exact E | exact H].
Qed.

Lemma OrangeTree_generate_shape_witness :
  exists w' dc h1 r1 h2 r2 c1 c2 c3,
    OrangeTree_generate
      (mkWorld (assign_maxAge 5 (new_plant OrangeTree)) zero_rng [])
    = Ok (tt, w') /\
    deficit_coefficient (self w') = Some dc /\ 0.9 <= dc <= 1 /\
    branches (self w') = Some [(h1, r1); (h2, r2)] /\
    dc * 0.45 <= h1 <= dc * 0.55 /\ dc * 0.45 <= h2 <= dc * 0.55 /\
    r1 < 0 < r2 /\
    branch_circles (self w') = Some [c1; c2; c3] /\
    circle_ok dc c1 /\ circle_ok dc c2 /\ circle_ok dc c3.
Proof.
  apply (OrangeTree_generate_shape _ 5).
  - exact zero_rng_ok.
  - reflexivity.
Defined.

(** ** Further properties of the drawing *)






(** The depth of the painter's stack of saved states after the calls [cs],
    from the depth [d]; [None] when a state is restored that was not
    saved. *)
Fixpoint saved_depth (d : nat) (cs : list (call R)) : option nat :=
  match cs with
  | [] => Some d
  | Save :: cs' => saved_depth (S d) cs'
  | Restore :: cs' =>
      match d with
      | O => None
      | S d' => saved_depth d' cs'
      end
  | _ :: cs' => saved_depth d cs'
  end.

Lemma saved_depth_app d cs1 cs2 :
  saved_depth d (cs1 ++ cs2) =
  match saved_depth d cs1 with
  | Some d' => saved_depth d' cs2
  | None => None
  end.
Proof.
  revert d. induction cs1 as [|c cs1 IH]; intros d; [reflexivity|].
  destruct c; cbn [app saved_depth]; try apply IH.
  destruct d; [reflexivity | apply IH].
Qed.

Lemma saved_depth_flat_map {A} (f : A -> list (call R)) l :
  (forall v d, saved_depth d (f v) = Some d) ->
  forall d, saved_depth d (flat_map f l) = Some d.
Proof.
  intros Hf. induction l as [|v l IH]; intros d; [reflexivity|].
  cbn [flat_map]. now rewrite saved_depth_app, Hf.
Qed.

Lemma leaf_calls_depth path sx sy ls position rotation d :
  saved_depth d (leaf_calls path sx sy ls position rotation) = Some d.
Proof.
  unfold leaf_calls. destruct (Req_dec_T sy 0), (Rlt_dec rotation 0);
    reflexivity.
Qed.

Lemma Flower_calls_depth xc dc ac sw a ls width height d :
  saved_depth d (Flower_calls xc dc ac sw a ls width height) = Some d.
Proof.
  unfold Flower_calls. rewrite saved_depth_app. cbn [saved_depth].
  apply saved_depth_flat_map. intros [[position coefficient] rotation] d'.
  apply leaf_calls_depth.
Qed.

Lemma Tree_calls_depth dc ac a bs width height d :
  saved_depth d (Tree_calls dc ac a bs width height) = Some d.
Proof.
  unfold Tree_calls. rewrite saved_depth_app. cbn [saved_depth].
  apply saved_depth_flat_map. intros [h rotation] d'. reflexivity.
Qed.

Lemma calls_of_depth P a width height d :
  saved_depth d (calls_of P a width height) = Some d.
Proof.
  destruct P; cbn [calls_of].
  - apply Flower_calls_depth.
  - unfold CircularFlower_calls, CircularFlower_head_calls.
    rewrite saved_depth_app, Flower_calls_depth.
    rewrite saved_depth_app. cbn [saved_depth].
    rewrite saved_depth_app, saved_depth_flat_map; [reflexivity|].
    intros _ d'. destruct f; reflexivity.
  - apply Tree_calls_depth.
  - unfold OrangeTree_calls, OrangeTree_head_calls, fruit_calls.
    destruct b1, b2. rewrite saved_depth_app. cbn [app saved_depth].
    apply Tree_calls_depth.
  - unfold GreenTree_calls, GreenTree_head_calls.
    rewrite saved_depth_app. cbn [saved_depth]. apply Tree_calls_depth.
  - unfold DoubleGreenTree_calls, DoubleGreenTree_head_calls, GreenTree_calls,
      GreenTree_head_calls. cbv zeta.
    rewrite !saved_depth_app. cbn [saved_depth]. apply Tree_calls_depth.
Qed.

(** X7. On a generated plant, the calls of [draw] restore every painter
    state they save and no other: read from an empty stack of saved states
    they never restore a state that was not saved, and they end with the
    stack empty again. The two calls that move the origin come first,
    outside of any saved state, so [draw] leaves the painter translated and
    flipped. *)
Theorem draw_balances_save_and_restore (w : world) (width height : Z) :
  generated w ->
  exists w' shape,
    draw width height w = Ok (tt, w') /\
    painter w' =
      painter w
      ++ [Translate (IZR width / 2) (IZR height); Scale 1 (-1)] ++ shape /\
    saved_depth 0 shape = Some 0%nat.
Proof.
  intros Hgen. destruct (generated_params w Hgen) as [P HP].
  destruct w as [p g tr]. cbn [self painter] in *.
  rewrite (draw_generated _ _ _ _ _ _ HP). do 2 eexists.
  split; [reflexivity|]. split; [reflexivity|]. apply calls_of_depth.
Qed.

Lemma draw_balances_save_and_restore_witness :
  exists w' shape,
    draw 320 240 (grown_world CircularFlower) = Ok (tt, w') /\
    painter w' =
      painter (grown_world CircularFlower)
      ++ [Translate (IZR 320 / 2) (IZR 240); Scale 1 (-1)] ++ shape /\
    saved_depth 0 shape = Some 0%nat.
Proof.
  apply draw_balances_save_and_restore. apply grown_world_generated.
Defined.

(** X8. On a generated [GreenTree] or [DoubleGreenTree] with [maxAge] in
    [-1, 1] and a height that is not negative, [self.offset(height)] returns
    [self.base_height(height * 0.3 * smoothen_curve(self.age))], at most
    [0.3 / 1.7] of the height: the cap at 95% of the height is never the
    smaller of the two. *)
Theorem canopy_offset_is_never_capped (w : world) (height : Z) (m : R) :
  generated w ->
  class (self w) = GreenTree \/ class (self w) = DoubleGreenTree ->
  maxAge (self w) = Some m -> -1 <= m <= 1 ->
  (0 <= height)%Z ->
  exists v b,
    invoke_offset (IZR height) w = Ok (v, w) /\
    invoke base_height (IZR height * 0.3 * smoothen_curve (age (self w))) w
      = Ok (b, w) /\
    v = b /\ 0 <= v <= 0.3 / 1.7 * IZR height.
Proof.
  intros Hgen Hc Hm Hm1 Hh. destruct (generated_params w Hgen) as [P HP].
  assert (H : exists dc bs,
             has_Plant (self w) m dc /\ has_Tree (self w) dc bs /\
             has_GreenTree (self w)).
  { destruct P; cbn [has_params] in HP; destruct HP as (Hc' & HP);
      rewrite Hc' in Hc; destruct Hc as [Hc|Hc]; try discriminate Hc;
      destruct HP as (HPl & HT & HG); pose proof HPl as (E & _);
      rewrite Hm in E; injection E as ->; exists dc, bs;
      (split; [exact HPl|]); (split; [exact HT|]); apply HG. }
  destruct H as (dc & bs & (_ & Hac & Hdc & Hdc01) & HT & HG).
  destruct HT as (_ & _ & Hbh & _). destruct HG as (_ & _ & Ho).
  destruct w as [p g tr]. cbn [self] in *.
  set (b := IZR height * 0.3 * smoothen_curve (age p) / 1.7 * dc
            * ((m + 1) / 2)).
  assert (Eb : invoke base_height (IZR height * 0.3 * smoothen_curve (age p))
                 (mkWorld p g tr) = Ok (b, mkWorld p g tr)).
  { unfold invoke, bind, attr. cbn [self]. rewrite Hbh.
    cbv beta iota. unfold call_lambda, bind, attr. cbn [self].
    rewrite Hdc. cbv beta iota. cbn [self]. rewrite Hac. reflexivity. }
  assert (Ev : GreenTree_offset dc ((m + 1) / 2) (age p) height = b).
  { apply GreenTree_offset_uncapped; [exact Hh | lra | lra]. }
  exists b, b. split; [|split; [exact Eb|split; [reflexivity|]]].
  - assert (W : wp (invoke_offset (IZR height))
                  (fun v w' => v = b /\ w' = mkWorld p g tr)
                  (mkWorld p g tr)).
    { eapply wp_invoke_offset; try eassumption. now rewrite Ev. }
    unfold wp in W.
    destruct (invoke_offset (IZR height) (mkWorld p g tr)) as [[v w']|e];
      [|contradiction].
    destruct W as [-> ->]. reflexivity.
  - assert (Hdc' : 0 <= dc <= 1) by lra.
    assert (Hac' : 0 <= (m + 1) / 2 <= 1) by lra.
    pose proof (product_le_1 _ _ _ (smoothen_curve_range (age p)) Hdc' Hac')
      as Hp.
    apply IZR_le in Hh. unfold b.
    replace (IZR height * 0.3 * smoothen_curve (age p) / 1.7 * dc
             * ((m + 1) / 2))
      with (0.3 / 1.7 * IZR height
            * (smoothen_curve (age p) * dc * ((m + 1) / 2))) by lra.
    nra.
Qed.

Lemma canopy_offset_is_never_capped_witness :
  exists v b,
    invoke_offset (IZR 400) (grown_world GreenTree)
      = Ok (v, grown_world GreenTree) /\
    invoke base_height
      (IZR 400 * 0.3 * smoothen_curve (age (self (grown_world GreenTree))))
      (grown_world GreenTree)
      = Ok (b, grown_world GreenTree) /\
    v = b /\ 0 <= v <= 0.3 / 1.7 * IZR 400.
Proof.
  apply (canopy_offset_is_never_capped (grown_world GreenTree) 400 1).
  - apply grown_world_generated.
  - left. apply grown_world_facts.
  - apply grown_world_facts.
  - lra.
  - discriminate.
Defined.

(** X9. [generate] called before any [set_max_age] raises a [TypeError]
    ([None + 1]) for every class; once [maxAge] is set it returns, freezes a
    new set of parameters and keeps [age], [maxAge], [x], [y] and the
    painter. *)
Theorem generate_needs_maxAge (w : world) :
  rng_ok (random_state w) ->
  (maxAge (self w) = None -> generate w = Raise TypeError) /\
  (maxAge (self w) <> None ->
   exists w' P,
     generate w = Ok (tt, w') /\
     has_params (self w') P /\
     age (self w') = age (self w) /\ maxAge (self w') = maxAge (self w) /\
     x (self w') = x (self w) /\ y (self w') = y (self w) /\
     painter w' = painter w).
Proof.
  intros Hg. split.
  - intros Hm. unfold generate.
    assert (E : Plant_generate w = Raise TypeError).
    { unfold Plant_generate, bind, maxAge_number. now rewrite Hm. }
    destruct (class (self w));
      unfold Flower_generate, CircularFlower_generate, Flower_generate,
        OrangeTree_generate, DoubleGreenTree_generate, GreenTree_generate,
        Tree_generate, bind;
      now rewrite E.
  - intros Hm. destruct (maxAge (self w)) as [m|] eqn:E; [|contradiction].
    destruct (wp_unit_run _ _ _ (generate_wp w m Hg E))
      as (w' & Er & _ & Hp & Ha & _ & Hx & Hy & Hm' & P & HP).
    exists w', P. rewrite E in Hm'. auto 10.
Qed.

Lemma generate_needs_maxAge_witness :
  (maxAge (self (fresh_world Tree)) = None ->
   generate (fresh_world Tree) = Raise TypeError) /\
  (maxAge (self (fresh_world Tree)) <> None ->
   exists w' P,
     generate (fresh_world Tree) = Ok (tt, w') /\
     has_params (self w') P /\
     age (self w') = age (self (fresh_world Tree)) /\
     maxAge (self w') = maxAge (self (fresh_world Tree)) /\
     x (self w') = x (self (fresh_world Tree)) /\
     y (self w') = y (self (fresh_world Tree)) /\
     painter w' = painter (fresh_world Tree)).
Proof. apply generate_needs_maxAge. exact zero_rng_ok. Defined.

(** ** Drawable.save and class Canvas *)

(** [painter = QPainter(device)]: the body paints on a new painter, whose
    calls are returned when it is done; the painter of the caller is not
    touched. *)
Definition QPainter_on {A} (body : M A) : M (list (call R)) :=
  fun w =>
    match body (mkWorld (self w) (random_state w) []) with
    | Ok (_, w') =>
        Ok (painter w', mkWorld (self w') (random_state w') (painter w))
    | Raise e => Raise e
    end.

(** The file written through a [QSvgGenerator]. *)
Record QSvgGenerator : Type := mkQSvgGenerator {
  fileName : String.string;
  size : Z * Z;
  viewBox : Z * Z * Z * Z;
  content : list (call R)
}.

(** [Drawable.save] *)
Definition Drawable_save (path : String.string) (width height : Z)
    : M QSvgGenerator :=
  let fileName := path in
  let size := (width, height) in
  let viewBox := (0%Z, 0%Z, width, height) in
  calls <- QPainter_on (draw width height) ;;
  ret (mkQSvgGenerator fileName size viewBox calls).

(** The only drawable of a world is its plant. *)
Inductive Drawable : Type :=
| the_plant.

(** A canvas: its drawable, if any, and the size of the widget. *)
Record Canvas : Type := mkCanvas {
  object : option Drawable;
  Canvas_width : Z;
  Canvas_height : Z
}.

(** [Canvas.__init__] *)
Definition Canvas__init__ (width height : Z) : Canvas :=
  mkCanvas None width height.

(** [Canvas.set_drawable] *)
Definition Canvas_set_drawable (obj : Drawable) (cv : Canvas) : Canvas :=
  mkCanvas (Some obj) (Canvas_width cv) (Canvas_height cv).

(** [Canvas.save] *)
Definition Canvas_save (cv : Canvas) (path : String.string)
    : M QSvgGenerator :=
  match object cv with
  | None => raise AttributeError
  | Some the_plant => Drawable_save path (Canvas_width cv) (Canvas_height cv)
  end.

(** What a [paintEvent] leaves on the widget: the render hint and the
    clipping rectangle of its painter, the calls painted, and whether
    [painter.end()] was reached. *)
Record painting : Type := mkPainting {
  antialiasing : bool;
  clipRect : Z * Z * Z * Z;
  painted : list (call R);
  ended : bool
}.

(** [Canvas.paintEvent] *)
Definition Canvas_paintEvent (cv : Canvas) : M painting :=
  let antialiasing := true in
  let clipRect := (0%Z, 0%Z, Canvas_width cv, Canvas_height cv) in
  match object cv with
  | None => ret (mkPainting antialiasing clipRect [] false)
  | Some the_plant =>
      calls <- QPainter_on
                 (paint Save ;;
                  draw (Canvas_width cv) (Canvas_height cv) ;;
                  paint Restore) ;;
      ret (mkPainting antialiasing clipRect calls true)
  end.

(** What [draw] paints does not depend on what was painted before. *)
Lemma draw_log p g width height :
  invariant (mkWorld p g []) ->
  exists p' D,
    (forall tr,
       draw width height (mkWorld p g tr) = Ok (tt, mkWorld p' g (tr ++ D)))
    /\ (forall d, saved_depth d D = Some d)
    /\ invariant (mkWorld p' g [])
    /\ (maxAge p = None -> p' = p /\ D = [])
    /\ (maxAge p <> None ->
        maxAge p' = maxAge p /\
        exists shape,
          D = [Translate (IZR width / 2) (IZR height); Scale 1 (-1)]
              ++ shape).
Proof.
  intros [Hg [Hm|[P HP]]]; cbn [self random_state] in *.
  - exists p, []. split; [|split; [|split; [|split]]].
    + intros tr. rewrite app_nil_r. now apply draw_unset.
    + reflexivity.
    + split; [exact Hg | now left].
    + auto.
    + intros H. contradiction.
  - exists (after__draw P p (Z.min width height) (Z.min width height)).
    eexists. split; [|split; [|split; [|split]]].
    + intros tr. apply (draw_generated _ _ _ _ _ _ HP).
    + intros d. cbn [app saved_depth]. apply calls_of_depth.
    + split; [exact Hg | right]. exists P. cbn [self].
      now apply has_params_after__draw.
    + intros Hm. exfalso.
      destruct P; cbn [has_params] in HP; unfold has_Plant in HP;
        destruct HP as (_ & (E & _) & _); rewrite Hm in E; discriminate E.
    + intros _. split; [|eexists; reflexivity].
      destruct P; reflexivity.
Qed.

(** X10. From every state the public methods can reach, [Canvas.save] on a
    canvas with a drawable returns, consumes no randomness and leaves the
    caller's painter alone; the file has the given name and the size of the
    widget, its view box is the whole widget, and it holds exactly the calls
    that [paintEvent] paints on the widget between its [painter.save()] and
    [painter.restore()]. *)
Theorem Canvas_save_writes_what_is_shown (w : world) (cv : Canvas)
    (path : String.string) :
  reachable w -> object cv = Some the_plant ->
  exists svg w1 shown w2,
    Canvas_save cv path w = Ok (svg, w1) /\
    Canvas_paintEvent cv w = Ok (shown, w2) /\
    fileName svg = path /\
    size svg = (Canvas_width cv, Canvas_height cv) /\
    viewBox svg = (0%Z, 0%Z, Canvas_width cv, Canvas_height cv) /\
    painted shown = [Save] ++ content svg ++ [Restore] /\
    random_state w1 = random_state w /\ painter w1 = painter w /\
    reachable w1 /\ w2 = w1.
Proof.
  intros Hr Ho.
  pose proof (reachable_invariant _ (reachable_painter w [] Hr)) as Hi.
  destruct w as [p g tr]. cbn [self random_state] in Hi.
  destruct (draw_log p g (Canvas_width cv) (Canvas_height cv) Hi)
    as (p' & D & HD & _).
  assert (Hr1 : reachable (mkWorld p' g tr)).
  { apply (reachable_painter (mkWorld p' g ([] ++ D)) tr).
    apply (reachable_call (mkWorld p g [])
             (Draw (Canvas_width cv) (Canvas_height cv))).
    - exact (reachable_painter (mkWorld p g tr) [] Hr).
    - cbn [call_method]. apply (HD []). }
  exists (mkQSvgGenerator path (Canvas_width cv, Canvas_height cv)
            (0%Z, 0%Z, Canvas_width cv, Canvas_height cv) D),
    (mkWorld p' g tr),
    (mkPainting true (0%Z, 0%Z, Canvas_width cv, Canvas_height cv)
       ([Save] ++ D ++ [Restore]) true),
    (mkWorld p' g tr).
  unfold Canvas_save, Canvas_paintEvent, Drawable_save, QPainter_on, bind,
    ret, paint.
  rewrite Ho. cbn [self random_state painter app].
  rewrite (HD []), (HD [Save]). cbn [self random_state painter app].
  repeat split; exact Hr1.
Qed.

Lemma Canvas_save_writes_what_is_shown_witness :
  exists svg w1 shown w2,
    Canvas_save (Canvas_set_drawable the_plant (Canvas__init__ 500 400))
      String.EmptyString (grown_world OrangeTree) = Ok (svg, w1) /\
    Canvas_paintEvent (Canvas_set_drawable the_plant (Canvas__init__ 500 400))
      (grown_world OrangeTree) = Ok (shown, w2) /\
    fileName svg = String.EmptyString /\
    size svg = (500%Z, 400%Z) /\
    viewBox svg = (0%Z, 0%Z, 500%Z, 400%Z) /\
    painted shown = [Save] ++ content svg ++ [Restore] /\
    random_state w1 = random_state (grown_world OrangeTree) /\
    painter w1 = painter (grown_world OrangeTree) /\
    reachable w1 /\ w2 = w1.
Proof.
  apply (Canvas_save_writes_what_is_shown (grown_world OrangeTree)
           (Canvas_set_drawable the_plant (Canvas__init__ 500 400))).
  - apply grown_world_generated.
  - reflexivity.
Defined.

(** X11. A [paintEvent] on a reachable plant never raises. Without a
    drawable it paints nothing and returns before [painter.end()]; with a
    drawable whose [maxAge] is not set it paints only the pair
    [save, restore]; with a generated plant it paints [save], the two calls
    that move the origin, the shape, and [restore], and the calls are
    balanced, so the translation and the flip made by [draw] are undone
    before [painter.end()]. The painter is always set to antialiasing and
    clipped to the widget. *)
Theorem paintEvent_paints_inside_a_saved_state (w : world) (cv : Canvas) :
  reachable w ->
  exists shown w',
    Canvas_paintEvent cv w = Ok (shown, w') /\
    antialiasing shown = true /\
    clipRect shown = (0%Z, 0%Z, Canvas_width cv, Canvas_height cv) /\
    saved_depth 0 (painted shown) = Some 0%nat /\
    match object cv with
    | None => painted shown = [] /\ ended shown = false /\ w' = w
    | Some _ =>
        ended shown = true /\
        (maxAge (self w) = None ->
         painted shown = [Save; Restore] /\ w' = w) /\
        (maxAge (self w) <> None ->
         exists shape,
           painted shown =
             [Save; Translate (IZR (Canvas_width cv) / 2)
                      (IZR (Canvas_height cv)); Scale 1 (-1)]
             ++ shape ++ [Restore])
    end.
Proof.
  intros Hr. unfold Canvas_paintEvent.
  destruct (object cv) as [[]|].
  - pose proof (reachable_invariant _ (reachable_painter w [] Hr)) as Hi.
    destruct w as [p g tr]. cbn [self random_state] in *.
    destruct (draw_log p g (Canvas_width cv) (Canvas_height cv) Hi)
      as (p' & D & HD & Hd & _ & Hn & Hs).
    unfold QPainter_on, bind, ret, paint.
    cbn [self random_state painter app]. rewrite (HD [Save]).
    cbn [self random_state painter app]. do 2 eexists.
    split; [reflexivity|]. cbn [antialiasing clipRect painted ended].
    split; [reflexivity|]. split; [reflexivity|]. split; [|split; [|split]].
    + cbn [saved_depth]. rewrite saved_depth_app, Hd. reflexivity.
    + reflexivity.
    + intros Hm. destruct (Hn Hm) as [-> ->]. now split.
    + intros Hm. destruct (Hs Hm) as (_ & shape & ->). exists shape.
      reflexivity.
  - exists (mkPainting true (0%Z, 0%Z, Canvas_width cv, Canvas_height cv)
              [] false), w.
    repeat split.
Qed.

Lemma paintEvent_paints_inside_a_saved_state_witness :
  exists shown w',
    Canvas_paintEvent (Canvas_set_drawable the_plant (Canvas__init__ 500 400))
      (grown_world DoubleGreenTree) = Ok (shown, w') /\
    antialiasing shown = true /\
    clipRect shown = (0%Z, 0%Z, 500%Z, 400%Z) /\
    saved_depth 0 (painted shown) = Some 0%nat /\
    (ended shown = true /\
     (maxAge (self (grown_world DoubleGreenTree)) = None ->
      painted shown = [Save; Restore] /\ w' = grown_world DoubleGreenTree) /\
     (maxAge (self (grown_world DoubleGreenTree)) <> None ->
      exists shape,
        painted shown =
          [Save; Translate (IZR 500 / 2) (IZR 400); Scale 1 (-1)]
          ++ shape ++ [Restore])).
Proof.
  apply (paintEvent_paints_inside_a_saved_state (grown_world DoubleGreenTree)
           (Canvas_set_drawable the_plant (Canvas__init__ 500 400))).
  apply grown_world_generated.
Defined.

Import String.StringSyntax.
Delimit Scope string_scope with string.

(** ** Florodoro.update_time_label *)

(** [a // b], [a % b] and [int(v)] on floats, for [b] other than zero. *)
Definition py_floordiv (a b : R) : R := IZR (Int_part (a / b)).

Definition py_mod (a b : R) : R := a - b * IZR (Int_part (a / b)).

Definition py_int (v : R) : Z :=
  if Rle_dec 0 v then Int_part v else (- Int_part (- v))%Z.

(** [str(n)] *)
Definition str (n : Z) : String.string :=
  DecimalString.NilZero.string_of_int (Z.to_int n).

(** The two formats that [update_time_label] asks of [QTime.toString]. *)
Inductive time_format : Type :=
| format_ss
| format_mm_ss.

Definition two_digits (n : Z) : String.string :=
  if (n <? 10)%Z then String.append "0"%string (str n) else str n.

(** [QTime(h, m, s).toString(format)]; the text of an invalid time is
    empty. *)
Definition QTime_toString (h m s : Z) (f : time_format) : String.string :=
  if ((0 <=? h) && (h <? 24) && (0 <=? m) && (m <? 60)
      && (0 <=? s) && (s <? 60))%Z
  then
    match f with
    | format_ss => String.append ":"%string (two_digits s)
    | format_mm_ss =>
        String.append ":"%string
          (String.append (two_digits m) (String.append ":"%string (two_digits s)))
    end
  else String.EmptyString.

(** [update_time_label]: the text set on [self.main_label]. *)
Definition update_time_label (time : R) : String.string :=
  let hours := py_int (py_floordiv time 3600) in
  let minutes := py_int (py_mod (py_floordiv time 60) 60) in
  let seconds := py_int (py_mod time 60) in
  if (hours =? 0)%Z then
    if (minutes =? 0)%Z then str seconds
    else String.append (str minutes) (QTime_toString 0 0 seconds format_ss)
  else
    String.append (str hours) (QTime_toString 0 minutes seconds format_mm_ss).

Lemma Int_part_unique r z : IZR z <= r < IZR z + 1 -> Int_part r = z.
Proof. intros H. symmetry. apply Int_part_spec. lra. Qed.

Lemma py_int_IZR z : py_int (IZR z) = z.
Proof.
  unfold py_int. destruct (Rle_dec 0 (IZR z)).
  - apply Int_part_unique. lra.
  - rewrite <- opp_IZR, (Int_part_unique (IZR (- z)) (- z)); [lia | lra].
Qed.

Lemma py_int_floor v : 0 <= v -> py_int v = Int_part v.
Proof. intros H. unfold py_int. now destruct (Rle_dec 0 v). Qed.

(** The three fields of the label. *)
Lemma update_time_label_fields time :
  let t := Int_part time in
  py_int (py_floordiv time 3600) = (t / 3600)%Z /\
  py_int (py_mod (py_floordiv time 60) 60) = ((t / 60) mod 60)%Z /\
  py_int (py_mod time 60) = (t mod 60)%Z.
Proof.
  intros t. destruct (base_Int_part time) as [Hlo Hhi]. fold t in Hlo, Hhi.
  assert (H60 : Int_part (time / 60) = (t / 60)%Z).
  { apply Int_part_unique.
    pose proof (Z.div_mod t 60 ltac:(lia)) as E.
    pose proof (Z.mod_pos_bound t 60 ltac:(lia)) as B.
    assert (E' : IZR t = 60 * IZR (t / 60) + IZR (t mod 60)).
    { rewrite E at 1. now rewrite plus_IZR, mult_IZR. }
    assert (0 <= IZR (t mod 60) <= 59).
    { split; [apply (IZR_le 0) | apply (IZR_le _ 59)]; lia. }
    lra. }
  assert (H3600 : Int_part (time / 3600) = (t / 3600)%Z).
  { apply Int_part_unique.
    pose proof (Z.div_mod t 3600 ltac:(lia)) as E.
    pose proof (Z.mod_pos_bound t 3600 ltac:(lia)) as B.
    assert (E' : IZR t = 3600 * IZR (t / 3600) + IZR (t mod 3600)).
    { rewrite E at 1. now rewrite plus_IZR, mult_IZR. }
    assert (0 <= IZR (t mod 3600) <= 3599).
    { split; [apply (IZR_le 0) | apply (IZR_le _ 3599)]; lia. }
    lra. }
  split; [|split].
  - unfold py_floordiv. now rewrite py_int_IZR, H3600.
  - unfold py_mod, py_floordiv. rewrite H60.
    replace (IZR (t / 60) / 60) with (IZR (t / 60 / 60) + IZR ((t / 60) mod 60) / 60).
    2:{ pose proof (Z.div_mod (t / 60) 60 ltac:(lia)) as E.
        rewrite E at 3. rewrite plus_IZR, mult_IZR. lra. }
    pose proof (Z.mod_pos_bound (t / 60) 60 ltac:(lia)) as B.
    assert (0 <= IZR ((t / 60) mod 60) <= 59).
    { split; [apply (IZR_le 0) | apply (IZR_le _ 59)]; lia. }
    rewrite (Int_part_unique _ (t / 60 / 60)) by lra.
    replace (IZR (t / 60) - 60 * IZR (t / 60 / 60))
      with (IZR ((t / 60) mod 60)).
    2:{ pose proof (Z.div_mod (t / 60) 60 ltac:(lia)) as E.
        rewrite E at 2. rewrite plus_IZR, mult_IZR. lra. }
    apply py_int_IZR.
  - unfold py_mod. rewrite H60.
    pose proof (Z.div_mod t 60 ltac:(lia)) as E.
    pose proof (Z.mod_pos_bound t 60 ltac:(lia)) as B.
    assert (E' : IZR t = 60 * IZR (t / 60) + IZR (t mod 60)).
    { rewrite E at 1. now rewrite plus_IZR, mult_IZR. }
    assert (0 <= IZR (t mod 60) <= 59).
    { split; [apply (IZR_le 0) | apply (IZR_le _ 59)]; lia. }
    rewrite py_int_floor by lra. apply Int_part_unique. lra.
Qed.

(** X12. For every time, negative ones included, the label decodes to the
    whole seconds of the time: there are hours [h], minutes [m] in [0, 60)
    and seconds [s] in [0, 60) with
    [3600 h + 60 m + s <= time < 3600 h + 60 m + s + 1], the label is
    [s], [m:ss] or [h:mm:ss] according to which leading fields are zero, and
    the [QTime] it formats is always valid. The hours are negative exactly
    when the time is: the label computed by [decrease_remaining_time] for a
    time that has run out starts with a minus sign. *)
Theorem update_time_label_shows_whole_seconds (time : R) :
  exists h m s : Z,
    (0 <= m < 60)%Z /\ (0 <= s < 60)%Z /\
    IZR (3600 * h + 60 * m + s) <= time < IZR (3600 * h + 60 * m + s) + 1 /\
    (time < 0 <-> (h < 0)%Z) /\
    update_time_label time =
      if (h =? 0)%Z then
        if (m =? 0)%Z then str s
        else String.append (str m) (String.append ":"%string (two_digits s))
      else
        String.append (str h)
          (String.append ":"%string
             (String.append (two_digits m)
                (String.append ":"%string (two_digits s)))).
Proof.
  destruct (update_time_label_fields time) as (Hh & Hm & Hs).
  cbv zeta in Hh, Hm, Hs.
  destruct (base_Int_part time) as [Hlo Hhi].
  set (t := Int_part time) in *.
  pose proof (Z.mod_pos_bound (t / 60) 60 ltac:(lia)) as Bm.
  pose proof (Z.mod_pos_bound t 60 ltac:(lia)) as Bs.
  assert (Et : (3600 * (t / 3600) + 60 * ((t / 60) mod 60) + t mod 60 = t)%Z).
  { pose proof (Z.div_mod t 60 ltac:(lia)).
    pose proof (Z.div_mod (t / 60) 60 ltac:(lia)).
    assert (t / 3600 = t / 60 / 60)%Z
      by (rewrite Z.div_div by lia; reflexivity).
    lia. }
  exists (t / 3600)%Z, ((t / 60) mod 60)%Z, (t mod 60)%Z.
  split; [exact Bm|]. split; [exact Bs|]. rewrite Et.
  split; [lra|]. split.
  - split.
    + intros Hneg. assert (t < 0)%Z by (apply lt_IZR; lra).
      apply Z.div_lt_upper_bound; lia.
    + intros Hneg. assert (t < 0)%Z.
      { destruct (Z_lt_le_dec t 0) as [H|H]; [exact H|].
        pose proof (Z.div_pos t 3600 H ltac:(lia)). lia. }
      assert (t <= -1)%Z by lia. apply IZR_le in H0. lra.
  - unfold update_time_label. rewrite Hh, Hm, Hs. unfold QTime_toString.
    destruct (t / 3600 =? 0)%Z; [destruct ((t / 60) mod 60 =? 0)%Z|].
    + reflexivity.
    + replace ((0 <=? 0) && (0 <? 24) && (0 <=? 0) && (0 <? 60)
               && (0 <=? t mod 60) && (t mod 60 <? 60))%Z with true;
        [reflexivity|].
      symmetry. rewrite !andb_true_iff. repeat split; lia.
    + replace ((0 <=? 0) && (0 <? 24) && (0 <=? (t / 60) mod 60)
               && ((t / 60) mod 60 <? 60)
               && (0 <=? t mod 60) && (t mod 60 <? 60))%Z with true;
        [reflexivity|].
      symmetry. rewrite !andb_true_iff. repeat split; lia.
Qed.

(** ** The plant images of the menu, in Florodoro.__init__ *)

(** [plant()]: from here on [self] is a new plant of class [c]. *)
Definition construct (c : cls) : M unit :=
  fun w => Ok (tt, mkWorld (new_plant c) (random_state w) (painter w)).

(** The body of the loop [for plant in self.PLANTS] that concerns the
    plant: the image of the class [plant], written to the file [name]. *)
Definition plant_image (plant : cls) (name : String.string)
    : M QSvgGenerator :=
  construct plant ;;
  set_max_age 1 ;;
  set_current_age 1 ;;
  generate ;;
  Drawable_save name 200 200.

Lemma path_call_map_ext {A B} (f f' : A -> B) c :
  (forall v, f v = f' v) -> path_call_map f c = path_call_map f' c.
Proof. intros H. destruct c; cbn [path_call_map]; now rewrite ?H. Qed.

Lemma call_map_ext {A B} (f f' : A -> B) c :
  (forall v, f v = f' v) -> call_map f c = call_map f' c.
Proof.
  intros H.
  assert (Hp : forall path : QPainterPath A,
             map (path_call_map f) path = map (path_call_map f') path).
  { intros path. apply map_ext. intros pc. now apply path_call_map_ext. }
  destruct c; cbn [call_map]; rewrite ?H, ?Hp; try reflexivity.
  - destruct pen; cbn [QPen_map]; now rewrite ?H.
  - f_equal. apply map_ext. intros pt. now rewrite !H.
Qed.

(** At age 1 every scalar of a template is its coefficient. *)
Lemma render_1 t : render 1 t = map (call_map fst) t.
Proof.
  apply map_ext. intros c. apply call_map_ext. intros [k g].
  unfold at_age. cbn [fst snd].
  destruct g; cbn [factor]; rewrite ?smoothen_curve_1;
    replace (1 ^ 2) with 1 by lra; rewrite ?smoothen_curve_1; lra.
Qed.

(** X13. The image of every class in the menu is made without an error,
    whatever the random source yields. It is 200 by 200, and it shows the
    plant at its full size: with the parameters [P] that the second
    generation (the call of [generate] after [set_max_age]) has frozen, it
    holds the calls of the template of [P] with every scalar at its
    coefficient, the growth factors all being 1. *)
Theorem plant_image_is_fully_grown (plant : cls) (name : String.string)
    (w : world) :
  rng_ok (random_state w) ->
  exists svg w' P,
    plant_image plant name w = Ok (svg, w') /\
    has_params (self w') P /\ params_maxAge P = 1 /\
    age (self w') = 1 /\ painter w' = painter w /\
    fileName svg = name /\ size svg = (200%Z, 200%Z) /\
    content svg = map (call_map fst) (draw_template true P 200 200).
Proof.
  intros Hg. unfold plant_image, bind, construct.
  cbn [self random_state painter].
  set (w0 := mkWorld (new_plant plant) (random_state w) (painter w)).
  destruct (wp_unit_run _ _ _ (set_max_age_wp w0 1 Hg))
    as (w1 & E1 & Hg1 & Hp1 & _ & _ & _ & _ & Hm1 & _).
  rewrite E1. unfold set_current_age at 1. unfold assign at 1.
  set (w2 := mkWorld (assign_age 1 (self w1)) (random_state w1) (painter w1)).
  assert (Hm2 : maxAge (self w2) = Some 1) by exact Hm1.
  destruct (wp_unit_run _ _ _ (generate_wp w2 1 Hg1 Hm2))
    as (w3 & E3 & Hg3 & Hp3 & Ha3 & _ & _ & _ & Hm3 & P & HP).
  rewrite E3. unfold Drawable_save, QPainter_on, bind, ret.
  destruct w3 as [p3 g3 tr3]. cbn [self random_state painter] in *.
  rewrite (draw_generated _ _ _ _ _ _ HP).
  cbn [self random_state painter app].
  pose proof (has_params_Plant _ _ HP) as (Hm' & _ & _ & Hdc).
  rewrite Hm3, Hm2 in Hm'. injection Hm' as Hm'.
  do 3 eexists. split; [reflexivity|].
  cbn [self painter fileName size content].
  split; [apply has_params_after__draw; exact HP|].
  split; [now symmetry|]. split.
  { transitivity (age p3); [destruct P; reflexivity | now rewrite Ha3]. }
  split; [etransitivity; [exact Hp3 | exact Hp1]|]. split; [reflexivity|].
  split; [reflexivity|].
  rewrite <- render_1, draw_template_render; [| |discriminate|lra|lra].
  - now rewrite Ha3.
  - rewrite smoothen_curve_1. lra.
Qed.

Lemma plant_image_is_fully_grown_witness :
  exists svg w' P,
    plant_image OrangeTree String.EmptyString (fresh_world Flower)
      = Ok (svg, w') /\
    has_params (self w') P /\ params_maxAge P = 1 /\
    age (self w') = 1 /\ painter w' = painter (fresh_world Flower) /\
    fileName svg = String.EmptyString /\ size svg = (200%Z, 200%Z) /\
    content svg = map (call_map fst) (draw_template true P 200 200).
Proof. apply plant_image_is_fully_grown. exact zero_rng_ok. Defined.

(** ** class Florodoro: the timer that grows the plant

    The part of the host that decides what happens to the plant, to the
    label of the timer and to the files of the plants folder. The clock is
    an input of every handler ([datetime.now()], in seconds), and so are
    the names of the files. The layout, the texts and the colours of the
    widgets, the label of the cycles, the sounds, the notifications and the
    log file of the debug mode are left out; of the buttons, only the
    pause button is followed, the others being taken as always enabled. *)

Record Florodoro : Type := mkFlorodoro {
  DEBUG : bool;
  (* the widgets the user sets *)
  study_time_spinbox : Z;
  break_time_spinbox : Z;
  cycles_spinbox : Z;
  plant_checkboxes : list bool;
  (* the widgets the host sets *)
  pause_button_disabled : bool;
  study_timer_active : bool;
  main_label : String.string;
  canvas : Canvas;
  (* the attributes; [None] until the first assignment *)
  Florodoro_plant : option Drawable;
  plant_growing : bool;
  study_done : option bool;
  cycles : Z;
  total_time : option R;
  ending_time : option R;
  pause_time : option R;
  (* the files written to the plants folder, the last one first *)
  plants_folder : list QSvgGenerator
}.

Definition set_study_time_spinbox (v : Z) (h : Florodoro) : Florodoro :=
  mkFlorodoro (DEBUG h) v (break_time_spinbox h) (cycles_spinbox h)
    (plant_checkboxes h) (pause_button_disabled h) (study_timer_active h)
    (main_label h) (canvas h) (Florodoro_plant h) (plant_growing h) (study_done h)
    (cycles h) (total_time h) (ending_time h) (pause_time h)
    (plants_folder h).

Definition set_break_time_spinbox (v : Z) (h : Florodoro) : Florodoro :=
  mkFlorodoro (DEBUG h) (study_time_spinbox h) v (cycles_spinbox h)
    (plant_checkboxes h) (pause_button_disabled h) (study_timer_active h)
    (main_label h) (canvas h) (Florodoro_plant h) (plant_growing h) (study_done h)
    (cycles h) (total_time h) (ending_time h) (pause_time h)
    (plants_folder h).

Definition set_cycles_spinbox (v : Z) (h : Florodoro) : Florodoro :=
  mkFlorodoro (DEBUG h) (study_time_spinbox h) (break_time_spinbox h) v
    (plant_checkboxes h) (pause_button_disabled h) (study_timer_active h)
    (main_label h) (canvas h) (Florodoro_plant h) (plant_growing h) (study_done h)
    (cycles h) (total_time h) (ending_time h) (pause_time h)
    (plants_folder h).

Definition set_plant_checkboxes (v : list bool) (h : Florodoro)
    : Florodoro :=
  mkFlorodoro (DEBUG h) (study_time_spinbox h) (break_time_spinbox h)
    (cycles_spinbox h) v (pause_button_disabled h) (study_timer_active h)
    (main_label h) (canvas h) (Florodoro_plant h) (plant_growing h) (study_done h)
    (cycles h) (total_time h) (ending_time h) (pause_time h)
    (plants_folder h).

Definition set_pause_button_disabled (v : bool) (h : Florodoro)
    : Florodoro :=
  mkFlorodoro (DEBUG h) (study_time_spinbox h) (break_time_spinbox h)
    (cycles_spinbox h) (plant_checkboxes h) v (study_timer_active h)
    (main_label h) (canvas h) (Florodoro_plant h) (plant_growing h) (study_done h)
    (cycles h) (total_time h) (ending_time h) (pause_time h)
    (plants_folder h).

Definition set_study_timer_active (v : bool) (h : Florodoro) : Florodoro :=
  mkFlorodoro (DEBUG h) (study_time_spinbox h) (break_time_spinbox h)
    (cycles_spinbox h) (plant_checkboxes h) (pause_button_disabled h) v
    (main_label h) (canvas h) (Florodoro_plant h) (plant_growing h) (study_done h)
    (cycles h) (total_time h) (ending_time h) (pause_time h)
    (plants_folder h).

Definition set_main_label (v : String.string) (h : Florodoro) : Florodoro :=
  mkFlorodoro (DEBUG h) (study_time_spinbox h) (break_time_spinbox h)
    (cycles_spinbox h) (plant_checkboxes h) (pause_button_disabled h)
    (study_timer_active h) v (canvas h) (Florodoro_plant h) (plant_growing h)
    (study_done h) (cycles h) (total_time h) (ending_time h) (pause_time h)
    (plants_folder h).

Definition set_canvas (v : Canvas) (h : Florodoro) : Florodoro :=
  mkFlorodoro (DEBUG h) (study_time_spinbox h) (break_time_spinbox h)
    (cycles_spinbox h) (plant_checkboxes h) (pause_button_disabled h)
    (study_timer_active h) (main_label h) v (Florodoro_plant h) (plant_growing h)
    (study_done h) (cycles h) (total_time h) (ending_time h) (pause_time h)
    (plants_folder h).

Definition set_plant (v : option Drawable) (h : Florodoro) : Florodoro :=
  mkFlorodoro (DEBUG h) (study_time_spinbox h) (break_time_spinbox h)
    (cycles_spinbox h) (plant_checkboxes h) (pause_button_disabled h)
    (study_timer_active h) (main_label h) (canvas h) v (plant_growing h)
    (study_done h) (cycles h) (total_time h) (ending_time h) (pause_time h)
    (plants_folder h).

Definition set_plant_growing (v : bool) (h : Florodoro) : Florodoro :=
  mkFlorodoro (DEBUG h) (study_time_spinbox h) (break_time_spinbox h)
    (cycles_spinbox h) (plant_checkboxes h) (pause_button_disabled h)
    (study_timer_active h) (main_label h) (canvas h) (Florodoro_plant h) v
    (study_done h) (cycles h) (total_time h) (ending_time h) (pause_time h)
    (plants_folder h).

Definition set_study_done (v : option bool) (h : Florodoro) : Florodoro :=
  mkFlorodoro (DEBUG h) (study_time_spinbox h) (break_time_spinbox h)
    (cycles_spinbox h) (plant_checkboxes h) (pause_button_disabled h)
    (study_timer_active h) (main_label h) (canvas h) (Florodoro_plant h)
    (plant_growing h) v (cycles h) (total_time h) (ending_time h)
    (pause_time h) (plants_folder h).

Definition set_cycles (v : Z) (h : Florodoro) : Florodoro :=
  mkFlorodoro (DEBUG h) (study_time_spinbox h) (break_time_spinbox h)
    (cycles_spinbox h) (plant_checkboxes h) (pause_button_disabled h)
    (study_timer_active h) (main_label h) (canvas h) (Florodoro_plant h)
    (plant_growing h) (study_done h) v (total_time h) (ending_time h)
    (pause_time h) (plants_folder h).

Definition set_total_time (v : option R) (h : Florodoro) : Florodoro :=
  mkFlorodoro (DEBUG h) (study_time_spinbox h) (break_time_spinbox h)
    (cycles_spinbox h) (plant_checkboxes h) (pause_button_disabled h)
    (study_timer_active h) (main_label h) (canvas h) (Florodoro_plant h)
    (plant_growing h) (study_done h) (cycles h) v (ending_time h)
    (pause_time h) (plants_folder h).

Definition set_ending_time (v : option R) (h : Florodoro) : Florodoro :=
  mkFlorodoro (DEBUG h) (study_time_spinbox h) (break_time_spinbox h)
    (cycles_spinbox h) (plant_checkboxes h) (pause_button_disabled h)
    (study_timer_active h) (main_label h) (canvas h) (Florodoro_plant h)
    (plant_growing h) (study_done h) (cycles h) (total_time h) v
    (pause_time h) (plants_folder h).

Definition set_pause_time (v : option R) (h : Florodoro) : Florodoro :=
  mkFlorodoro (DEBUG h) (study_time_spinbox h) (break_time_spinbox h)
    (cycles_spinbox h) (plant_checkboxes h) (pause_button_disabled h)
    (study_timer_active h) (main_label h) (canvas h) (Florodoro_plant h)
    (plant_growing h) (study_done h) (cycles h) (total_time h)
    (ending_time h) v (plants_folder h).

Definition set_plants_folder (v : list QSvgGenerator) (h : Florodoro)
    : Florodoro :=
  mkFlorodoro (DEBUG h) (study_time_spinbox h) (break_time_spinbox h)
    (cycles_spinbox h) (plant_checkboxes h) (pause_button_disabled h)
    (study_timer_active h) (main_label h) (canvas h) (Florodoro_plant h)
    (plant_growing h) (study_done h) (cycles h) (total_time h)
    (ending_time h) (pause_time h) v.

(** [self.f], for an attribute of the host that is assigned outside of
    [__init__]. *)
Definition host_attr {A} (v : option A) : M A :=
  match v with
  | Some a => ret a
  | None => raise AttributeError
  end.

Definition PLANTS : list cls :=
  [GreenTree; DoubleGreenTree; OrangeTree; CircularFlower].

Definition MAX_PLANT_AGE : R := 90.

Definition INITIAL_TEXT : String.string := "Start!"%string.

(** The state at the end of [Florodoro.__init__], which ends with
    [self.reset()]; [width] and [height] are the size of the canvas. *)
Definition Florodoro__init__ (debug : bool) (width height : Z) : Florodoro :=
  mkFlorodoro debug 45 15 1 [true; true; true; true] true false INITIAL_TEXT
    (Canvas__init__ width height) None false None 1 None None None [].

(** [[plant for i, plant in enumerate(self.PLANTS)
      if self.plant_checkboxes[i].isChecked()]] *)
Fixpoint checked_plants (l : list (nat * cls)) (boxes : list bool)
    : M (list cls) :=
  match l with
  | [] => ret []
  | (i, plant) :: l' =>
      checked <- subscript boxes i ;;
      rest <- checked_plants l' boxes ;;
      ret (if checked : bool then plant :: rest else rest)
  end.

Definition possible_plants (h : Florodoro) : M (list cls) :=
  checked_plants (enumerate PLANTS) (plant_checkboxes h).

(** [Florodoro.start] at the time [now]. *)
Definition start (now : R) (do_break cycled_call : bool) (h : Florodoro)
    : M Florodoro :=
  let h := set_pause_button_disabled false h in
  let h := set_study_done (Some do_break) h in
  let h := if negb cycled_call && negb do_break
           then set_cycles (cycles_spinbox h) h else h in
  let total :=
    IZR (if negb do_break then study_time_spinbox h
         else break_time_spinbox h) * 60 + 0.99 in
  let h := set_total_time (Some total) h in
  let h := set_ending_time (Some (now + total / 60 * 60)) h in
  let h := set_main_label (update_time_label total) h in
  h <- (if negb do_break then
          possible <- possible_plants h ;;
          if negb (length possible =? 0)%nat then
            plant <- choice possible ;;
            construct plant ;;
            let h := set_plant (Some the_plant) h in
            let h := set_canvas (Canvas_set_drawable the_plant (canvas h)) h in
            set_max_age (Rmin 1 (total / 60 / MAX_PLANT_AGE)) ;;
            set_current_age 0 ;;
            ret (set_plant_growing true h)
          else ret (set_plant_growing false h)
        else ret h) ;;
  ret (set_study_timer_active true h).

(** [Florodoro.start_break] *)
Definition start_break (now : R) (h : Florodoro) : M Florodoro :=
  start now true false h.

(** [Florodoro.keyPressEvent]; [escape] tells whether the key is
    [Qt.Key_Escape]. *)
Definition keyPressEvent (escape : bool) (h : Florodoro) : M Florodoro :=
  if DEBUG h then
    if escape then
      possible <- possible_plants h ;;
      if negb (length possible =? 0)%nat then
        plant <- choice possible ;;
        construct plant ;;
        let h := set_plant (Some the_plant) h in
        let h := set_canvas (Canvas_set_drawable the_plant (canvas h)) h in
        set_max_age 1 ;;
        set_current_age 1 ;;
        ret h
      else ret h
    else ret h
  else ret h.

(** [Florodoro.toggle_pause] at the time [now]. *)
Definition toggle_pause (now : R) (h : Florodoro) : M Florodoro :=
  if study_timer_active h then
    let h := set_study_timer_active false h in
    ret (set_pause_time (Some now) h)
  else
    ending <- host_attr (ending_time h) ;;
    paused <- host_attr (pause_time h) ;;
    let h := set_ending_time (Some (ending + (now - paused))) h in
    ret (set_study_timer_active true h).

(** [Florodoro.reset] *)
Definition reset (button_press : bool) (h : Florodoro) : M Florodoro :=
  let h := set_study_timer_active false h in
  let h := set_pause_button_disabled true h in
  (if plant_growing h then
     host_attr (Florodoro_plant h) ;; set_current_age 0
   else ret tt) ;;
  let h := if button_press then set_cycles 1 h else h in
  ret (set_main_label INITIAL_TEXT h).

(** [Florodoro.press_reset] *)
Definition press_reset (h : Florodoro) : M Florodoro :=
  reset true h.

(** [Florodoro.decrease_remaining_time] at the time [now]; [path] is the
    plants folder, [name] the date and the time of the day as text. *)
Definition decrease_remaining_time (now : R) (path name : String.string)
    (h : Florodoro) : M Florodoro :=
  h <- (if DEBUG h then
          ending <- host_attr (ending_time h) ;;
          ret (set_ending_time (Some (ending - 30)) h)
        else ret h) ;;
  ending <- host_attr (ending_time h) ;;
  let leftover_time := ending - now in
  let h := set_main_label (update_time_label leftover_time) h in
  if Rle_dec leftover_time 0 then
    done <- host_attr (study_done h) ;;
    if done : bool then
      h <- reset false h ;;
      if negb (cycles h =? 1)%Z then
        let h := set_cycles (cycles h - 1) h in
        start now false true h
      else ret h
    else
      h <- start_break now h ;;
      if plant_growing h then
        svg <- Canvas_save (canvas h)
                 (String.append path (String.append name ".svg"%string)) ;;
        ret (set_plants_folder (svg :: plants_folder h) h)
      else ret h
  else
    done <- host_attr (study_done h) ;;
    if negb done then
      (if plant_growing h then
         host_attr (Florodoro_plant h) ;;
         total <- host_attr (total_time h) ;;
         elapsed <- py_div leftover_time total ;;
         set_current_age (1 - elapsed)
       else ret tt) ;;
      ret h
    else ret h.

(** What the host reacts to. *)
Inductive event : Type :=
| study_button_clicked
| break_button_clicked
| pause_button_clicked
| reset_button_clicked
| study_timer_timeout (path name : String.string)
| key_pressed (escape : bool)
| canvas_paint
| study_time_changed (v : Z)
| break_time_changed (v : Z)
| cycles_changed (v : Z)
| plant_toggled (i : nat).

(** Checking or unchecking the plant number [i] of the menu. *)
Fixpoint toggle (i : nat) (boxes : list bool) : list bool :=
  match boxes, i with
  | [], _ => []
  | b :: boxes', O => negb b :: boxes'
  | b :: boxes', S i' => b :: toggle i' boxes'
  end.

(** The event [e] delivered at the time [now]: a disabled button does not
    click, a stopped timer does not time out, and a spin box keeps its
    value inside its range. *)
Definition deliver (now : R) (e : event) (h : Florodoro) : M Florodoro :=
  match e with
  | study_button_clicked => start now false false h
  | break_button_clicked => start_break now h
  | pause_button_clicked =>
      if pause_button_disabled h then ret h else toggle_pause now h
  | reset_button_clicked => press_reset h
  | study_timer_timeout path name =>
      if study_timer_active h then decrease_remaining_time now path name h
      else ret h
  | key_pressed escape => keyPressEvent escape h
  | canvas_paint => Canvas_paintEvent (canvas h) ;; ret h
  | study_time_changed v =>
      ret (set_study_time_spinbox (Z.max 1 (Z.min 180 v)) h)
  | break_time_changed v =>
      ret (set_break_time_spinbox (Z.max 1 (Z.min 180 v)) h)
  | cycles_changed v => ret (set_cycles_spinbox (Z.max 1 (Z.min 99 v)) h)
  | plant_toggled i => ret (set_plant_checkboxes (toggle i (plant_checkboxes h)) h)
  end.

(** The events [es], each with its time, delivered in turn. *)
Fixpoint session (es : list (R * event)) (h : Florodoro) : M Florodoro :=
  match es with
  | [] => ret h
  | (now, e) :: es' => h' <- deliver now e h ;; session es' h'
  end.

(** *** What a session keeps *)

Definition params_class (P : params) : cls :=
  match P with
  | Flower_params _ _ _ _ _ _ => Flower
  | CircularFlower_params _ _ _ _ _ _ _ _ _ _ => CircularFlower
  | Tree_params _ _ _ => Tree
  | OrangeTree_params _ _ _ _ _ _ _ => OrangeTree
  | GreenTree_params _ _ _ => GreenTree
  | DoubleGreenTree_params _ _ _ => DoubleGreenTree
  end.

Lemma has_params_class p P : has_params p P -> class p = params_class P.
Proof. destruct P; cbn [has_params]; intros H; apply H. Qed.

(** The file [svg] holds the drawing, on its whole size, of a plant with
    the parameters [P] at the age [a]. *)
Definition shows (svg : QSvgGenerator) (P : params) (a : R) : Prop :=
  let width := fst (size svg) in
  let height := snd (size svg) in
  content svg =
    [Translate (IZR width / 2) (IZR height); Scale 1 (-1)]
    ++ calls_of P a (Z.min width height) (Z.min width height).

(** A valid plant of the host: one of [PLANTS], generated for a [maxAge] in
    (0, 1], at an age in [0, 1], below 1 outside of the debug mode. *)
Definition host_plant (debug : bool) (P : params) (a : R) : Prop :=
  In (params_class P) PLANTS /\ 0 < params_maxAge P <= 1 /\
  0 <= a <= 1 /\ (debug = false -> a < 1).

Definition saved_ok (debug : bool) (svg : QSvgGenerator) : Prop :=
  exists P a, shows svg P a /\ host_plant debug P a.

(** The timer: while the pause button is enabled the host has been started,
    and the time left never exceeds the total time. *)
Definition timer_ok (now : R) (h : Florodoro) : Prop :=
  (study_timer_active h = true -> pause_button_disabled h = false) /\
  (pause_button_disabled h = false ->
   exists total ending done,
     total_time h = Some total /\ ending_time h = Some ending /\
     study_done h = Some done /\ 0 < total /\
     if study_timer_active h then ending <= now + total
     else exists paused,
         pause_time h = Some paused /\ paused <= now /\
         ending <= paused + total).

Definition plant_ok (h : Florodoro) (w : world) : Prop :=
  (plant_growing h = true -> object (canvas h) <> None) /\
  (object (canvas h) <> None -> Florodoro_plant h <> None) /\
  (Florodoro_plant h <> None ->
   exists P, has_params (self w) P /\ host_plant (DEBUG h) P (age (self w))).

Definition session_ok (now : R) (h : Florodoro) (w : world) : Prop :=
  rng_ok (random_state w) /\
  length (plant_checkboxes h) = length PLANTS /\
  (1 <= study_time_spinbox h)%Z /\ (1 <= break_time_spinbox h)%Z /\
  timer_ok now h /\ plant_ok h w /\
  Forall (saved_ok (DEBUG h)) (plants_folder h).

(** What no handler changes: the mode and the size of the canvas. *)
Definition same_host (h h' : Florodoro) : Prop :=
  DEBUG h' = DEBUG h /\
  Canvas_width (canvas h') = Canvas_width (canvas h) /\
  Canvas_height (canvas h') = Canvas_height (canvas h).

Definition kept (now : R) (h : Florodoro)
    : Florodoro -> world -> Prop :=
  fun h' w' => session_ok now h' w' /\ same_host h h'.

Ltac host_simpl :=
  cbn [DEBUG study_time_spinbox break_time_spinbox cycles_spinbox
       plant_checkboxes pause_button_disabled study_timer_active main_label
       canvas Florodoro_plant plant_growing study_done cycles total_time ending_time
       pause_time plants_folder
       set_study_time_spinbox set_break_time_spinbox set_cycles_spinbox
       set_plant_checkboxes set_pause_button_disabled set_study_timer_active
       set_main_label set_canvas set_plant set_plant_growing set_study_done
       set_cycles set_total_time set_ending_time set_pause_time
       set_plants_folder
       object Canvas_width Canvas_height Canvas_set_drawable Canvas__init__]
    in *.

Lemma wp_host_attr {A} (v : option A) a Q w :
  v = Some a -> Q a w -> wp (host_attr v) Q w.
Proof. intros ->. exact (fun H => H). Qed.

Lemma possible_plants_wp h Q w :
  length (plant_checkboxes h) = length PLANTS ->
  (forall l, incl l PLANTS -> (In true (plant_checkboxes h) -> l <> []) ->
             Q l w) ->
  wp (possible_plants h) Q w.
Proof.
  intros Hl H. unfold possible_plants.
  destruct (plant_checkboxes h) as [|b1 [|b2 [|b3 [|b4 [|b5 l]]]]];
    try discriminate Hl.
  destruct b1, b2, b3, b4; apply H;
    try (intros c Hc; cbn in Hc |- *; tauto);
    try (intros _; discriminate);
    intros Hin; cbn in Hin; intuition discriminate.
Qed.

Lemma timer_ok_later now now' h :
  now <= now' -> timer_ok now h -> timer_ok now' h.
Proof.
  intros Hn [Ha Hp]. split; [exact Ha|]. intros Hd.
  destruct (Hp Hd) as (total & ending & done & Et & Ee & Ed & Ht & H).
  exists total, ending, done. repeat (split; [assumption|]).
  destruct (study_timer_active h); [lra|].
  destruct H as (paused & Ep & Hpn & He). exists paused.
  repeat split; [assumption | lra | assumption].
Qed.

Lemma session_ok_later now now' h w :
  now <= now' -> session_ok now h w -> session_ok now' h w.
Proof.
  intros Hn (Hg & Hl & Hs & Hb & Ht & H). repeat (split; [assumption|]).
  split; [|exact H]. now apply (timer_ok_later now).
Qed.

Lemma same_host_refl h : same_host h h.
Proof. now repeat split. Qed.

Lemma same_host_trans h1 h2 h3 :
  same_host h1 h2 -> same_host h2 h3 -> same_host h1 h3.
Proof.
  intros (A1 & A2 & A3) (B1 & B2 & B3).
  repeat split; etransitivity; eassumption.
Qed.

(** A new plant of the host, of age [a]. *)
Lemma new_plant_wp {A} (c : cls) (m a : R) (k : M A) h Q w :
  rng_ok (random_state w) -> In c PLANTS -> 0 < m <= 1 -> 0 <= a <= 1 ->
  (DEBUG h = false -> a < 1) ->
  (forall w', rng_ok (random_state w') ->
              (exists P, has_params (self w') P /\
                         host_plant (DEBUG h) P (age (self w'))) ->
              wp k Q w') ->
  wp (construct c ;; set_max_age m ;; set_current_age a ;; k) Q w.
Proof.
  intros Hg Hc Hm Ha Hd H. apply wp_bind. unfold wp at 1, construct.
  apply wp_bind.
  eapply wp_mono; [|apply set_max_age_wp; exact Hg].
  intros u w1 (Hg1 & _ & _ & Hc1 & _ & _ & Hm1 & P & HP).
  apply wp_bind. unfold set_current_age. apply wp_assign.
  apply H; [exact Hg1|].
  exists P. cbn [self]. split; [now apply has_params_assign_age|].
  pose proof (has_params_Plant _ _ HP) as (Em & _).
  rewrite Hm1 in Em. injection Em as Em.
  pose proof (has_params_class _ _ HP) as Ec. rewrite Hc1 in Ec.
  cbn [self class new_plant] in Ec.
  unfold host_plant. rewrite <- Ec, <- Em. cbn [age assign_age].
  repeat split; try assumption; apply Ha || apply Hm.
Qed.

Ltac timer_started :=
  split; [reflexivity|]; intros _; do 3 eexists;
  repeat (split; [reflexivity|]); host_simpl; split; lra.

Lemma start_wp now0 now do_break cycled_call h w :
  session_ok now0 h w -> now0 <= now ->
  wp (start now do_break cycled_call h) (kept now h) w.
Proof.
  intros (Hg & Hl & Hs & Hb & _ & (Hpg & Ho & Hp) & Hf) Hn.
  apply IZR_le in Hs, Hb.
  unfold start. cbv zeta. apply wp_bind. destruct do_break; cbn [negb].
  - apply wp_ret, wp_ret. rewrite andb_false_r. split; [|now repeat split].
    split; [exact Hg|]. host_simpl.
    repeat (split; [assumption || (apply le_IZR; assumption)|]).
    split; [|split; [|exact Hf]].
    + timer_started.
    + repeat split; assumption.
  - rewrite andb_true_r.
    destruct cycled_call; cbn [negb]; host_simpl;
      (apply wp_bind, possible_plants_wp; [exact Hl|]);
      intros l Hincl _; (destruct l as [|c l]; cbn [length Nat.eqb negb]).
    all: try (apply wp_ret, wp_ret; split; [|now repeat split];
              split; [exact Hg|]; host_simpl;
              repeat (split; [assumption || (apply le_IZR; assumption)|]);
              split; [timer_started|]; split; [|exact Hf];
              split; [discriminate|]; split; [exact Ho|exact Hp]).
    all: apply wp_bind, wp_choice; [discriminate|]; intros v Hv;
      apply new_plant_wp with (h := h);
      [ exact Hg | apply Hincl, Hv
      | unfold MAX_PLANT_AGE, Rmin; destruct (Rle_dec 1 _); lra
      | lra | intros _; lra | ];
      intros w' Hg' HP; apply wp_ret, wp_ret;
      (split; [|now repeat split]); (split; [exact Hg'|]); host_simpl;
      repeat (split; [assumption || (apply le_IZR; assumption)|]);
      (split; [timer_started|]); (split; [|exact Hf]);
      (split; [discriminate|]); (split; [discriminate|]);
      intros _; exact HP.
Qed.

Lemma age_after__draw P p width height :
  age (after__draw P p width height) = age p.
Proof. destruct P; reflexivity. Qed.

Lemma keyPressEvent_wp now escape h w :
  session_ok now h w -> wp (keyPressEvent escape h) (kept now h) w.
Proof.
  intros Hok. pose proof Hok as (Hg & Hl & Hs & Hb & Ht & (Hpg & Ho & Hp) & Hf).
  unfold keyPressEvent.
  destruct (DEBUG h) eqn:Hd; [|now split; [|apply same_host_refl]].
  destruct escape; [|now split; [|apply same_host_refl]].
  apply wp_bind, possible_plants_wp; [exact Hl|]. intros l Hincl _.
  destruct l as [|c l]; cbn [length Nat.eqb negb];
    [now split; [|apply same_host_refl]|].
  apply wp_bind, wp_choice; [discriminate|]. intros v Hv.
  apply new_plant_wp with (h := h);
    [exact Hg | apply Hincl, Hv | lra | lra
    | intros E; rewrite E in Hd; discriminate Hd |].
  intros w' Hg' HP. apply wp_ret. split; [|now repeat split].
  split; [exact Hg'|]. unfold plant_ok. host_simpl. rewrite ?Hd in *.
  repeat (split; [assumption|]). split; [|exact Hf].
  split; [discriminate|]. split; [discriminate|]. intros _. exact HP.
Qed.

Lemma toggle_pause_wp now0 now h w :
  session_ok now0 h w -> now0 <= now -> pause_button_disabled h = false ->
  wp (toggle_pause now h) (kept now h) w.
Proof.
  intros (Hg & Hl & Hs & Hb & (Ha & Ht) & Hp & Hf) Hn Hd.
  destruct (Ht Hd) as (total & ending & done & Et & Ee & Ed & Htot & H).
  unfold toggle_pause. destruct (study_timer_active h) eqn:Hact.
  - apply wp_ret. split; [|now repeat split].
    split; [exact Hg|]. host_simpl.
    repeat (split; [assumption|]). split; [|split; assumption].
    split; [discriminate|]. intros _. exists total, ending, done.
    repeat (split; [assumption|]). exists now.
    repeat split; [lra | lra].
  - destruct H as (paused & Ep & Hpn & He).
    apply wp_bind. eapply wp_host_attr; [exact Ee|].
    apply wp_bind. eapply wp_host_attr; [exact Ep|].
    apply wp_ret. split; [|now repeat split].
    split; [exact Hg|]. host_simpl.
    repeat (split; [assumption|]). split; [|split; assumption].
    split; [intros _; exact Hd|]. intros _. do 3 eexists.
    split; [exact Et|]. split; [reflexivity|]. split; [exact Ed|].
    host_simpl. split; [exact Htot | lra].
Qed.

Lemma reset_wp now button_press h w :
  session_ok now h w -> wp (reset button_press h) (kept now h) w.
Proof.
  intros (Hg & Hl & Hs & Hb & _ & (Hpg & Ho & Hp) & Hf).
  assert (Hend : forall w',
             rng_ok (random_state w') ->
             (Florodoro_plant h <> None ->
              exists P, has_params (self w') P /\
                        host_plant (DEBUG h) P (age (self w'))) ->
             wp (ret (set_main_label INITIAL_TEXT
                        (if button_press
                         then set_cycles 1
                                (set_pause_button_disabled true
                                   (set_study_timer_active false h))
                         else set_pause_button_disabled true
                                (set_study_timer_active false h))))
                (kept now h) w').
  { intros w' Hg' Hp'. apply wp_ret.
    split; [|destruct button_press; now repeat split].
    split; [exact Hg'|].
    destruct button_press; host_simpl;
      (repeat (split; [assumption|])); (split; [|split; [|exact Hf]]);
      try (split; discriminate); repeat split; assumption. }
  unfold reset. cbv zeta. host_simpl. apply wp_bind.
  destruct (plant_growing h) eqn:Hgrow; [|apply wp_ret, Hend; assumption].
  assert (Hpl : Florodoro_plant h <> None) by (apply Ho, Hpg; assumption || reflexivity).
  destruct (Hp Hpl) as (P & HP & Hc & Hm & _).
  destruct (Florodoro_plant h) as [d|] eqn:Epl; [|contradiction].
  apply wp_bind. eapply wp_host_attr; [reflexivity|].
  unfold set_current_age. apply wp_assign. apply Hend; [exact Hg|].
  intros _. exists P. cbn [self]. split; [now apply has_params_assign_age|].
  cbn [age assign_age]. repeat split; try assumption; try lra; apply Hm.
Qed.

Lemma Canvas_save_wp cv path P Q w :
  object cv <> None -> has_params (self w) P ->
  (forall svg,
     size svg = (Canvas_width cv, Canvas_height cv) ->
     shows svg P (age (self w)) ->
     Q svg (mkWorld
              (after__draw P (self w)
                 (Z.min (Canvas_width cv) (Canvas_height cv))
                 (Z.min (Canvas_width cv) (Canvas_height cv)))
              (random_state w) (painter w))) ->
  wp (Canvas_save cv path) Q w.
Proof.
  intros Ho HP H. unfold Canvas_save.
  destruct (object cv) as [[]|]; [|contradiction].
  unfold Drawable_save, QPainter_on, wp, bind, ret. destruct w as [p g tr].
  cbn [self random_state painter] in *.
  rewrite (draw_generated _ _ _ _ _ _ HP). cbn [self random_state painter].
  apply H; reflexivity.
Qed.

Lemma Canvas_paintEvent_wp now h w :
  session_ok now h w ->
  wp (Canvas_paintEvent (canvas h)) (fun _ w' => session_ok now h w') w.
Proof.
  intros Hok. pose proof Hok as (Hg & Hl & Hs & Hb & Ht & (Hpg & Ho & Hp) & Hf).
  unfold Canvas_paintEvent.
  destruct (object (canvas h)) as [[]|] eqn:Eo; [|exact Hok].
  assert (Hpl : Florodoro_plant h <> None) by (apply Ho; discriminate).
  destruct (Hp Hpl) as (P & HP & Hhost).
  unfold QPainter_on, wp, bind, ret, paint. destruct w as [p g tr].
  cbn [self random_state painter app] in *.
  rewrite (draw_generated _ _ _ _ _ _ HP). cbn [self random_state painter].
  split; [exact Hg|]. repeat (split; [assumption|]). split; [|exact Hf].
  unfold plant_ok. rewrite Eo.
  split; [exact Hpg|]. split; [exact Ho|]. intros _. exists P. cbn [self].
  split; [now apply has_params_after__draw|].
  now rewrite age_after__draw.
Qed.

Lemma decrease_remaining_time_wp now0 now path name h w :
  session_ok now0 h w -> now0 <= now -> study_timer_active h = true ->
  wp (decrease_remaining_time now path name h) (kept now h) w.
Proof.
  intros Hok Hn Hact.
  assert (Hpre : exists ending total done h1,
             (if DEBUG h then
                ending <- host_attr (ending_time h) ;;
                ret (set_ending_time (Some (ending - 30)) h)
              else ret h) w = Ok (h1, w) /\
             session_ok now h1 w /\ same_host h h1 /\
             study_timer_active h1 = true /\
             ending_time h1 = Some ending /\ total_time h1 = Some total /\
             study_done h1 = Some done /\ 0 < total /\
             ending <= now + total).
  { apply (session_ok_later now0 now) in Hok; [|exact Hn].
    pose proof Hok as (Hg & Hl & Hs & Hb & (Ha & Ht) & Hp & Hf).
    destruct (Ht (Ha Hact))
      as (total & ending & done & Et & Ee & Ed & Htot & H).
    rewrite Hact in H. destruct (DEBUG h) eqn:Hd.
    - exists (ending - 30), total, done,
        (set_ending_time (Some (ending - 30)) h).
      unfold bind, host_attr. rewrite Ee. split; [reflexivity|].
      split; [|host_simpl; repeat split; try assumption; lra].
      split; [exact Hg|]. host_simpl. rewrite Hd.
      repeat (split; [assumption|]). split; [|split; assumption].
      split; [exact Ha|]. intros _. exists total, (ending - 30), done.
      host_simpl. rewrite Hact. repeat split; try assumption; lra.
    - exists ending, total, done, h. split; [reflexivity|].
      split; [exact Hok|]. split; [apply same_host_refl|].
      repeat split; assumption. }
  destruct Hpre as (ending & total & done & h1 & E1 & Hok1 & Hsame & Hact1
                    & Ee & Et & Ed & Htot & Hle).
  unfold decrease_remaining_time. apply wp_bind. unfold wp at 1. rewrite E1.
  clear E1 Hok Hact. apply wp_bind. eapply wp_host_attr; [exact Ee|].
  cbv zeta. host_simpl.
  set (label := update_time_label (ending - now)).
  assert (Hok2 : session_ok now (set_main_label label h1) w).
  { destruct Hok1 as (Hg & Hl & Hs & Hb & (Ha & Ht) & Hp & Hf).
    split; [exact Hg|]. host_simpl. repeat (split; [assumption|]).
    split; [split|split]; assumption. }
  assert (Hsame2 : same_host h (set_main_label label h1)).
  { apply (same_host_trans _ h1); [exact Hsame | now repeat split]. }
  destruct (Rle_dec (ending - now) 0) as [Hout|Hleft].
  - apply wp_bind. eapply wp_host_attr; [exact Ed|]. destruct done.
    + apply wp_bind.
      eapply wp_mono; [|apply (reset_wp now), Hok2].
      intros h3 w3 [Hok3 Hsame3].
      assert (Hs3 : same_host h h3) by (eapply same_host_trans; eassumption).
      destruct (negb (cycles h3 =? 1)%Z).
      * eapply wp_mono; [|apply (start_wp now now)].
        -- intros h4 w4 [Hok4 Hsame4]. split; [exact Hok4|].
           eapply same_host_trans; [exact Hs3|].
           destruct Hsame4 as (A & B & C). now repeat split.
        -- destruct Hok3 as (Hg & Hl & Hs & Hb & (Ha & Ht) & Hp & Hf).
           split; [exact Hg|]. host_simpl. repeat (split; [assumption|]).
           split; [split|split]; assumption.
        -- lra.
      * apply wp_ret. now split.
    + apply wp_bind. unfold start_break.
      eapply wp_mono; [|apply (start_wp now now); [exact Hok2 | lra]].
      intros h3 w3 [Hok3 Hsame3].
      assert (Hs3 : same_host h h3) by (eapply same_host_trans; eassumption).
      destruct (plant_growing h3) eqn:Hgrow; [|apply wp_ret; now split].
      destruct Hok3 as (Hg & Hl & Hs & Hb & Ht & (Hpg & Ho & Hp) & Hf).
      assert (Hobj : object (canvas h3) <> None) by (apply Hpg; assumption || reflexivity).
      destruct (Hp (Ho Hobj)) as (P & HP & Hhost).
      apply wp_bind. eapply Canvas_save_wp; [exact Hobj | exact HP|].
      intros svg Hsize Hshows. apply wp_ret. split; [|exact Hs3].
      split; [exact Hg|]. host_simpl. repeat (split; [assumption|]).
      split; [split; [exact Hpg | split; [exact Ho|]]|].
      * intros _. exists P. split; [now apply has_params_after__draw|].
        cbn [self]. now rewrite age_after__draw.
      * constructor; [|exact Hf]. exists P, (age (self w3)). now split.
  - apply wp_bind. eapply wp_host_attr; [exact Ed|].
    destruct done; cbn [negb]; [apply wp_ret; now split|].
    apply wp_bind.
    destruct (plant_growing h1) eqn:Hgrow;
      [|apply wp_ret, wp_ret; now split].
    destruct Hok2 as (Hg & Hl & Hs & Hb & Ht & (Hpg & Ho & Hp) & Hf).
    host_simpl.
    assert (Hpl : Florodoro_plant h1 <> None) by (apply Ho, Hpg; assumption || reflexivity).
    destruct (Hp Hpl) as (P & HP & Hc & Hm & _).
    destruct (Florodoro_plant h1) as [d|] eqn:Epl; [|contradiction].
    apply wp_bind. eapply wp_host_attr; [reflexivity|].
    apply wp_bind. eapply wp_host_attr; [exact Et|].
    apply wp_bind. unfold py_div.
    destruct (Req_dec_T total 0) as [E0|_]; [lra|]. apply wp_ret.
    unfold set_current_age. apply wp_assign, wp_ret.
    split; [|exact Hsame2]. split; [exact Hg|]. host_simpl.
    repeat (split; [assumption|]). split; [|exact Hf].
    unfold plant_ok. host_simpl. rewrite Epl.
    split; [exact Hpg|]. split; [exact Ho|]. intros _.
    exists P. cbn [self]. split; [now apply has_params_assign_age|].
    cbn [age assign_age].
    assert (0 < (ending - now) / total <= 1).
    { split; [apply Rdiv_lt_0_compat; lra|].
      apply Rmult_le_reg_r with total; [lra|].
      unfold Rdiv. rewrite Rmult_assoc, Rinv_l by lra. lra. }
    repeat split; try assumption; try lra; apply Hm.
Qed.

Lemma toggle_length i boxes : length (toggle i boxes) = length boxes.
Proof.
  revert i. induction boxes as [|b boxes IH]; intros [|i]; cbn [toggle length];
    try reflexivity.
  now rewrite IH.
Qed.

Lemma deliver_wp now0 now e h w :
  session_ok now0 h w -> now0 <= now ->
  wp (deliver now e h) (kept now h) w.
Proof.
  intros Hok0 Hn. pose proof (session_ok_later _ _ _ _ Hn Hok0) as Hok.
  assert (Hret : wp (ret h) (kept now h) w).
  { apply wp_ret. split; [exact Hok | apply same_host_refl]. }
  destruct e; cbn [deliver].
  - now apply (start_wp now0).
  - now apply (start_wp now0).
  - destruct (pause_button_disabled h) eqn:Hd; [exact Hret|].
    now apply (toggle_pause_wp now0).
  - now apply reset_wp.
  - destruct (study_timer_active h) eqn:Ha; [|exact Hret].
    now apply (decrease_remaining_time_wp now0).
  - now apply keyPressEvent_wp.
  - apply wp_bind. eapply wp_mono; [|apply Canvas_paintEvent_wp, Hok].
    intros u w' Hok'. apply wp_ret. split; [exact Hok' | apply same_host_refl].
  - apply wp_ret. split; [|now repeat split].
    destruct Hok as (Hg & Hl & Hs & Hb & Ht & Hp & Hf).
    split; [exact Hg|]. split; [exact Hl|]. host_simpl.
    split; [lia|]. split; [exact Hb|]. split; [exact Ht|].
    split; [exact Hp | exact Hf].
  - apply wp_ret. split; [|now repeat split].
    destruct Hok as (Hg & Hl & Hs & Hb & Ht & Hp & Hf).
    split; [exact Hg|]. split; [exact Hl|]. host_simpl.
    split; [exact Hs|]. split; [lia|]. split; [exact Ht|].
    split; [exact Hp | exact Hf].
  - apply wp_ret. split; [|now repeat split].
    destruct Hok as (Hg & Hl & Hs & Hb & Ht & Hp & Hf).
    split; [exact Hg|]. split; [exact Hl|]. split; [exact Hs|].
    split; [exact Hb|]. split; [exact Ht|]. split; [exact Hp | exact Hf].
  - apply wp_ret. split; [|now repeat split].
    destruct Hok as (Hg & Hl & Hs & Hb & Ht & Hp & Hf).
    split; [exact Hg|]. host_simpl. split; [now rewrite toggle_length|].
    split; [exact Hs|]. split; [exact Hb|]. split; [exact Ht|].
    split; [exact Hp | exact Hf].
Qed.

(** The times of the events of a session never go back. *)
Fixpoint clock_ok (now : R) (es : list (R * event)) : Prop :=
  match es with
  | [] => True
  | (now', _) :: es' => now <= now' /\ clock_ok now' es'
  end.

Lemma session_wp es now h w :
  session_ok now h w -> clock_ok now es ->
  wp (session es h)
     (fun h' w' => (exists now', session_ok now' h' w') /\ same_host h h') w.
Proof.
  revert now h w. induction es as [|[now' e] es IH]; intros now h w Hok Hc.
  - apply wp_ret. split; [now exists now | apply same_host_refl].
  - destruct Hc as [Hn Hc]. cbn [session]. apply wp_bind.
    eapply wp_mono; [|apply (deliver_wp now now'); assumption].
    intros h1 w1 [Hok1 Hsame1].
    eapply wp_mono; [|apply (IH now'); assumption].
    intros h2 w2 [Hok2 Hsame2]. split; [exact Hok2|].
    eapply same_host_trans; eassumption.
Qed.

Lemma Florodoro__init___ok now debug width height w :
  rng_ok (random_state w) ->
  session_ok now (Florodoro__init__ debug width height) w.
Proof.
  intros Hg. split; [exact Hg|]. split; [reflexivity|].
  split; [discriminate|]. split; [discriminate|].
  split; [split; discriminate|]. split; [|constructor].
  split; [discriminate|]. split; intros H; now elim H.
Qed.

Lemma wp_result {A} (m : M A) Q w :
  wp m Q w -> exists a w', m w = Ok (a, w') /\ Q a w'.
Proof. apply wp_run. Qed.

(** X14. No handler of a session raises, in the part of the host that is
    followed here: from the state that [__init__] leaves, whatever the mode,
    the size of the canvas and the random source, every sequence of clicks
    on the four buttons, timeouts of the timer, key presses, paint events
    and changes of the spin boxes and of the plant menu runs to its end, as
    long as the clock does not go back. In particular no attribute of the host is read before [start] has
    assigned it, [choice] never gets an empty list, [canvas.save] always
    finds a drawable, and the total time that divides the time left is
    never zero. *)
Theorem session_never_raises (debug : bool) (width height : Z)
    (es : list (R * event)) (now : R) (w : world) :
  rng_ok (random_state w) -> clock_ok now es ->
  exists h' w',
    session es (Florodoro__init__ debug width height) w = Ok (h', w').
Proof.
  intros Hg Hc.
  destruct (wp_result _ _ _
              (session_wp es now _ w
                 (Florodoro__init___ok now debug width height w Hg) Hc))
    as (h' & w' & E & _).
  now exists h', w'.
Qed.

Lemma session_never_raises_witness :
  exists h' w',
    session
      [(0, study_button_clicked);
       (10, study_timer_timeout String.EmptyString String.EmptyString);
       (20, pause_button_clicked);
       (30, canvas_paint);
       (40, pause_button_clicked);
       (5000, study_timer_timeout String.EmptyString String.EmptyString);
       (5001, key_pressed true);
       (5002, reset_button_clicked)]
      (Florodoro__init__ true 500 400) (fresh_world Flower) = Ok (h', w').
Proof.
  apply (session_never_raises true 500 400 _ 0 (fresh_world Flower)).
  - exact zero_rng_ok.
  - cbn [clock_ok]. repeat split; lra.
Defined.

(** *** What an event does to the plants folder *)

(** The time of the last event of [es], or [now] when there is none. *)
Fixpoint last_time (now : R) (es : list (R * event)) : R :=
  match es with
  | [] => now
  | (now', _) :: es' => last_time now' es'
  end.

Lemma clock_ok_app now es now' e :
  clock_ok now (es ++ [(now', e)]) ->
  clock_ok now es /\ last_time now es <= now'.
Proof.
  revert now. induction es as [|[t e0] es IH]; intros now; cbn.
  - tauto.
  - intros [Hn H]. destruct (IH _ H). tauto.
Qed.

Lemma session_last_wp es now h w :
  session_ok now h w -> clock_ok now es ->
  wp (session es h)
     (fun h' w' => session_ok (last_time now es) h' w' /\ same_host h h') w.
Proof.
  revert now h w. induction es as [|[now' e] es IH]; intros now h w Hok Hc.
  - apply wp_ret. split; [exact Hok | apply same_host_refl].
  - destruct Hc as [Hn Hc]. cbn [session last_time]. apply wp_bind.
    eapply wp_mono; [|apply (deliver_wp now now'); assumption].
    intros h1 w1 [Hok1 Hsame1].
    eapply wp_mono; [|apply (IH now'); assumption].
    intros h2 w2 [Hok2 Hsame2]. split; [exact Hok2|].
    eapply same_host_trans; eassumption.
Qed.

(** Every case of a run that has returned. *)
Ltac run_cases H :=
  cbv beta iota in H;
  repeat (match type of H with
          | Raise _ = Ok _ => discriminate H
          | context [match ?x with _ => _ end] =>
              lazymatch x with
              | context [match _ with _ => _ end] => fail
              | _ => destruct x eqn:?
              end
          end;
          cbv beta iota in H).

Lemma start_folder now do_break cycled_call h w h' w' :
  start now do_break cycled_call h w = Ok (h', w') ->
  plants_folder h' = plants_folder h /\
  (do_break = true ->
   w' = w /\ canvas h' = canvas h /\ plant_growing h' = plant_growing h).
Proof.
  intros E. unfold start, bind, ret in E. cbv zeta in E.
  destruct do_break, cycled_call; cbn [negb andb] in E; run_cases E;
    inversion E; subst; split; try reflexivity; try discriminate;
    intros _; repeat split.
Qed.

Lemma reset_folder button_press h w h' w' :
  reset button_press h w = Ok (h', w') ->
  plants_folder h' = plants_folder h.
Proof.
  intros E. unfold reset, bind, ret in E. cbv zeta in E.
  destruct button_press; run_cases E; inversion E; subst; reflexivity.
Qed.

Lemma keyPressEvent_folder escape h w h' w' :
  keyPressEvent escape h w = Ok (h', w') ->
  plants_folder h' = plants_folder h.
Proof.
  intros E. unfold keyPressEvent, bind, ret in E.
  run_cases E; inversion E; subst; reflexivity.
Qed.

Lemma toggle_pause_folder now h w h' w' :
  toggle_pause now h w = Ok (h', w') ->
  plants_folder h' = plants_folder h.
Proof.
  intros E. unfold toggle_pause, bind, ret in E. cbv zeta in E.
  run_cases E; inversion E; subst; reflexivity.
Qed.

(** [post m Q w]: when [m] returns from [w], its value and its final state
    satisfy [Q]. *)
Definition post {A} (m : M A) (Q : A -> world -> Prop) (w : world) : Prop :=
  forall a w', m w = Ok (a, w') -> Q a w'.

Lemma post_bind {A B} (m : M A) (k : A -> M B) Q w :
  post m (fun a w1 => post (k a) Q w1) w -> post (bind m k) Q w.
Proof.
  unfold post, bind. intros H b w' E.
  destruct (m w) as [[a w1]|e]; [|discriminate E]. eapply H; eauto.
Qed.

Lemma post_ret {A} (a : A) (Q : A -> world -> Prop) w :
  Q a w -> post (ret a) Q w.
Proof. intros H b w' E. injection E as <- <-. exact H. Qed.

Lemma post_host_attr {A} (v : option A) (Q : A -> world -> Prop) w :
  (forall a, v = Some a -> Q a w) -> post (host_attr v) Q w.
Proof.
  intros H b w' E. destruct v as [a|]; [|discriminate E].
  injection E as <- <-. now apply H.
Qed.

(** The time of a study has run out at [now], with a plant growing. *)
Definition study_runs_out (now : R) (h : Florodoro) : Prop :=
  (exists ending, ending_time h = Some ending /\ ending - now <= 0) /\
  study_done h = Some false /\ plant_growing h = true.

(** What an event that has returned has done to the plants folder: nothing,
    or it has saved the plant of [w] as it was. *)
Definition folder_after (saves : Prop) (h : Florodoro) (w : world)
    : Florodoro -> world -> Prop :=
  fun h' w' =>
    (plants_folder h' = plants_folder h /\ ~ saves) \/
    (saves /\
     exists svg P,
       plants_folder h' = svg :: plants_folder h /\
       has_params (self w) P /\ 0 <= age (self w) < 1 /\
       size svg = (Canvas_width (canvas h), Canvas_height (canvas h)) /\
       shows svg P (age (self w)) /\ age (self w') = age (self w)).

Lemma decrease_remaining_time_folder now0 now path name h w :
  session_ok now0 h w -> DEBUG h = false ->
  post (decrease_remaining_time now path name h)
    (folder_after (study_runs_out now h) h w) w.
Proof.
  intros (Hg & Hl & Hs & Hb & Ht & (Hpg & Ho & Hp) & Hf) Hd.
  unfold decrease_remaining_time. rewrite Hd.
  apply post_bind, post_ret, post_bind, post_host_attr. intros ending Ee.
  cbv zeta. destruct (Rle_dec (ending - now) 0) as [Hout|Hleft].
  - apply post_bind, post_host_attr. intros [|] Ed.
    + assert (Hno : ~ study_runs_out now h).
      { intros (_ & Ed' & _). cbn [study_done set_main_label] in Ed.
        congruence. }
      apply post_bind. intros h3 w3 Er. apply reset_folder in Er.
      cbn [plants_folder set_main_label] in Er.
      destruct (negb (cycles h3 =? 1)%Z).
      * intros h4 w4 Es. apply start_folder in Es. destruct Es as [Es _].
        cbn [plants_folder set_cycles] in Es. left. split; [congruence|].
        exact Hno.
      * apply post_ret. left. now split.
    + apply post_bind. unfold start_break. intros h3 w3 Es.
      apply start_folder in Es. destruct Es as [Ef Es].
      destruct (Es eq_refl) as (-> & Ec & Eg). clear Es.
      cbn [plants_folder canvas plant_growing study_done set_main_label]
        in Ef, Ec, Eg, Ed.
      destruct (plant_growing h3) eqn:Hgrow.
      2:{ apply post_ret. left. split; [exact Ef|].
          intros (_ & _ & Hg'). congruence. }
      symmetry in Eg.
      assert (Hout' : study_runs_out now h).
      { split; [exists ending; now split | now split]. }
      assert (Hobj : object (canvas h) <> None) by (apply Hpg, Eg).
      destruct (Hp (Ho Hobj)) as (P & HP & _ & _ & Ha & Hlt).
      rewrite Hd in Hlt. specialize (Hlt eq_refl).
      apply post_bind. intros svg w4 Esave. rewrite Ec in Esave.
      pose proof (Canvas_save_wp (canvas h)
                    (String.append path (String.append name ".svg"%string))
                    P
                    (fun svg w' =>
                       size svg
                       = (Canvas_width (canvas h), Canvas_height (canvas h))
                       /\ shows svg P (age (self w))
                       /\ age (self w') = age (self w))
                    w Hobj HP) as W.
      unfold wp in W. rewrite Esave in W.
      destruct W as (Hsize & Hshows & Hage).
      { intros svg' Hsize Hshows. split; [exact Hsize|].
        split; [exact Hshows|]. cbn [self]. apply age_after__draw. }
      apply post_ret. right. split; [exact Hout'|]. exists svg, P.
      cbn [plants_folder set_plants_folder]. rewrite Ef.
      split; [reflexivity|]. split; [exact HP|]. split; [lra|].
      split; [exact Hsize|]. split; assumption.
  - assert (Hno : ~ study_runs_out now h).
    { intros ((ending' & Ee' & Hle) & _).
      cbn [ending_time] in Ee. rewrite Ee in Ee'. injection Ee' as <-.
      contradiction. }
    apply post_bind, post_host_attr. intros [|] _; cbn [negb].
    + apply post_ret. left. now split.
    + apply post_bind. intros u w3 _. apply post_ret. left. now split.
Qed.

(** The event [e] is a timeout of a running timer that finds the time of a
    study run out, with a plant growing. *)
Definition saves (now : R) (e : event) (h : Florodoro) : Prop :=
  (exists path name, e = study_timer_timeout path name) /\
  study_timer_active h = true /\ study_runs_out now h.

Lemma deliver_folder now0 now e h w :
  session_ok now0 h w -> DEBUG h = false ->
  post (deliver now e h) (folder_after (saves now e h) h w) w.
Proof.
  intros Hok Hd.
  assert (Hother : (forall path name, e <> study_timer_timeout path name) ->
                   ~ saves now e h).
  { intros Hne ((path & name & He) & _). now apply (Hne path name). }
  destruct e; cbn [deliver];
    try (specialize (Hother ltac:(discriminate))).
  - intros h' w' E. left. split; [now apply start_folder in E | exact Hother].
  - intros h' w' E. left. split; [now apply start_folder in E | exact Hother].
  - destruct (pause_button_disabled h); [apply post_ret; left; now split|].
    intros h' w' E. left.
    split; [now apply toggle_pause_folder in E | exact Hother].
  - intros h' w' E. left. split; [now apply reset_folder in E | exact Hother].
  - clear Hother. destruct (study_timer_active h) eqn:Hact.
    + intros h' w' E.
      destruct (decrease_remaining_time_folder now0 now path name h w Hok Hd
                  h' w' E) as [[Hf Hno]|[Hyes H]].
      * left. split; [exact Hf|]. intros (_ & _ & Hout). now apply Hno.
      * right. split; [|exact H]. split; [now exists path, name|].
        now split.
    + apply post_ret. left. split; [reflexivity|].
      intros (_ & Hact' & _). congruence.
  - intros h' w' E. left.
    split; [now apply keyPressEvent_folder in E | exact Hother].
  - apply post_bind. intros u w1 _. apply post_ret. left. now split.
  - apply post_ret. left. now split.
  - apply post_ret. left. now split.
  - apply post_ret. left. now split.
  - apply post_ret. left. now split.
Qed.

(** X15. Outside of the debug mode, a plant that has reached its full age
    is never saved. Whatever the session before, an event adds a file to
    the plants folder exactly when it is a timeout of the running timer that
    finds the time of a study run out with a plant growing, and otherwise
    leaves the folder as it is. When it adds a file, the plant of the canvas
    has, at that moment, an age in [0, 1); the file has the size of the
    canvas and holds the drawing of that very plant, with its own
    parameters, at that age; and the event leaves the age as it is: the host
    starts the break and saves the canvas without a last
    [set_current_age]. *)
Theorem saved_plants_are_never_fully_grown (width height : Z)
    (es : list (R * event)) (now now' : R) (e : event) (w : world) :
  rng_ok (random_state w) -> clock_ok now (es ++ [(now', e)]) ->
  exists h w1 h' w2,
    session es (Florodoro__init__ false width height) w = Ok (h, w1) /\
    deliver now' e h w1 = Ok (h', w2) /\
    ((plants_folder h' = plants_folder h /\ ~ saves now' e h) \/
     (saves now' e h /\
      exists svg P,
        plants_folder h' = svg :: plants_folder h /\
        has_params (self w1) P /\ 0 <= age (self w1) < 1 /\
        size svg = (width, height) /\
        shows svg P (age (self w1)) /\ age (self w2) = age (self w1))).
Proof.
  intros Hg Hc. destruct (clock_ok_app _ _ _ _ Hc) as [Hc1 Hlast].
  destruct (wp_result _ _ _
              (session_last_wp es now _ w
                 (Florodoro__init___ok now false width height w Hg) Hc1))
    as (h & w1 & E & Hok & (Hd & Hcw & Hch)).
  destruct (wp_result _ _ _
              (deliver_wp (last_time now es) now' e h w1 Hok Hlast))
    as (h' & w2 & E2 & _).
  exists h, w1, h', w2. split; [exact E|]. split; [exact E2|].
  cbn [DEBUG canvas Canvas_width Canvas_height Florodoro__init__
       Canvas__init__] in Hd, Hcw, Hch.
  destruct (deliver_folder _ now' e h w1 Hok Hd h' w2 E2)
    as [Hsame|(Hyes & svg & P & H)]; [now left | right].
  split; [exact Hyes|]. exists svg, P. rewrite Hcw, Hch in H. exact H.
Qed.

Lemma saved_plants_are_never_fully_grown_witness :
  exists h w1 h' w2,
    session
      [(0, study_button_clicked);
       (1000, study_timer_timeout String.EmptyString String.EmptyString)]
      (Florodoro__init__ false 500 400) (fresh_world Flower) = Ok (h, w1) /\
    deliver 2800
      (study_timer_timeout String.EmptyString String.EmptyString) h w1
      = Ok (h', w2) /\
    ((plants_folder h' = plants_folder h /\
      ~ saves 2800
          (study_timer_timeout String.EmptyString String.EmptyString) h) \/
     (saves 2800
        (study_timer_timeout String.EmptyString String.EmptyString) h /\
      exists svg P,
        plants_folder h' = svg :: plants_folder h /\
        has_params (self w1) P /\ 0 <= age (self w1) < 1 /\
        size svg = (500%Z, 400%Z) /\
        shows svg P (age (self w1)) /\ age (self w2) = age (self w1))).
Proof.
  apply (saved_plants_are_never_fully_grown 500 400 _ 0 2800 _
           (fresh_world Flower)).
  - exact zero_rng_ok.
  - cbn [clock_ok app]. repeat split; lra.
Defined.

(** X16. With one plant or more checked in the menu and a study time of a
    minute or more, the study button makes a new plant of a checked class at
    age 0 and hands the canvas over to it. Its [maxAge] is the study time,
    with the 0.99 seconds that [start] adds, as a part of 90 minutes, capped
    at 1: it lies in (0, 1], and it is 1 exactly from 90 minutes on. *)
Theorem start_sets_maxAge_from_the_study_time (now : R)
    (cycled_call : bool) (h : Florodoro) (w : world) :
  rng_ok (random_state w) ->
  length (plant_checkboxes h) = length PLANTS ->
  In true (plant_checkboxes h) ->
  (1 <= study_time_spinbox h)%Z ->
  exists h' w' m,
    start now false cycled_call h w = Ok (h', w') /\
    plant_growing h' = true /\ object (canvas h') = Some the_plant /\
    In (class (self w')) PLANTS /\ age (self w') = 0 /\
    maxAge (self w') = Some m /\
    m = Rmin 1 ((IZR (study_time_spinbox h) * 60 + 0.99) / 5400) /\
    0 < m <= 1 /\ (m = 1 <-> (90 <= study_time_spinbox h)%Z) /\
    main_label h' =
      update_time_label (IZR (study_time_spinbox h) * 60 + 0.99).
Proof.
  intros Hg Hl Hin Hs.
  set (total := IZR (study_time_spinbox h) * 60 + 0.99).
  set (m := Rmin 1 (total / 5400)).
  assert (Hm : 0 < m <= 1 /\ (m = 1 <-> (90 <= study_time_spinbox h)%Z)).
  { pose proof (IZR_le _ _ Hs) as Hs'. unfold m, Rmin, total.
    destruct (Rle_dec 1 _) as [H|H].
    - split; [lra|]. split; [intros _|reflexivity].
      apply le_IZR.
      assert (89 < IZR (study_time_spinbox h)) by lra.
      apply lt_IZR in H0. apply IZR_le. lia.
    - split; [lra|]. split; [lra|]. intros H90. apply IZR_le in H90. lra. }
  cut (wp (start now false cycled_call h)
         (fun h' w' =>
            plant_growing h' = true /\ object (canvas h') = Some the_plant /\
            In (class (self w')) PLANTS /\ age (self w') = 0 /\
            maxAge (self w') = Some m /\
            main_label h' = update_time_label total) w).
  { intros W. destruct (wp_result _ _ _ W)
      as (h' & w' & E & H1 & H2 & H3 & H4 & H5 & H6).
    exists h', w', m. repeat (split; [assumption|]).
    split; [reflexivity|]. split; [apply Hm|]. split; [apply Hm | exact H6]. }
  unfold start. cbv zeta. cbn [negb]. rewrite andb_true_r. apply wp_bind.
  destruct cycled_call; cbn [negb]; host_simpl;
    (apply wp_bind, possible_plants_wp; [exact Hl|]);
    intros l Hincl Hne; specialize (Hne Hin);
    (destruct l as [|c l]; [contradiction|]); cbn [length Nat.eqb negb];
    apply wp_bind, wp_choice; [discriminate| |discriminate|];
    intros v Hv; apply wp_bind; unfold wp at 1, construct; apply wp_bind;
    (eapply wp_mono; [|apply set_max_age_wp; exact Hg]);
    intros u w1 (_ & _ & _ & Hc1 & _ & _ & Hm1 & _);
    apply wp_bind; unfold set_current_age; apply wp_assign;
    apply wp_ret, wp_ret; host_simpl; cbn [self age class maxAge assign_age];
    (split; [reflexivity|]); (split; [reflexivity|]);
    (split; [rewrite Hc1; apply Hincl, Hv|]); (split; [reflexivity|]);
    (split; [|reflexivity]);
    rewrite Hm1; unfold m, total, MAX_PLANT_AGE; do 2 f_equal; lra.
Qed.

Lemma start_sets_maxAge_from_the_study_time_witness :
  exists h' w' m,
    start 0 false false (Florodoro__init__ false 500 400) (fresh_world Flower)
      = Ok (h', w') /\
    plant_growing h' = true /\ object (canvas h') = Some the_plant /\
    In (class (self w')) PLANTS /\ age (self w') = 0 /\
    maxAge (self w') = Some m /\
    m = Rmin 1
          ((IZR (study_time_spinbox (Florodoro__init__ false 500 400)) * 60
            + 0.99) / 5400) /\
    0 < m <= 1 /\
    (m = 1 <->
     (90 <= study_time_spinbox (Florodoro__init__ false 500 400))%Z) /\
    main_label h' =
      update_time_label
        (IZR (study_time_spinbox (Florodoro__init__ false 500 400)) * 60
         + 0.99).
Proof.
  apply (start_sets_maxAge_from_the_study_time 0 false
           (Florodoro__init__ false 500 400) (fresh_world Flower)).
  - exact zero_rng_ok.
  - reflexivity.
  - left. reflexivity.
  - cbn. lia.
Defined.

(** ** Florodoro.play_sound

    The choice of the files to play among the names that
    [os.listdir(self.SOUNDS_FOLDER)] returns; playing a file is recorded by
    its name. *)

Import Ascii.AsciiSyntax.
Delimit Scope char_scope with char.

(** [s[n:]] *)
Fixpoint slice_from (n : nat) (s : String.string) : String.string :=
  match n, s with
  | O, _ => s
  | S n', String.String _ s' => slice_from n' s'
  | S _, String.EmptyString => String.EmptyString
  end.

(** [file.startswith(name) and file[len(name):][0] == "."] *)
Definition is_sound_file (file name : String.string) : result bool :=
  if String.prefix name file then
    match slice_from (String.length name) file with
    | String.String c _ => Ok (Ascii.eqb c "."%char)
    | String.EmptyString => Raise IndexError
    end
  else Ok false.

(** [Florodoro.play_sound]: the files played, in the order of the listing. *)
Fixpoint play_sound (listing : list String.string) (name : String.string)
    : result (list String.string) :=
  match listing with
  | [] => Ok []
  | file :: listing' =>
      match is_sound_file file name with
      | Ok matches =>
          match play_sound listing' name with
          | Ok played => Ok (if matches then file :: played else played)
          | Raise e => Raise e
          end
      | Raise e => Raise e
      end
  end.

Lemma is_sound_file_cons a name b file :
  is_sound_file (String.String b file) (String.String a name) =
  if Ascii.eqb a b then is_sound_file file name else Ok false.
Proof.
  unfold is_sound_file. cbn [String.prefix String.length slice_from].
  destruct (Ascii.ascii_dec a b) as [->|Hn].
  - now rewrite Ascii.eqb_refl.
  - destruct (Ascii.eqb_spec a b); [contradiction | reflexivity].
Qed.

Lemma is_sound_file_raises file name :
  is_sound_file file name = Raise IndexError <-> file = name.
Proof.
  revert file. induction name as [|a name IH]; intros [|b file].
  - now split.
  - unfold is_sound_file. cbn. split; discriminate.
  - unfold is_sound_file. cbn. split; discriminate.
  - rewrite is_sound_file_cons. destruct (Ascii.eqb_spec a b) as [->|Hn].
    + rewrite IH. split; [now intros -> | now intros [= ->]].
    + split; [discriminate | intros [= -> ->]; contradiction].
Qed.

Lemma is_sound_file_true file name :
  is_sound_file file name = Ok true <->
  exists extension,
    file = String.append name (String.String "."%char extension).
Proof.
  revert file. induction name as [|a name IH]; intros [|b file].
  - unfold is_sound_file. cbn. split; [discriminate|]. now intros [e He].
  - unfold is_sound_file. cbn. destruct (Ascii.eqb_spec b "."%char) as [->|Hn].
    + split; [intros _; now exists file | reflexivity].
    + split; [discriminate|]. intros [e [= -> _]]. contradiction.
  - unfold is_sound_file. cbn. split; [discriminate|]. now intros [e He].
  - rewrite is_sound_file_cons. cbn [String.append].
    destruct (Ascii.eqb_spec a b) as [->|Hn].
    + rewrite IH. split; intros [e He]; exists e; congruence.
    + split; [discriminate|]. intros [e [= -> _]]. contradiction.
Qed.

Lemma is_sound_file_total file name :
  is_sound_file file name = Raise IndexError \/
  exists matches, is_sound_file file name = Ok matches.
Proof.
  unfold is_sound_file. destruct (String.prefix name file); [|eauto].
  destruct (slice_from _ _); eauto.
Qed.

(** X17. [play_sound] raises an [IndexError] exactly when the sounds
    folder lists a file whose name is the name asked for, with nothing after
    it: [file[len(name):]] is then empty and has no first character.
    Otherwise it returns, and it plays exactly the listed files whose name
    is the name asked for, a dot, and anything after it, be it empty or
    more than one extension. *)
Theorem play_sound_needs_an_extension (listing : list String.string)
    (name : String.string) :
  (In name listing <-> play_sound listing name = Raise IndexError) /\
  (~ In name listing ->
   exists played,
     play_sound listing name = Ok played /\
     forall file,
       In file played <->
       In file listing /\
       exists extension,
         file = String.append name (String.String "."%char extension)).
Proof.
  induction listing as [|file listing [IHr IHp]].
  - split; [split; [contradiction | discriminate]|]. intros _. exists [].
    split; [reflexivity|]. intros file. split; [contradiction | tauto].
  - cbn [play_sound In].
    destruct (is_sound_file_total file name) as [E|[matches E]]; rewrite E.
    + apply is_sound_file_raises in E. subst file.
      split; [split; auto|]. intros H. exfalso. apply H. now left.
    + assert (Hn : file <> name).
      { intros Hf. apply is_sound_file_raises in Hf. congruence. }
      split.
      * split.
        -- intros [Hf|Hin]; [contradiction|]. now rewrite (proj1 IHr Hin).
        -- destruct (play_sound listing name) as [played|e] eqn:Ep;
             [discriminate|].
           intros [= ->]. right. now apply IHr.
      * intros Hnot.
        destruct IHp as (played & Ep & Hplayed); [tauto|].
        rewrite Ep. eexists. split; [reflexivity|]. intros f.
        destruct matches.
        -- apply is_sound_file_true in E. cbn [In]. rewrite Hplayed.
           split.
           ++ intros [<-|[Hin He]]; [split; [now left | exact E]|].
              split; [now right | exact He].
           ++ intros [[<-|Hin] He]; [now left | right; now split].
        -- rewrite Hplayed. split.
           ++ intros [Hin He]. split; [now right | exact He].
           ++ intros [[<-|Hin] He]; [|now split].
              apply is_sound_file_true in He. congruence.
Qed.
